(** * Proyecto-Html: the scripts of [JS/tema.js]

    A shallow embedding of the modules of [tema.js]: the theme system of its
    first part, and of its second part the validation of forms (module 1),
    the helpers for the page (module 2), the dynamic list (module 3), the
    carousel (module 4), the gallery (module 5), the theme manager
    (module 6), the calculator (module 7) and the application (module 8);
    together with the parts of the JavaScript runtime they call:
    [parseFloat], [parseInt], [Number.prototype.toFixed],
    [Number.prototype.toString], [JSON.stringify], [JSON.parse],
    [String.prototype.trim] and the test of a regular expression.

    Conventions.
    - A JavaScript string is the sequence of its code units.  The model keeps
      the code units below 256, so a string is a Rocq [string] and a code
      unit an [ascii].
    - A JavaScript number is an IEEE 754 binary64 value, a [spec_float] of
      the Standard Library taken at precision 53 and exponent bound 1024;
      an index or a count is an integer.
    - An operation that can throw returns an [outcome].
    - The page is what a module reads and writes of it; a listener is the
      function of the state that it runs, and an event the value that
      selects it. *)

From Stdlib Require Import ZArith NArith String Ascii List Bool Lia.
From Stdlib Require Import DecimalString DecimalFacts DecimalN SpecFloat.
From stdpp Require Import gmap strings list.

Local Open Scope Z_scope.

(** ** Strings *)

Module JSString.

(** Code units that cannot be written inside a Rocq string literal, or that
    lie outside ASCII. *)
Definition quote : ascii := ascii_of_nat 34.
Definition backslash : ascii := ascii_of_nat 92.
Definition times_sign : ascii := ascii_of_nat 215.
Definition division_sign : ascii := ascii_of_nat 247.
Definition i_acute : ascii := ascii_of_nat 237.
Definition o_acute : ascii := ascii_of_nat 243.

Definition code (c : ascii) : Z := Z.of_nat (nat_of_ascii c).

Definition char (c : ascii) : string := String c EmptyString.

(** [s.startsWith(sub)] *)
Fixpoint starts_with (sub s : string) : bool :=
  match sub with
  | EmptyString => true
  | String a sub' =>
      match s with
      | String b s' => Ascii.eqb a b && starts_with sub' s'
      | EmptyString => false
      end
  end.

(** [s.includes(sub)] *)
Fixpoint includes (s sub : string) : bool :=
  if starts_with sub s then true
  else match s with
       | EmptyString => false
       | String _ s' => includes s' sub
       end.

(** [s] has a decimal point. *)
Definition has_point (s : string) : Prop :=
  exists a b : string, s = a +:+ "." +:+ b.

(** [s.split(sep)] for a separator of one code unit: the segments between
    the separators, at least one. *)
Fixpoint split (sep : ascii) (s : string) : list string :=
  match s with
  | EmptyString => [EmptyString]
  | String c s' =>
      if Ascii.eqb c sep then EmptyString :: split sep s'
      else match split sep s' with
           | seg :: segs => String c seg :: segs
           | [] => [char c]
           end
  end.

(** [s.slice(0, -1)] *)
Fixpoint slice_0_m1 (s : string) : string :=
  match s with
  | EmptyString => EmptyString
  | String c EmptyString => EmptyString
  | String c s' => String c (slice_0_m1 s')
  end.

(** [s.slice(n)] *)
Fixpoint drop (n : nat) (s : string) : string :=
  match n, s with
  | S n', String _ s' => drop n' s'
  | _, _ => s
  end.

Definition is_digit (c : ascii) : bool :=
  (48 <=? code c) && (code c <=? 57).

Definition digit_value (c : ascii) : Z := code c - 48.

(** The longest prefix of decimal digits, and what follows it. *)
Fixpoint take_digits (s : string) : string * string :=
  match s with
  | String c s' =>
      if is_digit c then
        let '(ds, rest) := take_digits s' in (String c ds, rest)
      else (EmptyString, s)
  | EmptyString => (EmptyString, EmptyString)
  end.

(** The value of a string of decimal digits, most significant first. *)
Fixpoint digits_value (acc : Z) (s : string) : Z :=
  match s with
  | EmptyString => acc
  | String c s' => digits_value (10 * acc + digit_value c) s'
  end.

(** The decimal digits of a natural number, without leading zeros. *)
Definition of_N (n : N) : string := NilEmpty.string_of_uint (N.to_uint n).

Definition zeros (n : Z) : string := String.concat "" (repeat "0"%string (Z.to_nat n)).

(** Case analysis over the 256 code units. *)
Ltac each_ascii c := destruct c as [[] [] [] [] [] [] [] []].

End JSString.

(** ** Numbers: binary64 *)

Module Number.
Import JSString.

Definition prec : Z := 53.
Definition emax : Z := 1024.

Definition NaN : spec_float := S754_nan.

Definition isNaN (x : spec_float) : bool :=
  match x with S754_nan => true | _ => false end.

(** [x === 0]: both zeros compare equal to [0]. *)
Definition is_zero (x : spec_float) : bool :=
  match x with S754_zero _ => true | _ => false end.

Definition add : spec_float -> spec_float -> spec_float := SFadd prec emax.
Definition sub : spec_float -> spec_float -> spec_float := SFsub prec emax.
Definition mul : spec_float -> spec_float -> spec_float := SFmul prec emax.
Definition div : spec_float -> spec_float -> spec_float := SFdiv prec emax.

(** The binary64 value nearest to [m * 10^e] (ties to even), for [m >= 0],
    with the sign [neg].  [nd] bounds the number of decimal digits of [m]; it
    only serves to leave out powers of ten whose result is known: a value of
    [10^311] or more is infinite, a value below [10^-330] is zero. *)
Definition of_decimal (neg : bool) (m : Z) (nd : Z) (e : Z) : spec_float :=
  if m <=? 0 then S754_zero neg
  else if 310 <? e then S754_infinity neg
  else if nd + e <? -330 then S754_zero neg
  else if 0 <=? e then
    match m * 10 ^ e with
    | Zpos q => binary_round prec emax neg q 0
    | _ => S754_zero neg
    end
  else
    let d := 10 ^ (- e) in
    let s := Z.max 0 (56 + Z.log2 d - Z.log2 m) in
    let '(q, r) := Z.div_eucl (Z.shiftl m s) d in
    binary_round_aux prec emax neg q (- s) (new_location d r).

(** The decimal literal a string starts with, as [parseFloat] reads it
    (StrDecimalLiteral): the text after the sign is [Infinity], or digits with
    an optional fraction and exponent.  [None] when no prefix is a literal. *)
Inductive literal : Type :=
| LitInfinity
| LitDecimal (int_digits frac_digits : string) (exponent : Z).

(** An exponent part is read only when it is complete: [e] or [E], an
    optional sign and at least one digit; otherwise the literal ends before
    it. *)
Definition scan_exponent (s : string) : Z :=
  match s with
  | String c s1 =>
      if Ascii.eqb c "e" || Ascii.eqb c "E" then
        let '(neg, s2) :=
          match s1 with
          | String "+" s2 => (false, s2)
          | String "-" s2 => (true, s2)
          | _ => (false, s1)
          end in
        let '(ds, _) := take_digits s2 in
        match ds with
        | EmptyString => 0
        | _ => if neg then - digits_value 0 ds else digits_value 0 ds
        end
      else 0
  | EmptyString => 0
  end.

Definition scan_unsigned (s : string) : option literal :=
  if starts_with "Infinity" s then Some LitInfinity
  else
    let '(int_digits, s1) := take_digits s in
    let '(frac_digits, s2) :=
      match s1 with
      | String "." s1' => take_digits s1'
      | _ => (EmptyString, s1)
      end in
    match int_digits, frac_digits with
    | EmptyString, EmptyString => None
    | _, _ => Some (LitDecimal int_digits frac_digits (scan_exponent s2))
    end.

(** White space and line terminators, among the code units below 256. *)
Definition is_white_space (c : ascii) : bool :=
  let n := code c in
  ((9 <=? n) && (n <=? 13)) || (n =? 32) || (n =? 160).

Fixpoint trim_start (s : string) : string :=
  match s with
  | String c s' => if is_white_space c then trim_start s' else s
  | EmptyString => EmptyString
  end.

Definition literal_value (neg : bool) (l : literal) : spec_float :=
  match l with
  | LitInfinity => S754_infinity neg
  | LitDecimal i f e =>
      let ds := (i ++ f)%string in
      of_decimal neg (digits_value 0 ds) (Z.of_nat (String.length ds))
        (e - Z.of_nat (String.length f))
  end.

(** [parseFloat(s)] *)
Definition parseFloat (s : string) : spec_float :=
  let t := trim_start s in
  let '(neg, u) :=
    match t with
    | String "+" u => (false, u)
    | String "-" u => (true, u)
    | _ => (false, t)
    end in
  match scan_unsigned u with
  | Some l => literal_value neg l
  | None => NaN
  end.

(** *** Number to string *)

(** The number of decimal digits of [z > 0]. *)
Definition digits10 (z : Z) : Z := Z.of_nat (String.length (of_N (Z.to_N z))).

(** A positive finite binary64 value as a fraction [num / den]. *)
Definition fraction (m : positive) (e : Z) : Z * Z :=
  if 0 <=? e then (Zpos m * 2 ^ e, 1) else (Zpos m, 2 ^ (- e)).

(** The least [j >= 1] with [num * 10^j >= den], for [0 < num < den]. *)
Fixpoint leading_zeros (fuel : nat) (num den : Z) (j : Z) : Z :=
  match fuel with
  | O => j
  | S fuel' =>
      if den <=? num * 10 ^ j then j else leading_zeros fuel' num den (j + 1)
  end.

(** The [n] with [10^(n-1) <= num / den < 10^n]. *)
Definition decimal_exponent (num den : Z) : Z :=
  if den <=? num then digits10 (num / den)
  else 1 - leading_zeros 400 num den 1.

(** [floor (num / den * 10^p)] and whether twice the remainder is below,
    at, or above the divisor. *)
Definition scale (num den p : Z) : Z * comparison :=
  let '(a, b) := if 0 <=? p then (num * 10 ^ p, den) else (num, den * 10 ^ (- p)) in
  let '(q, r) := Z.div_eucl a b in
  (q, 2 * r ?= b).

(** The shortest digits: the least [k >= 1] for which some [s] of [k] digits
    has [s * 10^(n-k)] round to [x]; of two such [s] the one nearer to [x],
    the even one on a tie.  The result is [(s, k, n)]. *)
Fixpoint shortest (fuel : nat) (x : spec_float) (num den n k : Z) : Z * Z * Z :=
  let '(lo, half) := scale num den (k - n) in
  let hi := lo + 1 in
  let ok_lo := SFeqb x (of_decimal false lo k (n - k)) in
  let ok_hi := SFeqb x (of_decimal false hi (k + 1) (n - k)) in
  let pick_hi :=
    match half with
    | Lt => false
    | Gt => true
    | Eq => Z.odd lo
    end in
  let found s := if s =? 10 ^ k then (1, 1, n + 1) else (s, k, n) in
  match fuel with
  | O => found (if pick_hi then hi else lo)
  | S fuel' =>
      if ok_lo && ok_hi then found (if pick_hi then hi else lo)
      else if ok_lo then found lo
      else if ok_hi then found hi
      else shortest fuel' x num den n (k + 1)
  end.

Definition format_digits (s k n : Z) : string :=
  let d := of_N (Z.to_N s) in
  if (k <=? n) && (n <=? 21) then (d ++ zeros (n - k))%string
  else if (0 <? n) && (n <=? 21) then
    (substring 0 (Z.to_nat n) d ++ "." ++ substring (Z.to_nat n) (Z.to_nat (k - n)) d)%string
  else if (-6 <? n) && (n <=? 0) then ("0." ++ zeros (- n) ++ d)%string
  else
    let e := n - 1 in
    let sign := if e <? 0 then "-"%string else "+"%string in
    let ee := of_N (Z.to_N (Z.abs e)) in
    if k =? 1 then (d ++ "e" ++ sign ++ ee)%string
    else (substring 0 1 d ++ "." ++ substring 1 (Z.to_nat (k - 1)) d ++ "e" ++ sign ++ ee)%string.

(** [x.toString()] *)
Definition toString (x : spec_float) : string :=
  match x with
  | S754_nan => "NaN"
  | S754_zero _ => "0"
  | S754_infinity neg => if neg then "-Infinity" else "Infinity"
  | S754_finite neg m e =>
      let '(num, den) := fraction m e in
      let n := decimal_exponent num den in
      let '(s, k, n') := shortest 17 (S754_finite false m e) num den n 1 in
      ((if neg then "-" else "") ++ format_digits s k n')%string
  end.

(** [x.toFixed(10)] *)
Definition toFixed10 (x : spec_float) : string :=
  match x with
  | S754_finite neg m e =>
      let '(num, den) := fraction m e in
      let sign := if neg then "-"%string else ""%string in
      if 10 ^ 21 * den <=? num then (sign ++ toString (S754_finite false m e))%string
      else
        let '(lo, half) := scale num den 10 in
        let n := match half with Lt => lo | _ => lo + 1 end in
        let d := of_N (Z.to_N n) in
        let k := Z.of_nat (String.length d) in
        let d' := if k <=? 10 then (zeros (11 - k) ++ d)%string else d in
        let k' := Z.max k 11 in
        (sign ++ substring 0 (Z.to_nat (k' - 10)) d' ++ "." ++ substring (Z.to_nat (k' - 10)) 10 d')%string
  | S754_zero _ => "0.0000000000"
  | _ => toString x
  end.

End Number.

(** ** Module 7: the calculator *)

Module Calculator.
Import JSString.

(** The four fields of the [Calculator] object that its methods read and
    write.  [operation] is [null] or the text of the operation chosen. *)
Record state : Type := mkState {
  currentOperand : string;
  previousOperand : string;
  operation : option string;
  shouldResetScreen : bool
}.

Definition initial : state :=
  {| currentOperand := "0"; previousOperand := ""; operation := None;
     shouldResetScreen := false |}.

Definition div0_message : string := "Error: Div/0".

(** [appendNumber(number)] *)
Definition appendNumber (number : string) (c : state) : state :=
  let c1 :=
    if shouldResetScreen c then
      {| currentOperand := ""; previousOperand := previousOperand c;
         operation := operation c; shouldResetScreen := false |}
    else c in
  if String.eqb number "." && includes (currentOperand c1) "." then c1
  else if String.eqb (currentOperand c1) "0" && negb (String.eqb number ".") then
    {| currentOperand := number; previousOperand := previousOperand c1;
       operation := operation c1; shouldResetScreen := shouldResetScreen c1 |}
  else
    {| currentOperand := currentOperand c1 ++ number;
       previousOperand := previousOperand c1;
       operation := operation c1; shouldResetScreen := shouldResetScreen c1 |}.

(** The value of the local [computation] of [compute]: a number, or the
    message that stands for a division by zero. *)
Inductive computation : Type :=
| CNumber (x : spec_float)
| CString (s : string).

(** The [switch] of [compute]; [None] is its [default] branch. *)
Definition apply_operation (op : option string) (prev current : spec_float)
  : option computation :=
  match op with
  | None => None
  | Some o =>
      if String.eqb o "+" then Some (CNumber (Number.add prev current))
      else if String.eqb o "-" then Some (CNumber (Number.sub prev current))
      else if String.eqb o (char times_sign) || String.eqb o "*" then
        Some (CNumber (Number.mul prev current))
      else if String.eqb o (char division_sign) || String.eqb o "/" then
        if Number.is_zero current then Some (CString div0_message)
        else Some (CNumber (Number.div prev current))
      else None
  end.

(** [parseFloat(computation.toFixed(10))] for a number, then [toString()]. *)
Definition computation_text (r : computation) : string :=
  match r with
  | CNumber x => Number.toString (Number.parseFloat (Number.toFixed10 x))
  | CString s => s
  end.

(** [compute()] *)
Definition compute (c : state) : state :=
  let prev := Number.parseFloat (previousOperand c) in
  let current := Number.parseFloat (currentOperand c) in
  if Number.isNaN prev || Number.isNaN current then c
  else
    match apply_operation (operation c) prev current with
    | None => c
    | Some r =>
        {| currentOperand := computation_text r; previousOperand := "";
           operation := None; shouldResetScreen := true |}
    end.

(** [chooseOperation(operation)] *)
Definition chooseOperation (op : string) (c : state) : state :=
  if String.eqb (currentOperand c) "" then c
  else
    let c1 := if negb (String.eqb (previousOperand c) "") then compute c else c in
    {| currentOperand := ""; previousOperand := currentOperand c1;
       operation := Some op; shouldResetScreen := shouldResetScreen c1 |}.

(** [clear()] *)
Definition clear (c : state) : state :=
  {| currentOperand := "0"; previousOperand := ""; operation := None;
     shouldResetScreen := shouldResetScreen c |}.

(** [delete()] *)
Definition delete (c : state) : state :=
  {| currentOperand :=
       if (String.length (currentOperand c) =? 1)%nat
          || String.eqb (currentOperand c) div0_message
       then "0" else slice_0_m1 (currentOperand c);
     previousOperand := previousOperand c;
     operation := operation c;
     shouldResetScreen := shouldResetScreen c |}.

(** The [keydown] listener of [setupEventListeners]: the method a key
    runs.  Keys compare as strings, as [>=] and [<=] do. *)
Definition keydown (key : string) (c : state) : state :=
  if String.leb "0" key && String.leb key "9" then appendNumber key c
  else if String.eqb key "." then appendNumber "." c
  else if String.eqb key "+" || String.eqb key "-" || String.eqb key "*"
          || String.eqb key "/" then chooseOperation key c
  else if String.eqb key "Enter" || String.eqb key "=" then compute c
  else if String.eqb key "Escape" then clear c
  else if String.eqb key "Backspace" then delete c
  else c.

Definition keys (ks : list string) (c : state) : state :=
  fold_left (fun c k => keydown k c) ks c.

Section Display.

(** [x.toLocaleString('es', {maximumFractionDigits: 0})], the host's
    formatting of a number for the Spanish locale. *)
Variable toLocaleString_es : spec_float -> string.

(** [integerDisplay] of [getDisplayNumber] for the text before the point. *)
Definition integerDisplay (integer_text : string) : string :=
  let integerDigits := Number.parseFloat integer_text in
  if Number.isNaN integerDigits then "" else toLocaleString_es integerDigits.

(** [getDisplayNumber(number)], for a string [number]. *)
Definition getDisplayNumber (number : string) : string :=
  if String.eqb number div0_message then number
  else
    let parts := split "." number in
    let display := integerDisplay (nth 0 parts ""%string) in
    match nth_error parts 1 with
    | Some decimalDigits => display ++ "." ++ decimalDigits
    | None => display
    end.

End Display.

(** *** Definitions for the statements *)

(** The last three assignments of [chooseOperation]. *)
Definition stage (op : string) (c : state) : state :=
  {| currentOperand := ""; previousOperand := currentOperand c;
     operation := Some op; shouldResetScreen := shouldResetScreen c |}.

(** [compute()] runs to its last statement: both operands parse and the
    operation is one of the four. *)
Definition completes (c : state) : bool :=
  let prev := Number.parseFloat (previousOperand c) in
  let current := Number.parseFloat (currentOperand c) in
  negb (Number.isNaN prev || Number.isNaN current)
  && match apply_operation (operation c) prev current with
     | Some _ => true
     | None => false
     end.

(** A state the keys [5 + . / 0] lead to: a division is staged, the current
    operand is zero, and the previous operand is a lone point. *)
Definition lone_point_state : state :=
  {| currentOperand := "0"; previousOperand := ".";
     operation := Some "/"%string; shouldResetScreen := false |}.

(** The state after the keys [1 +]: an operation is staged and no second
    operand has been typed. *)
Definition operator_typed_state : state :=
  {| currentOperand := ""; previousOperand := "1";
     operation := Some "+"%string; shouldResetScreen := false |}.

(** The division sign of the button, or the slash of the keyboard. *)
Definition is_division (op : option string) : Prop :=
  op = Some (char division_sign) \/ op = Some "/"%string.

End Calculator.

(** ** JSON *)

Module JSON.
Import JSString.

#[local] Set Warnings "-register-all".

(** The values [JSON.parse] builds and [JSON.stringify] writes.  An object
    lists its properties in insertion order.  [Num z] is the number [z]; the
    model holds the integers of magnitude below [2^53], which a binary64
    number holds exactly and writes as their decimal digits. *)
Inductive value : Type :=
| Null
| Bool (b : bool)
| Num (z : Z)
| Str (s : string)
| Arr (elements : list value)
| Obj (members : list (string * value)).

Definition safe_integer (z : Z) : bool := Z.abs z <? 2 ^ 53.

(** What reading a text gives: a result, the [SyntaxError] that
    [JSON.parse] throws, or [Unsupported] for a text whose value the model
    does not hold (a number that is not a safe integer written with digits
    only, a [\u] escape above 255, a property name made of digits, which an
    object would list before the others). *)
Inductive result (A : Type) : Type :=
| Ok (a : A)
| SyntaxError
| Unsupported.
Arguments Ok {A} a.
Arguments SyntaxError {A}.
Arguments Unsupported {A}.

#[export] Instance result_ret : MRet result := fun A a => Ok a.

#[export] Instance result_bind : MBind result := fun A B k r =>
  match r with
  | Ok a => k a
  | SyntaxError => SyntaxError
  | Unsupported => Unsupported
  end.

(** *** Writing *)

Definition hex_digit (n : Z) : ascii :=
  ascii_of_nat (Z.to_nat (if n <? 10 then 48 + n else 87 + n)).

(** QuoteJSONString, one code unit at a time. *)
Definition escape_char (c : ascii) : string :=
  let n := code c in
  if n =? 34 then String backslash (char quote)
  else if n =? 92 then String backslash (char backslash)
  else if n =? 8 then String backslash "b"
  else if n =? 9 then String backslash "t"
  else if n =? 10 then String backslash "n"
  else if n =? 12 then String backslash "f"
  else if n =? 13 then String backslash "r"
  else if n <? 32 then
    String backslash (String "u" (String "0" (String "0"
      (String (hex_digit (n / 16)) (char (hex_digit (n mod 16)))))))
  else char c.

Fixpoint escape (s : string) : string :=
  match s with
  | EmptyString => EmptyString
  | String c s' => escape_char c +:+ escape s'
  end.

Definition quote_string (s : string) : string :=
  String quote (escape s +:+ char quote).

Definition number_text (z : Z) : string :=
  if z <? 0 then "-" +:+ of_N (Z.abs_N z) else of_N (Z.abs_N z).

(** [JSON.stringify(v)] *)
Fixpoint stringify (v : value) : string :=
  match v with
  | Null => "null"
  | Bool true => "true"
  | Bool false => "false"
  | Num z => number_text z
  | Str s => quote_string s
  | Arr l => "[" +:+ String.concat "," (map stringify l) +:+ "]"
  | Obj l =>
      "{" +:+ String.concat ","
               (map (fun kv => quote_string (fst kv) +:+ ":" +:+ stringify (snd kv)) l)
          +:+ "}"
  end.

(** *** Reading *)

Definition is_ws (c : ascii) : bool :=
  let n := code c in (n =? 32) || (n =? 9) || (n =? 10) || (n =? 13).

Fixpoint skip_ws (s : string) : string :=
  match s with
  | String c s' => if is_ws c then skip_ws s' else s
  | EmptyString => EmptyString
  end.

Definition hex_value (c : ascii) : option Z :=
  let n := code c in
  if (48 <=? n) && (n <=? 57) then Some (n - 48)
  else if (97 <=? n) && (n <=? 102) then Some (n - 87)
  else if (65 <=? n) && (n <=? 70) then Some (n - 55)
  else None.

Definition hex4 (h1 h2 h3 h4 : ascii) : option Z :=
  match hex_value h1, hex_value h2, hex_value h3, hex_value h4 with
  | Some a, Some b, Some c, Some d => Some (4096 * a + 256 * b + 16 * c + d)
  | _, _, _, _ => None
  end.

(** The code unit a one-letter escape stands for. *)
Definition simple_escape (e : ascii) : option ascii :=
  let n := code e in
  if n =? 34 then Some quote
  else if n =? 92 then Some backslash
  else if n =? 47 then Some "/"%char
  else if n =? 98 then Some (ascii_of_nat 8)
  else if n =? 102 then Some (ascii_of_nat 12)
  else if n =? 110 then Some (ascii_of_nat 10)
  else if n =? 114 then Some (ascii_of_nat 13)
  else if n =? 116 then Some (ascii_of_nat 9)
  else None.

Definition cons_char (c : ascii) (r : result (string * string))
  : result (string * string) :=
  '(s, rest) ← r; Ok (String c s, rest).

(** The characters of a string literal after its opening quote, up to the
    closing quote, and the text after it. *)
Fixpoint scan_string (s : string) : result (string * string) :=
  match s with
  | EmptyString => SyntaxError
  | String c s1 =>
      if Ascii.eqb c quote then Ok (EmptyString, s1)
      else if Ascii.eqb c backslash then
        match s1 with
        | EmptyString => SyntaxError
        | String e s2 =>
            if Ascii.eqb e "u" then
              match s2 with
              | String h1 (String h2 (String h3 (String h4 s3))) =>
                  match hex4 h1 h2 h3 h4 with
                  | Some n =>
                      if n <? 256 then
                        cons_char (ascii_of_nat (Z.to_nat n)) (scan_string s3)
                      else Unsupported
                  | None => SyntaxError
                  end
              | _ => SyntaxError
              end
            else
              match simple_escape e with
              | Some c' => cons_char c' (scan_string s2)
              | None => SyntaxError
              end
        end
      else if code c <? 32 then SyntaxError
      else cons_char c (scan_string s1)
  end.

Definition leading_zero (ds : string) : bool :=
  match ds with
  | String c (String _ _) => Ascii.eqb c "0"
  | _ => false
  end.

(** What may not follow the digits of a number of the model: a point or
    an exponent. *)
Definition fraction_follows (rest : string) : bool :=
  match rest with
  | String c _ => Ascii.eqb c "." || Ascii.eqb c "e" || Ascii.eqb c "E"
  | EmptyString => false
  end.

(** The digits of a number, after its sign: [0], or digits that do not
    start with [0].  A fraction or an exponent, or a magnitude of [2^53] or
    more, is outside the model. *)
Definition parse_digits (neg : bool) (s : string) : result (Z * string) :=
  let '(ds, rest) := take_digits s in
  if String.eqb ds "" then SyntaxError
  else if leading_zero ds then SyntaxError
  else
    let z := digits_value 0 ds in
    if fraction_follows rest then Unsupported
    else if safe_integer z then Ok (if neg then - z else z, rest)
    else Unsupported.

(** A number: an optional minus, then the digits. *)
Definition parse_number (s : string) : result (Z * string) :=
  match s with
  | String c s' => if Ascii.eqb c "-" then parse_digits true s' else parse_digits false s
  | EmptyString => parse_digits false s
  end.

(** A property name that an object lists before the other names, in
    numeric order, whenever it is an array index; the model leaves out
    every name made of digits only. *)
Definition index_like (k : string) : bool :=
  match k with
  | EmptyString => false
  | _ => let '(_, rest) := take_digits k in String.eqb rest ""
  end.

(** Defining the property [k]: a name already present keeps its place and
    takes the new value; a new name goes last. *)
Fixpoint set_member (k : string) (v : value) (l : list (string * value))
  : list (string * value) :=
  match l with
  | [] => [(k, v)]
  | (k', v') :: l' =>
      if String.eqb k' k then (k', v) :: l' else (k', v') :: set_member k v l'
  end.

(** The text after the character [c], when [c] is the next character
    that is not white space. *)
Definition next_is (c : ascii) (s : string) : option string :=
  match skip_ws s with
  | String c' s' => if Ascii.eqb c' c then Some s' else None
  | EmptyString => None
  end.

(** The value a text starts with, and the text after it.  [fuel] bounds the
    number of nested calls, and a call that runs out of it answers
    [Unsupported]. *)
Fixpoint parse_value (fuel : nat) (s : string) : result (value * string) :=
  match fuel with
  | O => Unsupported
  | S fuel' =>
      match skip_ws s with
      | EmptyString => SyntaxError
      | String c s1 as t =>
          if Ascii.eqb c "[" then
            match next_is "]" s1 with
            | Some s2 => Ok (Arr [], s2)
            | None => parse_elements fuel' s1 []
            end
          else if Ascii.eqb c "{" then
            match next_is "}" s1 with
            | Some s2 => Ok (Obj [], s2)
            | None => parse_members fuel' s1 []
            end
          else if Ascii.eqb c quote then
            '(str, rest) ← scan_string s1; Ok (Str str, rest)
          else if Ascii.eqb c "-" || is_digit c then
            '(z, rest) ← parse_number t; Ok (Num z, rest)
          else if starts_with "true" t then Ok (Bool true, drop 4 t)
          else if starts_with "false" t then Ok (Bool false, drop 5 t)
          else if starts_with "null" t then Ok (Null, drop 4 t)
          else SyntaxError
      end
  end

with parse_elements (fuel : nat) (s : string) (acc : list value)
  : result (value * string) :=
  match fuel with
  | O => Unsupported
  | S fuel' =>
      '(v, rest) ← parse_value fuel' s;
      match next_is "," rest, next_is "]" rest with
      | Some s1, _ => parse_elements fuel' s1 (v :: acc)
      | None, Some s1 => Ok (Arr (rev (v :: acc)), s1)
      | None, None => SyntaxError
      end
  end

with parse_members (fuel : nat) (s : string) (acc : list (string * value))
  : result (value * string) :=
  match fuel with
  | O => Unsupported
  | S fuel' =>
      match next_is quote s with
      | None => SyntaxError
      | Some s1 =>
          '(k, rest) ← scan_string s1;
          match next_is ":" rest with
          | None => SyntaxError
          | Some s2 =>
              '(v, rest') ← parse_value fuel' s2;
              if index_like k then Unsupported
              else
                match next_is "," rest', next_is "}" rest' with
                | Some s3, _ => parse_members fuel' s3 (set_member k v acc)
                | None, Some s3 => Ok (Obj (set_member k v acc), s3)
                | None, None => SyntaxError
                end
          end
      end
  end.

(** [JSON.parse(text)]: one value, with nothing but white space after it.
    The fuel is enough for every text: see [parse_value_fuel]. *)
Definition parse (text : string) : result value :=
  '(v, rest) ← parse_value (S (2 * String.length text)) text;
  match skip_ws rest with
  | EmptyString => Ok v
  | _ => SyntaxError
  end.

(** *** Values that are written and read back *)

Fixpoint distinct (ks : list string) : bool :=
  match ks with
  | [] => true
  | k :: ks' => negb (existsb (String.eqb k) ks') && distinct ks'
  end.

(** A value of the model: its numbers are safe integers, and no object has
    two properties of one name or a name made of digits. *)
Fixpoint wf (v : value) : bool :=
  match v with
  | Num z => safe_integer z
  | Arr l => forallb wf l
  | Obj l =>
      forallb (fun kv => negb (index_like (fst kv)) && wf (snd kv)) l
      && distinct (map fst l)
  | _ => true
  end.

(** The calls reading a value takes; its text is at least as long. *)
Fixpoint weight (v : value) : nat :=
  match v with
  | Arr l => S (list_sum (map (fun v => S (weight v)) l))
  | Obj l => S (list_sum (map (fun kv => S (weight (snd kv))) l))
  | _ => 1
  end.

(** The calls reading the elements of an array takes, and the members of an
    object. *)
Definition total (l : list value) : nat :=
  list_sum (map (fun v => S (weight v)) l).

Definition total_members (l : list (string * value)) : nat :=
  list_sum (map (fun kv => S (weight (snd kv))) l).

Definition wf_member (kv : string * value) : bool :=
  negb (index_like (fst kv)) && wf (snd kv).

(** What follows the first element of an array in its text, and the first
    member of an object. *)
Fixpoint elements_tail (l : list value) (rest : string) : string :=
  match l with
  | [] => "]" +:+ rest
  | v :: l' => "," +:+ stringify v +:+ elements_tail l' rest
  end.

Definition member_text (kv : string * value) : string :=
  quote_string (fst kv) +:+ ":" +:+ stringify (snd kv).

Fixpoint members_tail (l : list (string * value)) (rest : string) : string :=
  match l with
  | [] => "}" +:+ rest
  | kv :: l' => "," +:+ member_text kv +:+ members_tail l' rest
  end.

(** A text that ends a number: it starts with no digit, point or
    exponent. *)
Definition ends_number (rest : string) : bool :=
  match rest with
  | String c _ => negb (is_digit c) && negb (fraction_follows rest)
  | EmptyString => true
  end.

End JSON.

(** ** Module 3: the dynamic list *)

Module DynamicList.
Import JSString.

(** An item as [addItem] builds it: [{ id, ...itemData, createdAt }], with
    the three fields the form sends, each of which may be missing.  The
    record keeps the values of the fields, not the order in which an object
    lists them. *)
Record ListItem : Type := mkItem {
  id : Z;
  title : option string;
  description : option string;
  value : option string;
  createdAt : string
}.

(** The argument of [addItem]. *)
Record ItemData : Type := mkData {
  data_title : option string;
  data_description : option string;
  data_value : option string
}.

Definition optional_member (k : string) (o : option string)
  : list (string * JSON.value) :=
  match o with
  | Some s => [(k, JSON.Str s)]
  | None => []
  end.

(** The object an item is, its properties in the order of the literal in
    [addItem]. *)
Definition item_to_json (it : ListItem) : JSON.value :=
  JSON.Obj ([("id", JSON.Num (id it))]
            ++ optional_member "title" (title it)
            ++ optional_member "description" (description it)
            ++ optional_member "value" (value it)
            ++ [("createdAt", JSON.Str (createdAt it))]).

Definition member (k : string) (l : list (string * JSON.value)) : option JSON.value :=
  snd <$> List.find (fun kv => String.eqb (fst kv) k) l.

(** A property that holds a string, or is missing. *)
Definition optional_string (k : string) (l : list (string * JSON.value))
  : option (option string) :=
  match member k l with
  | None => Some None
  | Some (JSON.Str s) => Some (Some s)
  | Some _ => None
  end.

Definition item_keys : list string :=
  ["id"; "title"; "description"; "value"; "createdAt"].

(** The item an object is, when it has the shape of one: a number [id], a
    string [createdAt], the three optional strings, and nothing else. *)
Definition item_of_json (v : JSON.value) : option ListItem :=
  match v with
  | JSON.Obj l =>
      if forallb (fun kv => existsb (String.eqb (fst kv)) item_keys) l then
        match member "id" l, member "createdAt" l with
        | Some (JSON.Num i), Some (JSON.Str c) =>
            t ← optional_string "title" l;
            d ← optional_string "description" l;
            v ← optional_string "value" l;
            Some {| id := i; title := t; description := d; value := v;
                    createdAt := c |}
        | _, _ => None
        end
      else None
  | _ => None
  end.

Definition items_of_json (v : JSON.value) : option (list ListItem) :=
  match v with
  | JSON.Arr l => mapM item_of_json l
  | _ => None
  end.

(** [JSON.stringify(this.items)] *)
Definition serialize (items : list ListItem) : string :=
  JSON.stringify (JSON.Arr (map item_to_json items)).

(** The card [createItemElement] builds: the values that fill the holes of
    its markup, and the id its delete button passes to [removeItem]. *)
Record Card : Type := mkCard {
  dataset_id : Z;
  border_color : string;
  item_title : string;
  item_date : string;
  item_content : string;
  item_value : option string;
  delete_id : Z
}.

(** An element of the page: whether its class list has [hidden], and the
    cards appended to it. *)
Record Element : Type := mkElement {
  hidden : bool;
  children : list Card
}.

(** The browser around the list.  [document] maps an id to its element;
    [random n] gives the [n]-th value of [Math.floor(Math.random() * 5)]
    (taken modulo 5, the value being one of 0 to 4) and [clock n] the [n]-th
    reading of the time in milliseconds; [drawn] and [read] count the
    values used so far. *)
Record Browser : Type := mkBrowser {
  document : gmap string Element;
  localStorage : gmap string string;
  random : nat -> nat;
  drawn : nat;
  clock : nat -> Z;
  read : nat
}.

(** The fields of the [DynamicList] object.  [container] and
    [emptyMessage] refer to elements of the document by their id. *)
Record state : Type := mkList {
  items : list ListItem;
  containerId : string;
  emptyMessageId : string;
  container : option string;
  emptyMessage : option string
}.

Definition initial : state :=
  {| items := []; containerId := "lista-dinamica";
     emptyMessageId := "lista-vacia-msg"; container := None;
     emptyMessage := None |}.

Definition storage_key : string := "dynamicListItems".

Definition COLOR_PALETTE_primary : list string :=
  ["#2D00F7"; "#6A00F4"; "#8900F2"; "#A100F2"; "#B100E8"].

Definition sin_titulo : string := "Sin t" +:+ char i_acute +:+ "tulo".
Definition sin_descripcion : string := "Sin descripci" +:+ char o_acute +:+ "n".

(** [x || placeholder] for a property that is a string or missing. *)
Definition or_default (x : option string) (placeholder : string) : string :=
  match x with
  | Some s => if String.eqb s "" then placeholder else s
  | None => placeholder
  end.

(** What a thrown error is. *)
Inductive error : Type :=
| SyntaxError.

(** How a method ends: normally, by throwing (with the state the throw
    leaves), or outside the model, when [JSON.parse] gave a value that is
    not an array of items. *)
Inductive outcome (A : Type) : Type :=
| Normal (a : A)
| Throw (e : error) (a : A)
| OutOfModel.
Arguments Normal {A} a.
Arguments Throw {A} e a.
Arguments OutOfModel {A}.

Definition set_document (doc : gmap string Element) (b : Browser) : Browser :=
  {| document := doc; localStorage := localStorage b; random := random b;
     drawn := drawn b; clock := clock b; read := read b |}.

Definition set_items (l : list ListItem) (d : state) : state :=
  {| items := l; containerId := containerId d;
     emptyMessageId := emptyMessageId d; container := container d;
     emptyMessage := emptyMessage d |}.

(** [showEmptyMessage()] and [hideEmptyMessage()] *)
Definition set_hidden (h : bool) (d : state) (b : Browser) : Browser :=
  match emptyMessage d with
  | Some e => set_document (alter (fun el => {| hidden := h; children := children el |}) e (document b)) b
  | None => b
  end.

Definition showEmptyMessage : state -> Browser -> Browser := set_hidden false.
Definition hideEmptyMessage : state -> Browser -> Browser := set_hidden true.

(** [saveToLocalStorage()] *)
Definition saveToLocalStorage (d : state) (b : Browser) : Browser :=
  {| document := document b;
     localStorage := <[storage_key := serialize (items d)]> (localStorage b);
     random := random b; drawn := drawn b; clock := clock b; read := read b |}.

Section Host.

(** [new Date(createdAt).toLocaleDateString()] and
    [new Date(ms).toISOString()], the host's formatting of dates. *)
Variable toLocaleDateString : string -> string.
Variable toISOString : Z -> string.

(** [createItemElement(item)]: the card, and the browser after the draw of
    its colour. *)
Definition createItemElement (item : ListItem) (b : Browser) : Card * Browser :=
  let colorIndex := (random b (drawn b) mod 5)%nat in
  let bgColor := nth colorIndex COLOR_PALETTE_primary "undefined"%string in
  ({| dataset_id := id item;
      border_color := bgColor;
      item_title := or_default (title item) sin_titulo;
      item_date := toLocaleDateString (createdAt item);
      item_content := or_default (description item) sin_descripcion;
      item_value :=
        match value item with
        | Some v => if String.eqb v "" then None else Some v
        | None => None
        end;
      delete_id := id item |},
   {| document := document b; localStorage := localStorage b;
      random := random b; drawn := S (drawn b); clock := clock b;
      read := read b |}).

Definition appendChild (e : string) (c : Card) (b : Browser) : Browser :=
  set_document
    (alter (fun el => {| hidden := hidden el; children := children el ++ [c] |})
       e (document b)) b.

(** [render()] *)
Definition render (d : state) (b : Browser) : Browser :=
  match container d with
  | None => b
  | Some e =>
      let b1 :=
        set_document
          (alter (fun el => {| hidden := hidden el; children := [] |}) e (document b)) b in
      match items d with
      | [] => showEmptyMessage d b1
      | _ =>
          fold_left
            (fun b item =>
               let '(itemElement, b') := createItemElement item b in
               appendChild e itemElement b')
            (items d) (hideEmptyMessage d b1)
      end
  end.

(** [init(containerId)] *)
Definition init (cid : string) (d : state) (b : Browser)
  : outcome (state * Browser) :=
  let lookup_id (i : string) : option string :=
    match document b !! i with Some _ => Some i | None => None end in
  let d1 :=
    {| items := items d; containerId := cid;
       emptyMessageId := emptyMessageId d;
       container := lookup_id cid;
       emptyMessage := lookup_id (emptyMessageId d) |} in
  match container d1 with
  | None => Normal (d1, b)
  | Some _ =>
      match localStorage b !! storage_key with
      | None => Normal (d1, b)
      | Some savedItems =>
          if String.eqb savedItems "" then Normal (d1, b)
          else
            match JSON.parse savedItems with
            | JSON.SyntaxError => Throw SyntaxError (d1, b)
            | JSON.Unsupported => OutOfModel
            | JSON.Ok v =>
                match items_of_json v with
                | Some l => let d2 := set_items l d1 in Normal (d2, render d2 b)
                | None => OutOfModel
                end
            end
      end
  end.

(** [addItem(itemData)] *)
Definition addItem (itemData : ItemData) (d : state) (b : Browser)
  : ListItem * (state * Browser) :=
  let newItem :=
    {| id := clock b (read b);
       title := data_title itemData;
       description := data_description itemData;
       value := data_value itemData;
       createdAt := toISOString (clock b (S (read b))) |} in
  let b1 :=
    {| document := document b; localStorage := localStorage b;
       random := random b; drawn := drawn b; clock := clock b;
       read := S (S (read b)) |} in
  let d1 := set_items (newItem :: items d) d in
  let b2 := saveToLocalStorage d1 b1 in
  (newItem, (d1, render d1 b2)).

(** [removeItem(itemId)] *)
Definition removeItem (itemId : Z) (d : state) (b : Browser) : state * Browser :=
  let d1 := set_items (List.filter (fun item => negb (id item =? itemId)) (items d)) d in
  let b1 := saveToLocalStorage d1 b in
  (d1, render d1 b1).

(** [clearAll()] *)
Definition clearAll (d : state) (b : Browser) : state * Browser :=
  let d1 := set_items [] d in
  let b1 := saveToLocalStorage d1 b in
  (d1, render d1 b1).

(** *** Definitions for the statements *)

(** What a card shows of its item, the colour of its border apart: title,
    date, description, value, and the id its delete button removes. *)
Definition descriptor (c : Card) : string * string * string * option string * Z :=
  (item_title c, item_date c, item_content c, item_value c, delete_id c).

(** The same, read off the item. *)
Definition item_descriptor (item : ListItem)
  : string * string * string * option string * Z :=
  (or_default (title item) sin_titulo,
   toLocaleDateString (createdAt item),
   or_default (description item) sin_descripcion,
   match value item with
   | Some v => if String.eqb v "" then None else Some v
   | None => None
   end,
   id item).

End Host.

(** The cards of the element [e]. *)
Definition rendered (e : string) (b : Browser) : list Card :=
  match document b !! e with
  | Some el => children el
  | None => []
  end.

(** An item whose [id] a number holds exactly. *)
Definition valid_item (item : ListItem) : bool := JSON.safe_integer (id item).



(** A page with the two elements of the list, both empty, and a store
    that holds [blob], if any, under the key of the list. *)
Definition page (blob : option string) (random : nat -> nat) (clock : nat -> Z)
  : Browser :=
  {| document :=
       <["lista-dinamica" := {| hidden := false; children := [] |}]>
         (<["lista-vacia-msg" := {| hidden := false; children := [] |}]> ∅);
     localStorage :=
       match blob with
       | Some text => <[storage_key := text]> ∅
       | None => ∅
       end;
     random := random; drawn := 0; clock := clock; read := 0 |}.

(** The list after [init] on that page, holding the items [l]. *)
Definition listed (l : list ListItem) : state :=
  {| items := l; containerId := "lista-dinamica";
     emptyMessageId := "lista-vacia-msg";
     container := Some "lista-dinamica"%string;
     emptyMessage := Some "lista-vacia-msg"%string |}.

Definition sample_item (i : Z) (t : string) : ListItem :=
  {| id := i; title := Some t; description := Some ""%string;
     value := Some "42"%string; createdAt := "2025-01-01T00:00:00.000Z" |}.

End DynamicList.

(** ** The calculator: operands as texts *)

Module Operand.
Import JSString.

(** The number of decimal points of a text. *)
Fixpoint points (s : string) : nat :=
  match s with
  | EmptyString => 0
  | String c s' => (if Ascii.eqb c "." then 1 else 0) + points s'
  end.

(** A key that types a digit. *)
Definition digit_key (k : string) : bool :=
  match k with
  | String c EmptyString => is_digit c
  | _ => false
  end.

(** A text without the zeros it starts with; ["0"] when nothing is left. *)
Fixpoint drop_zeros (s : string) : string :=
  match s with
  | String c s' => if Ascii.eqb c "0" then drop_zeros s' else s
  | EmptyString => EmptyString
  end.

Definition without_leading_zeros (s : string) : string :=
  match drop_zeros s with
  | EmptyString => "0"
  | t => t
  end.

End Operand.

Module OperandState.
Import JSString Calculator Operand.

(** Neither operand has two decimal points. *)
Definition one_point (c : state) : Prop :=
  (points (currentOperand c) <= 1)%nat /\ (points (previousOperand c) <= 1)%nat.

(** A key whose text is the point, or has no point. *)
Definition point_or_none (k : string) : Prop :=
  points k = 0%nat \/ k = "."%string.

End OperandState.

Module OperandParse.
Import JSString Calculator.

(** The text starts, after white space and a sign, with a decimal literal
    or [Infinity]. *)
Definition numeric (s : string) : bool :=
  let t := Number.trim_start s in
  let u :=
    match t with
    | String "+" u => u
    | String "-" u => u
    | _ => t
    end in
  match Number.scan_unsigned u with
  | Some _ => true
  | None => false
  end.

(** The operation is one [compute] knows. *)
Definition known (op : option string) : bool :=
  match op with
  | Some o =>
      existsb (String.eqb o)
        ["+"; "-"; char times_sign; "*"; char division_sign; "/"]%string
  | None => false
  end.

End OperandParse.

(** ** The dynamic list: calls in a row *)

Module DynamicListCalls.
Import JSString DynamicList.

(** A call of one of the three methods that change the list. *)
Inductive call : Type :=
| AddItem (itemData : ItemData)
| RemoveItem (itemId : Z)
| ClearAll.

Section Host.

Variable toLocaleDateString : string -> string.
Variable toISOString : Z -> string.

Definition run_call (c : call) (s : state * Browser) : state * Browser :=
  match c with
  | AddItem itemData => snd (addItem toLocaleDateString toISOString itemData (fst s) (snd s))
  | RemoveItem itemId => removeItem toLocaleDateString itemId (fst s) (snd s)
  | ClearAll => clearAll toLocaleDateString (fst s) (snd s)
  end.

Definition run (cs : list call) (s : state * Browser) : state * Browser :=
  fold_left (fun s c => run_call c s) cs s.

End Host.

(** The element of the empty-list message, when the list refers to one. *)
Definition message_hidden (d : state) (b : Browser) : option bool :=
  match emptyMessage d with
  | Some m => hidden <$> document b !! m
  | None => None
  end.

End DynamicListCalls.

(** ** Module 4: the carousel *)

Module ImageCarousel.

(** The container element as [init] finds it: its slides (for each
    [.carousel-item], whether its class list has [active]), the indicators
    of its [.carousel-indicators] element, if it has one, and whether it has
    a [.carousel-items] element. *)
Record Container : Type := mkContainer {
  slides : list bool;
  indicators : option (list bool);
  carousel_items : bool
}.

(** The browser around the carousel: the elements by id, and the timers of
    [setInterval] that run, with the handle the next one gets. *)
Record Browser : Type := mkBrowser {
  document : gmap string Container;
  timers : gset positive;
  next_timer : positive
}.

(** The fields of the [ImageCarousel] object.  [items] holds, for each
    slide, whether it is active; [container] is unset, or tells whether the
    container has a [.carousel-items] element; [indicatorsContainer] is
    unset, or holds for each indicator whether it is active. *)
Record state : Type := mkCarousel {
  currentIndex : Z;
  items : list bool;
  interval : option positive;
  isPlaying : bool;
  container : option bool;
  indicatorsContainer : option (list bool)
}.

Definition initial : state :=
  {| currentIndex := 0; items := []; interval := None; isPlaying := true;
     container := None; indicatorsContainer := None |}.

Inductive error : Type :=
| TypeError.

(** How a method ends: normally, or by throwing, with the state the throw
    leaves. *)
Inductive outcome (A : Type) : Type :=
| Normal (a : A)
| Throw (e : error) (a : A).
Arguments Normal {A} a.
Arguments Throw {A} e a.

Definition set_slide (ci : Z) (l : list bool) (s : state) : state :=
  {| currentIndex := ci; items := l; interval := interval s;
     isPlaying := isPlaying s; container := container s;
     indicatorsContainer := indicatorsContainer s |}.

Definition set_indicators (l : option (list bool)) (s : state) : state :=
  {| currentIndex := currentIndex s; items := items s; interval := interval s;
     isPlaying := isPlaying s; container := container s;
     indicatorsContainer := l |}.

Definition set_playing (i : option positive) (p : bool) (s : state) : state :=
  {| currentIndex := currentIndex s; items := items s; interval := i;
     isPlaying := p; container := container s;
     indicatorsContainer := indicatorsContainer s |}.

(** [createIndicators()]: one new indicator for each item, none active. *)
Definition createIndicators (s : state) : state :=
  match indicatorsContainer s with
  | None => s
  | Some _ => set_indicators (Some (map (fun _ => false) (items s))) s
  end.

(** [updateIndicators()] *)
Definition updateIndicators (s : state) : state :=
  match indicatorsContainer s with
  | None => s
  | Some l =>
      set_indicators (Some (imap (fun index _ => Z.of_nat index =? currentIndex s) l)) s
  end.

(** [showSlide(index)], for an integer [index].  The remainder [%] has the
    sign of the dividend; [items[i]] is undefined for a negative [i], and
    reading [classList] of it throws.  The sum and the remainder are the
    exact ones: they are those of the code, which computes with numbers, as
    long as the index and the sum are integers from [-2^53] to [2^53]
    ([exact_sum] below); beyond them the code rounds the sum. *)
Definition showSlide (index : Z) (s : state) : outcome state :=
  match items s with
  | [] => Normal s
  | _ =>
      let len := Z.of_nat (length (items s)) in
      let ci := Z.rem (index + len) len in
      let s1 := set_slide ci (map (fun _ => false) (items s)) s in
      if (0 <=? ci) && (ci <? len) then
        Normal (updateIndicators (set_slide ci (<[Z.to_nat ci := true]> (items s1)) s1))
      else Throw TypeError s1
  end.

Definition nextSlide (s : state) : outcome state := showSlide (currentIndex s + 1) s.
Definition prevSlide (s : state) : outcome state := showSlide (currentIndex s - 1) s.

Definition clearInterval (i : positive) (b : Browser) : Browser :=
  {| document := document b; timers := timers b ∖ {[i]}; next_timer := next_timer b |}.

Definition setInterval (b : Browser) : positive * Browser :=
  (next_timer b,
   {| document := document b; timers := {[next_timer b]} ∪ timers b;
      next_timer := Pos.succ (next_timer b) |}).

(** [startAutoPlay()] *)
Definition startAutoPlay (sb : state * Browser) : state * Browser :=
  let '(s, b) := sb in
  let b1 := match interval s with Some i => clearInterval i b | None => b end in
  let '(i, b2) := setInterval b1 in
  (set_playing (Some i) true s, b2).

(** [pauseAutoPlay()] *)
Definition pauseAutoPlay (sb : state * Browser) : state * Browser :=
  let '(s, b) := sb in
  match interval s with
  | Some i => (set_playing None false s, clearInterval i b)
  | None => (s, b)
  end.

(** [toggleAutoPlay()] *)
Definition toggleAutoPlay (sb : state * Browser) : state * Browser :=
  if isPlaying (fst sb) then pauseAutoPlay sb else startAutoPlay sb.

(** A method of the slides run between two of the timers. *)
Definition with_browser (f : state -> outcome state) (sb : state * Browser)
  : outcome (state * Browser) :=
  match f (fst sb) with
  | Normal s => Normal (s, snd sb)
  | Throw e s => Throw e (s, snd sb)
  end.

Definition then_ (r : outcome (state * Browser))
  (k : state * Browser -> state * Browser) : outcome (state * Browser) :=
  match r with
  | Normal sb => Normal (k sb)
  | Throw e sb => Throw e sb
  end.

(** [goToSlide(index)] *)
Definition goToSlide (index : Z) (sb : state * Browser) : outcome (state * Browser) :=
  then_ (with_browser (showSlide index) (pauseAutoPlay sb)) startAutoPlay.

(** [init(containerId)] *)
Definition init (containerId : string) (sb : state * Browser)
  : outcome (state * Browser) :=
  let '(s, b) := sb in
  match document b !! containerId with
  | None =>
      Normal ({| currentIndex := currentIndex s; items := items s;
                 interval := interval s; isPlaying := isPlaying s;
                 container := None;
                 indicatorsContainer := indicatorsContainer s |}, b)
  | Some c =>
      let s1 :=
        {| currentIndex := currentIndex s; items := slides c;
           interval := interval s; isPlaying := isPlaying s;
           container := Some (carousel_items c);
           indicatorsContainer := indicators c |} in
      let s2 := createIndicators s1 in
      then_ (with_browser (showSlide (currentIndex s2)) (s2, b))
        (fun sb => if isPlaying (fst sb) then startAutoPlay sb else sb)
  end.

(** [addImage(imageUrl, title, description)]: the new slide is not active. *)
Definition addImage (s : state) : outcome state :=
  match container s with
  | Some true =>
      Normal (createIndicators (set_slide (currentIndex s) (items s ++ [false]) s))
  | _ => Throw TypeError s
  end.

(** What the listeners of [addEventListeners] and [createIndicators], and
    the timer of [startAutoPlay], react to. *)
Inductive event : Type :=
| ClickPrev
| ClickNext
| MouseEnter
| MouseLeave
| KeyDown (key : string) (focus_inside : bool)
| ClickIndicator (index : nat)
| Tick.

(** The listener that an event runs.  An indicator that is clicked is one
    of those [createIndicators] made; the timer ticks while one runs. *)
Definition handle (ev : event) (sb : state * Browser) : outcome (state * Browser) :=
  match ev with
  | ClickPrev => then_ (with_browser prevSlide (pauseAutoPlay sb)) startAutoPlay
  | ClickNext => then_ (with_browser nextSlide (pauseAutoPlay sb)) startAutoPlay
  | MouseEnter => Normal (pauseAutoPlay sb)
  | MouseLeave => Normal (startAutoPlay sb)
  | KeyDown key focus_inside =>
      if negb focus_inside then Normal sb
      else if String.eqb key "ArrowLeft" then with_browser prevSlide sb
      else if String.eqb key "ArrowRight" then with_browser nextSlide sb
      else if String.eqb key " " then Normal (toggleAutoPlay sb)
      else Normal sb
  | ClickIndicator index =>
      match indicatorsContainer (fst sb) with
      | Some l =>
          if (index <? length l)%nat then goToSlide (Z.of_nat index) sb else Normal sb
      | None => Normal sb
      end
  | Tick =>
      if decide (timers (snd sb) = ∅) then Normal sb else with_browser nextSlide sb
  end.

(** The events of a list, one after the other; a throw ends the listener
    it happens in, and the next event finds the state it left. *)
Fixpoint run (evs : list event) (sb : state * Browser) : state * Browser :=
  match evs with
  | [] => sb
  | ev :: evs' =>
      match handle ev sb with
      | Normal sb' => run evs' sb'
      | Throw _ sb' => run evs' sb'
      end
  end.

(** *** Definitions for the statements *)

(** [n] flags, the one at [i] set. *)
Definition only (n : nat) (i : Z) : list bool :=
  <[Z.to_nat i := true]> (replicate n false).

(** The carousel shows its current slide: the index is one of a slide, that
    slide alone is active, and the indicators, if any, mark it too. *)
Definition shows_current (s : state) : Prop :=
  0 <= currentIndex s < Z.of_nat (length (items s)) /\
  items s = only (length (items s)) (currentIndex s) /\
  (forall l, indicatorsContainer s = Some l -> l = items s).

(** The state in which slide [j] is shown, with the slides and the other
    fields of [s]. *)
Definition at_index (j : Z) (s : state) : state :=
  {| currentIndex := j;
     items := only (length (items s)) j;
     interval := interval s; isPlaying := isPlaying s;
     container := container s;
     indicatorsContainer :=
       match indicatorsContainer s with
       | Some _ => Some (only (length (items s)) j)
       | None => None
       end |}.

(** The index and its sum with the number of slides are integers from
    [-2^53] to [2^53]: a number holds each of them as it is, and
    [showSlide] computes with no rounding. *)
Definition exact_sum (index : Z) (s : state) : Prop :=
  - 2 ^ 53 <= index /\ index + Z.of_nat (length (items s)) <= 2 ^ 53.

(** There is an indicator for each slide, when there are indicators. *)
Definition aligned (s : state) : Prop :=
  forall l, indicatorsContainer s = Some l -> length l = length (items s).

(** A method called [k] times, as long as it does not throw. *)
Fixpoint times (k : nat) (f : state -> outcome state) (s : state) : outcome state :=
  match k with
  | O => Normal s
  | S k' =>
      match f s with
      | Normal s' => times k' f s'
      | Throw e s' => Throw e s'
      end
  end.

(** The timers that run are the one the carousel holds, if it holds one;
    and it plays exactly when it holds one. *)
Definition one_timer (sb : state * Browser) : Prop :=
  timers (snd sb) = match interval (fst sb) with Some i => {[i]} | None => ∅ end /\
  (isPlaying (fst sb) = true <-> is_Some (interval (fst sb))).

(** No event of the list throws. *)
Fixpoint never_throws (evs : list event) (sb : state * Browser) : Prop :=
  match evs with
  | [] => True
  | ev :: evs' =>
      match handle ev sb with
      | Normal sb' => never_throws evs' sb'
      | Throw _ _ => False
      end
  end.

(** A page whose container has three slides, indicators and a
    [.carousel-items] element, and on which no timer runs. *)
Definition page : Browser :=
  {| document :=
       <["carousel-container" :=
           {| slides := [false; false; false]; indicators := Some [];
              carousel_items := true |}]> ∅;
     timers := ∅; next_timer := 1 |}.

(** The carousel of that page once started: the first slide shown, the
    timer running. *)
Definition started : state * Browser :=
  ({| currentIndex := 0; items := [true; false; false];
      interval := Some 1%positive; isPlaying := true;
      container := Some true;
      indicatorsContainer := Some [true; false; false] |},
   {| document := document page; timers := {[1%positive]}; next_timer := 2 |}).

End ImageCarousel.

(** ** Module 5: the gallery *)

Module InteractiveGallery.

(** The value of [currentIndex]: an integer, or [NaN], which a remainder
    by zero gives. *)
Inductive number : Type :=
| Int (z : Z)
| NaN.

(** [x + y] and [x % y] for the index and an integer. *)
Definition plus (x : number) (y : Z) : number :=
  match x with
  | Int z => Int (z + y)
  | NaN => NaN
  end.

Definition remainder (x : number) (y : Z) : number :=
  match x with
  | Int z => if y =? 0 then NaN else Int (Z.rem z y)
  | NaN => NaN
  end.

(** What [updateLightbox] reads of a gallery item: the [src] of the [img]
    inside it, if there is one; its own [src], [data-caption] and [alt],
    each of which may be undefined. *)
Record Image : Type := mkImage {
  img_src : option string;
  own_src : option string;
  dataset_caption : option string;
  alt : option string
}.

(** The lightbox element: whether its class list has [hidden]; the values
    last assigned to the [src] and [alt] of its image; the text of its
    caption. *)
Record Lightbox : Type := mkLightbox {
  hidden : bool;
  image_src : option string;
  image_alt : string;
  caption_text : string
}.

(** The fields of the [InteractiveGallery] object, and the items [addImage]
    has put into the container, each with a click listener of its own. *)
Record state : Type := mkGallery {
  images : list Image;
  currentIndex : number;
  lightbox : option Lightbox;
  container : option (list Image);
  added : list Image
}.

Definition initial : state :=
  {| images := []; currentIndex := Int 0; lightbox := None; container := None;
     added := [] |}.

Inductive error : Type :=
| TypeError.

Inductive outcome (A : Type) : Type :=
| Normal (a : A)
| Throw (e : error) (a : A).
Arguments Normal {A} a.
Arguments Throw {A} e a.

(** [x || y] for values that are strings or undefined. *)
Definition or_else (x y : option string) : option string :=
  match x with
  | Some s => if String.eqb s "" then y else x
  | None => y
  end.

(** [images[index]] *)
Definition image_at (l : list Image) (index : number) : option Image :=
  match index with
  | Int z => if 0 <=? z then l !! Z.to_nat z else None
  | NaN => None
  end.

Definition image_caption (i : Image) : string :=
  default ""%string (or_else (or_else (dataset_caption i) (alt i)) (Some ""%string)).

Definition set_index (n : number) (s : state) : state :=
  {| images := images s; currentIndex := n; lightbox := lightbox s;
     container := container s; added := added s |}.

Definition set_lightbox (b : Lightbox) (s : state) : state :=
  {| images := images s; currentIndex := currentIndex s; lightbox := Some b;
     container := container s; added := added s |}.

(** [updateLightbox()] *)
Definition updateLightbox (s : state) : outcome state :=
  match image_at (images s) (currentIndex s) with
  | None => Throw TypeError s
  | Some currentImage =>
      let imgSrc := or_else (img_src currentImage) (own_src currentImage) in
      let caption := image_caption currentImage in
      match lightbox s with
      | None => Throw TypeError s
      | Some b =>
          Normal (set_lightbox {| hidden := hidden b; image_src := imgSrc;
                                  image_alt := caption; caption_text := caption |} s)
      end
  end.

Definition set_hidden (h : bool) (s : state) : outcome state :=
  match lightbox s with
  | None => Throw TypeError s
  | Some b =>
      Normal (set_lightbox {| hidden := h; image_src := image_src b;
                              image_alt := image_alt b;
                              caption_text := caption_text b |} s)
  end.

Definition bind (r : outcome state) (k : state -> outcome state) : outcome state :=
  match r with
  | Normal s => k s
  | Throw e s => Throw e s
  end.

(** [openLightbox(index)] *)
Definition openLightbox (index : number) (s : state) : outcome state :=
  bind (updateLightbox (set_index index s)) (set_hidden false).

(** [closeLightbox()] *)
Definition closeLightbox (s : state) : outcome state := set_hidden true s.

(** [prevImage()] *)
Definition prevImage (s : state) : outcome state :=
  let len := Z.of_nat (length (images s)) in
  updateLightbox
    (set_index (remainder (plus (plus (currentIndex s) (-1)) len) len) s).

(** [nextImage()] *)
Definition nextImage (s : state) : outcome state :=
  let len := Z.of_nat (length (images s)) in
  updateLightbox (set_index (remainder (plus (currentIndex s) 1) len) s).

(** [createLightbox()]: the new lightbox is hidden, its image and caption
    empty. *)
Definition createLightbox (s : state) : state :=
  set_lightbox {| hidden := true; image_src := Some ""%string; image_alt := "";
                  caption_text := "" |} s.

(** [init(containerId)], on a page whose element [containerId], if there
    is one, holds the gallery items [page]. *)
Definition init (page : option (list Image)) (s : state) : state :=
  match page with
  | None =>
      {| images := images s; currentIndex := currentIndex s;
         lightbox := lightbox s; container := None; added := added s |}
  | Some l =>
      createLightbox
        {| images := l; currentIndex := currentIndex s; lightbox := lightbox s;
           container := Some l; added := added s |}
  end.

Section Host.

(** The [src] an [img] element reports for the attribute it was given: the
    address resolved against the page. *)
Variable resolved : string -> string.

(** The item [addImage(imageUrl, caption)] makes. *)
Definition new_item (imageUrl caption : string) : Image :=
  {| img_src := Some (resolved imageUrl); own_src := None;
     dataset_caption := Some caption; alt := None |}.

(** [addImage(imageUrl, caption)] *)
Definition addImage (imageUrl caption : string) (s : state) : outcome state :=
  match container s with
  | None => Throw TypeError s
  | Some l =>
      Normal {| images := images s; currentIndex := currentIndex s;
                lightbox := lightbox s;
                container := Some (l ++ [new_item imageUrl caption]);
                added := added s ++ [new_item imageUrl caption] |}
  end.

End Host.

(** The click listener of an item [addImage] made. *)
Definition click_added (galleryItem : Image) (s : state) : outcome state :=
  let index := Int (Z.of_nat (length (images s))) in
  openLightbox index
    {| images := images s ++ [galleryItem]; currentIndex := currentIndex s;
       lightbox := lightbox s; container := container s; added := added s |}.

(** What the listeners of [setupEventListeners] react to. *)
Inductive event : Type :=
| ClickImage (index : nat)
| ClickClose
| ClickPrev
| ClickNext
| KeyDown (key : string).

Definition is_hidden (s : state) : bool :=
  match lightbox s with
  | Some b => hidden b
  | None => true
  end.

Definition handle (ev : event) (s : state) : outcome state :=
  match ev with
  | ClickImage index => openLightbox (Int (Z.of_nat index)) s
  | ClickClose => closeLightbox s
  | ClickPrev => prevImage s
  | ClickNext => nextImage s
  | KeyDown key =>
      if negb (is_hidden s) then
        if String.eqb key "Escape" then closeLightbox s
        else if String.eqb key "ArrowLeft" then prevImage s
        else if String.eqb key "ArrowRight" then nextImage s
        else Normal s
      else Normal s
  end.

(** *** Definitions for the statements *)

(** A method called [k] times, as long as it does not throw. *)
Fixpoint times (k : nat) (f : state -> outcome state) (s : state) : outcome state :=
  match k with
  | O => Normal s
  | S k' => bind (f s) (times k' f)
  end.

(** The lightbox shows the image [i]. *)
Definition shows (i : Image) (s : state) : Prop :=
  exists b, lightbox s = Some b /\
    image_src b = or_else (img_src i) (own_src i) /\
    image_alt b = image_caption i /\
    caption_text b = image_caption i.

(** The lightbox is there and shows the image of the current index, which
    is the index of an image. *)
Definition in_step (s : state) : Prop :=
  exists z i, currentIndex s = Int z /\ 0 <= z /\
    images s !! Z.to_nat z = Some i /\ shows i s.

(** A gallery item that is a [div] with an [img] and a caption. *)
Definition photo (url caption_ : string) : Image :=
  {| img_src := Some url; own_src := None; dataset_caption := Some caption_;
     alt := None |}.

Definition three_photos : list Image :=
  [photo "uno.jpg" "Uno"; photo "dos.jpg" ""; photo "tres.jpg" "Tres"].

(** The gallery of the three photos with the lightbox open on the first. *)
Definition opened : state :=
  {| images := three_photos; currentIndex := Int 0;
     lightbox := Some {| hidden := false; image_src := Some "uno.jpg"%string;
                         image_alt := "Uno"; caption_text := "Uno" |};
     container := Some three_photos; added := [] |}.

End InteractiveGallery.

(** ** The page of the two theme managers *)

Module ThemePage.

(** The text of an icon: the sun, the moon, or what the markup had. *)
Inductive icon : Type :=
| Sun
| Moon
| Markup (s : string).

(** An element with [data-theme-toggle]: the text of the [.theme-icon]
    inside it, if it has one, and its [aria-label], if it has one. *)
Record Button : Type := mkButton {
  theme_icon : option icon;
  aria_label : option string
}.

(** What the theme managers read and write of the page: the class [dark]
    of the root element and of the body; the store; whether the system
    prefers the dark scheme; the toggle buttons; the text of [#switch-icon]
    and of [#theme-status], where the page has them; for each
    [.theme-option] its [data-theme] and whether it is [active]; the custom
    properties set on the root element. *)
Record Page : Type := mkPage {
  html_dark : bool;
  body_dark : bool;
  localStorage : gmap string string;
  prefers_dark : bool;
  buttons : list Button;
  switch_icon : option icon;
  theme_status : option string;
  theme_options : list (option string * bool);
  style : gmap string string
}.

(** A click: how many elements with [data-theme-toggle] the target is or
    lies in, its id, and whether it is or lies in [#theme-toggle],
    [#theme-toggle-mobile] and [#theme-switch-main]. *)
Record Target : Type := mkTarget {
  data_toggles : nat;
  target_id : string;
  in_theme_toggle : bool;
  in_theme_toggle_mobile : bool;
  in_switch_main : bool
}.

Definition set_dark (dark : bool) (p : Page) : Page :=
  {| html_dark := dark; body_dark := dark; localStorage := localStorage p;
     prefers_dark := prefers_dark p; buttons := buttons p;
     switch_icon := switch_icon p; theme_status := theme_status p;
     theme_options := theme_options p; style := style p |}.

Definition set_storage (st : gmap string string) (p : Page) : Page :=
  {| html_dark := html_dark p; body_dark := body_dark p; localStorage := st;
     prefers_dark := prefers_dark p; buttons := buttons p;
     switch_icon := switch_icon p; theme_status := theme_status p;
     theme_options := theme_options p; style := style p |}.

Definition set_prefers (m : bool) (p : Page) : Page :=
  {| html_dark := html_dark p; body_dark := body_dark p;
     localStorage := localStorage p;
     prefers_dark := m; buttons := buttons p;
     switch_icon := switch_icon p; theme_status := theme_status p;
     theme_options := theme_options p; style := style p |}.

(** [!x] for a value that is a string or null. *)
Definition falsy (x : option string) : bool :=
  match x with
  | Some s => String.eqb s ""
  | None => true
  end.

(** The buttons after the loop both managers run over them. *)
Definition update_buttons (dark : bool) (l : list Button) : list Button :=
  map (fun button =>
         {| theme_icon :=
              match theme_icon button with
              | Some _ => Some (if dark then Sun else Moon)
              | None => None
              end;
            aria_label :=
              Some (if dark then "Cambiar a modo claro"%string
                    else "Cambiar a modo oscuro"%string) |}) l.

Definition update_status (dark : bool) (x : option string) : option string :=
  match x with
  | Some _ => Some (if dark then "Oscuro"%string else "Claro"%string)
  | None => None
  end.

(** A page with a toggle button, a status text and the three theme
    options, on a system that prefers the light scheme, with nothing
    stored. *)
Definition sample_page : Page :=
  {| html_dark := false; body_dark := false; localStorage := ∅;
     prefers_dark := false;
     buttons := [{| theme_icon := Some (Markup ""); aria_label := None |}];
     switch_icon := None; theme_status := Some ""%string;
     theme_options := [(Some "light"%string, false); (Some "dark"%string, false);
                       (Some "auto"%string, true)];
     style := ∅ |}.

End ThemePage.

(** ** The theme system of the first part of the file *)

Module SistemaTema.
Import ThemePage.

(** The field of a [SistemaTema]. *)
Record state : Type := mkTema { isDarkMode : bool }.

(** [cargarPreferencia()] *)
Definition cargarPreferencia (sp : state * Page) : state * Page :=
  let p := snd sp in
  let savedTheme := localStorage p !! "theme" in
  let systemPrefersDark := prefers_dark p in
  if bool_decide (savedTheme = Some "dark"%string)
     || (falsy savedTheme && systemPrefersDark)
  then ({| isDarkMode := true |}, set_dark true p)
  else ({| isDarkMode := false |}, set_dark false p).

(** [actualizarUI()] *)
Definition actualizarUI (sp : state * Page) : state * Page :=
  let '(s, p) := sp in
  let dark := isDarkMode s in
  let savedTheme :=
    match localStorage p !! "theme" with
    | Some t => if String.eqb t "" then "auto"%string else t
    | None => "auto"%string
    end in
  (s,
   {| html_dark := html_dark p; body_dark := body_dark p;
      localStorage := localStorage p; prefers_dark := prefers_dark p;
      buttons := update_buttons dark (buttons p);
      switch_icon :=
        match switch_icon p with
        | Some _ => Some (if dark then Sun else Moon)
        | None => None
        end;
      theme_status := update_status dark (theme_status p);
      theme_options :=
        map (fun option => (fst option, bool_decide (fst option = Some savedTheme)))
          (theme_options p);
      style := style p |}).

(** The class [dark] set or removed, the theme stored, the field set. *)
Definition choose (dark : bool) (sp : state * Page) : state * Page :=
  ({| isDarkMode := dark |},
   set_storage (<["theme" := if dark then "dark" else "light"]> (localStorage (snd sp)))
     (set_dark dark (snd sp))).

(** [alternarTema()] *)
Definition alternarTema (sp : state * Page) : state * Page :=
  actualizarUI (choose (negb (isDarkMode (fst sp))) sp).

(** [cambiarAModoClaro()] and [cambiarAModoOscuro()] *)
Definition cambiarAModoClaro (sp : state * Page) : state * Page :=
  actualizarUI (choose false sp).

Definition cambiarAModoOscuro (sp : state * Page) : state * Page :=
  actualizarUI (choose true sp).

(** [usarPreferenciaSistema()] *)
Definition usarPreferenciaSistema (sp : state * Page) : state * Page :=
  let sp1 := (fst sp, set_storage (delete "theme" (localStorage (snd sp))) (snd sp)) in
  if prefers_dark (snd sp1) then cambiarAModoOscuro sp1 else cambiarAModoClaro sp1.

(** [init()], run by the constructor.  The listeners [configurarEventos]
    installs are [on_click] and [on_change] below. *)
Definition init (p : Page) : state * Page :=
  actualizarUI (cargarPreferencia ({| isDarkMode := false |}, p)).

(** The listener of clicks on [#theme-switch-main], then the listener of
    clicks on the document, with its two tests. *)
Definition on_click (t : Target) (sp : state * Page) : state * Page :=
  let sp1 := if in_switch_main t then alternarTema sp else sp in
  let sp2 := if (0 <? data_toggles t)%nat then alternarTema sp1 else sp1 in
  if String.eqb (target_id t) "theme-toggle"
     || String.eqb (target_id t) "theme-toggle-mobile"
     || in_theme_toggle t || in_theme_toggle_mobile t
  then alternarTema sp2 else sp2.

(** The listener of changes of the system's preference. *)
Definition on_change (matches : bool) (sp : state * Page) : state * Page :=
  let p := set_prefers matches (snd sp) in
  if falsy (localStorage p !! "theme") then
    actualizarUI ({| isDarkMode := matches |}, set_dark matches p)
  else (fst sp, p).

(** What happens on the page, and the calls other scripts can make. *)
Inductive event : Type :=
| Click (t : Target)
| Change (matches : bool)
| AlternarTema
| CambiarAModoClaro
| CambiarAModoOscuro
| UsarPreferenciaSistema.

Definition handle (ev : event) (sp : state * Page) : state * Page :=
  match ev with
  | Click t => on_click t sp
  | Change matches => on_change matches sp
  | AlternarTema => alternarTema sp
  | CambiarAModoClaro => cambiarAModoClaro sp
  | CambiarAModoOscuro => cambiarAModoOscuro sp
  | UsarPreferenciaSistema => usarPreferenciaSistema sp
  end.

Definition run (evs : list event) (sp : state * Page) : state * Page :=
  fold_left (fun sp ev => handle ev sp) evs sp.

(** *** Definitions for the statements *)

(** The page shows the mode the field holds: the two classes, the labels
    and icons of the buttons, the status text. *)
Definition in_mode (sp : state * Page) : Prop :=
  let dark := isDarkMode (fst sp) in
  let p := snd sp in
  html_dark p = dark /\ body_dark p = dark /\
  buttons p = update_buttons dark (buttons p) /\
  theme_status p = update_status dark (theme_status p).

(** The store holds the theme of the mode the field holds. *)
Definition stored (sp : state * Page) : Prop :=
  localStorage (snd sp) !! "theme"
  = Some (if isDarkMode (fst sp) then "dark" else "light")%string.

(** How many of the three tests of a click succeed. *)
Definition toggles (t : Target) : nat :=
  (if in_switch_main t then 1 else 0)
  + (if (0 <? data_toggles t)%nat then 1 else 0)
  + (if String.eqb (target_id t) "theme-toggle"
        || String.eqb (target_id t) "theme-toggle-mobile"
        || in_theme_toggle t || in_theme_toggle_mobile t
     then 1 else 0).

(** The theme option that stands for following the system is active. *)
Definition auto_active (p : Page) : bool :=
  existsb (fun option => bool_decide (fst option = Some "auto"%string) && snd option)
    (theme_options p).

End SistemaTema.

(** ** Module 6: the theme manager of the second part of the file *)

Module ThemeManager.
Import ThemePage.

(** The field of the [ThemeManager] object. *)
Record state : Type := mkManager { isDarkMode : bool }.

(** [enableDarkMode()] and [enableLightMode()] *)
Definition enable (dark : bool) (sp : state * Page) : state * Page :=
  ({| isDarkMode := dark |},
   set_storage (<["theme" := if dark then "dark" else "light"]> (localStorage (snd sp)))
     (set_dark dark (snd sp))).

Definition enableDarkMode : state * Page -> state * Page := enable true.
Definition enableLightMode : state * Page -> state * Page := enable false.

(** [updateDynamicColors()] *)
Definition updateDynamicColors (sp : state * Page) : state * Page :=
  let '(s, p) := sp in
  let colors : list (string * string) :=
    if isDarkMode s then
      [("--bg-primary", "#0f172a"); ("--bg-secondary", "#1e293b");
       ("--text-primary", "#f8fafc"); ("--text-secondary", "#cbd5e1")]%string
    else
      [("--bg-primary", "#ffffff"); ("--bg-secondary", "#f1f5f9");
       ("--text-primary", "#0f172a"); ("--text-secondary", "#475569")]%string in
  (s,
   {| html_dark := html_dark p; body_dark := body_dark p;
      localStorage := localStorage p; prefers_dark := prefers_dark p;
      buttons := buttons p; switch_icon := switch_icon p;
      theme_status := theme_status p; theme_options := theme_options p;
      style := fold_left (fun st kv => <[fst kv := snd kv]> st) colors (style p) |}).

(** [updateThemeUI()] *)
Definition updateThemeUI (sp : state * Page) : state * Page :=
  let '(s, p) := sp in
  updateDynamicColors
    (s,
     {| html_dark := html_dark p; body_dark := body_dark p;
        localStorage := localStorage p; prefers_dark := prefers_dark p;
        buttons := update_buttons (isDarkMode s) (buttons p);
        switch_icon := switch_icon p;
        theme_status := update_status (isDarkMode s) (theme_status p);
        theme_options := theme_options p;
        style := style p |}).

(** [toggleTheme()] *)
Definition toggleTheme (sp : state * Page) : state * Page :=
  updateThemeUI
    (if isDarkMode (fst sp) then enableLightMode sp else enableDarkMode sp).

(** [init()].  The listeners [setupEventListeners] installs are [on_click]
    and [on_change] below. *)
Definition init (sp : state * Page) : state * Page :=
  let savedTheme := localStorage (snd sp) !! "theme" in
  let systemPrefersDark := prefers_dark (snd sp) in
  updateThemeUI
    (if bool_decide (savedTheme = Some "dark"%string)
        || (falsy savedTheme && systemPrefersDark)
     then enableDarkMode sp else enableLightMode sp).

(** The object as the file declares it. *)
Definition initial : state := {| isDarkMode := false |}.

(** A click runs the listener of every element with [data-theme-toggle] it
    happens in, then those of [#theme-toggle] and [#theme-toggle-mobile];
    each calls [toggleTheme]. *)
Definition listeners (t : Target) : nat :=
  data_toggles t
  + (if in_theme_toggle t then 1 else 0)
  + (if in_theme_toggle_mobile t then 1 else 0).

Definition on_click (t : Target) (sp : state * Page) : state * Page :=
  Nat.iter (listeners t) toggleTheme sp.

(** The listener of changes of the system's preference. *)
Definition on_change (matches : bool) (sp : state * Page) : state * Page :=
  let sp1 := (fst sp, set_prefers matches (snd sp)) in
  if falsy (localStorage (snd sp1) !! "theme") then
    updateThemeUI (if matches then enableDarkMode sp1 else enableLightMode sp1)
  else sp1.

Inductive event : Type :=
| Click (t : Target)
| Change (matches : bool)
| ToggleTheme.

Definition handle (ev : event) (sp : state * Page) : state * Page :=
  match ev with
  | Click t => on_click t sp
  | Change matches => on_change matches sp
  | ToggleTheme => toggleTheme sp
  end.

Definition run (evs : list event) (sp : state * Page) : state * Page :=
  fold_left (fun sp ev => handle ev sp) evs sp.

(** *** Definitions for the statements *)

(** The page shows the mode the field holds: classes, stored theme,
    buttons, status text and the four colours. *)
Definition in_mode (sp : state * Page) : Prop :=
  let dark := isDarkMode (fst sp) in
  let p := snd sp in
  html_dark p = dark /\ body_dark p = dark /\
  localStorage p !! "theme" = Some (if dark then "dark" else "light")%string /\
  buttons p = update_buttons dark (buttons p) /\
  theme_status p = update_status dark (theme_status p) /\
  style p !! "--bg-primary" = Some (if dark then "#0f172a" else "#ffffff")%string /\
  style p !! "--bg-secondary" = Some (if dark then "#1e293b" else "#f1f5f9")%string /\
  style p !! "--text-primary" = Some (if dark then "#f8fafc" else "#0f172a")%string /\
  style p !! "--text-secondary" = Some (if dark then "#cbd5e1" else "#475569")%string.

End ThemeManager.

(** ** Regular expressions *)

Module RegExp.

(** The patterns the file uses: classes of code units, sequences and
    repetition.  [Void] and [Alt] serve the derivatives. *)
Inductive regexp : Type :=
| Void
| Eps
| Class (p : ascii -> bool)
| Seq (r1 r2 : regexp)
| Alt (r1 r2 : regexp)
| Star (r : regexp).

(** [r+] *)
Definition Plus (r : regexp) : regexp := Seq r (Star r).

(** Whether [r] matches the empty string. *)
Fixpoint nullable (r : regexp) : bool :=
  match r with
  | Void => false
  | Eps => true
  | Class _ => false
  | Seq r1 r2 => nullable r1 && nullable r2
  | Alt r1 r2 => nullable r1 || nullable r2
  | Star _ => true
  end.

(** What is left of [r] after the code unit [c]. *)
Fixpoint derive (c : ascii) (r : regexp) : regexp :=
  match r with
  | Void => Void
  | Eps => Void
  | Class p => if p c then Eps else Void
  | Seq r1 r2 =>
      if nullable r1 then Alt (Seq (derive c r1) r2) (derive c r2)
      else Seq (derive c r1) r2
  | Alt r1 r2 => Alt (derive c r1) (derive c r2)
  | Star r1 => Seq (derive c r1) (Star r1)
  end.

(** [/^r$/.test(s)]: the whole of [s] matches [r]. *)
Fixpoint test (r : regexp) (s : string) : bool :=
  match s with
  | EmptyString => nullable r
  | String c s' => test (derive c r) s'
  end.

(** The strings a pattern matches. *)
Inductive matches : regexp -> string -> Prop :=
| MEps : matches Eps ""
| MClass (p : ascii -> bool) (c : ascii) : p c = true -> matches (Class p) (String c "")
| MSeq (r1 r2 : regexp) (s1 s2 : string) :
    matches r1 s1 -> matches r2 s2 -> matches (Seq r1 r2) (s1 +:+ s2)
| MAltL (r1 r2 : regexp) (s : string) : matches r1 s -> matches (Alt r1 r2) s
| MAltR (r1 r2 : regexp) (s : string) : matches r2 s -> matches (Alt r1 r2) s
| MStarNil (r : regexp) : matches (Star r) ""
| MStarCons (r : regexp) (s1 s2 : string) :
    matches r s1 -> matches (Star r) s2 -> matches (Star r) (s1 +:+ s2).

(** Every code unit of [s] is in the class [p]. *)
Fixpoint all (p : ascii -> bool) (s : string) : bool :=
  match s with
  | EmptyString => true
  | String c s' => p c && all p s'
  end.

(** The number of code units of [s] in the class [p]. *)
Fixpoint count (p : ascii -> bool) (s : string) : nat :=
  match s with
  | EmptyString => 0
  | String c s' => (if p c then 1 else 0) + count p s'
  end.

End RegExp.

(** ** Module 1: the validation of forms *)

Module FormValidator.
Import JSString RegExp.

(** [s.trim()]: without the white space at either end. *)
Fixpoint trim_end (s : string) : string :=
  match s with
  | EmptyString => EmptyString
  | String c s' =>
      match trim_end s' with
      | EmptyString => if Number.is_white_space c then EmptyString else String c EmptyString
      | t => String c t
      end
  end.

Definition trim (s : string) : string := trim_end (Number.trim_start s).

(** The element with the class [error-message] of a form group: whether it
    has the class [show], and its text. *)
Record ErrorElement : Type := mkError {
  show : bool;
  textContent : string
}.

(** An input of the page, with what validation reads and writes: its
    value, whether it has the class [error], and the error message of its
    form group, if the group has one yet. *)
Record Input : Type := mkInput {
  value : string;
  error : bool;
  message : option ErrorElement
}.

(** [showValidation(input, isValid, errorMessage)] *)
Definition showValidation (input : Input) (isValid : bool) (errorMessage : string)
  : Input :=
  if isValid then
    {| value := value input; error := false;
       message := Some {| show := false; textContent := "" |} |}
  else
    {| value := value input; error := true;
       message := Some {| show := true; textContent := errorMessage |} |}.

(** The number nearest to an integer (ties to even): what an integer is as
    a number, be it written in the code, the length of a string, or read by
    [parseInt]. *)
Definition number (z : Z) : spec_float :=
  binary_normalize Number.prec Number.emax z 0 false.

(** [x <= y] and [x >= y] on numbers; a comparison with [NaN] is false. *)
Definition lte (x y : spec_float) : bool := SFleb x y.
Definition gte (x y : spec_float) : bool := SFleb y x.

(** [validateText(input, minLength, maxLength)], for bounds that are
    integers, as the defaults are: the code has the [number] of each.  The
    template literal writes a bound as [toString] does. *)
Definition validateText (input : Input) (minLength maxLength : Z) : bool * Input :=
  let value := trim (value input) in
  let length := number (Z.of_nat (String.length value)) in
  let isValid := gte length (number minLength) && lte length (number maxLength) in
  (isValid,
   showValidation input isValid
     ("Debe tener entre " +:+ Number.toString (number minLength) +:+ " y "
      +:+ Number.toString (number maxLength) +:+ " caracteres")).

(** [[^\s@]]: neither white space nor the at sign. *)
Definition not_space_at (c : ascii) : bool :=
  negb (Number.is_white_space c || Ascii.eqb c "@").

(** [/^[^\s@]+@[^\s@]+\.[^\s@]+$/] *)
Definition emailRegex : regexp :=
  Seq (Plus (Class not_space_at))
    (Seq (Class (Ascii.eqb "@"))
       (Seq (Plus (Class not_space_at))
          (Seq (Class (Ascii.eqb "."))
             (Plus (Class not_space_at))))).

(** [validateEmail(input)] *)
Definition validateEmail (input : Input) : bool * Input :=
  let isValid := test emailRegex (trim (value input)) in
  (isValid,
   showValidation input isValid
     ("Correo electr" +:+ char o_acute +:+ "nico inv" +:+ char (ascii_of_nat 225) +:+ "lido")).

(** The value of a digit of radix sixteen. *)
Definition digit_of (c : ascii) : option Z :=
  let n := code c in
  if (48 <=? n) && (n <=? 57) then Some (n - 48)
  else if (97 <=? n) && (n <=? 102) then Some (n - 87)
  else if (65 <=? n) && (n <=? 70) then Some (n - 55)
  else None.

(** The longest prefix of digits of the radix, read as a number; [None]
    when there is no digit. *)
Fixpoint read_digits (radix : Z) (acc : option Z) (s : string) : option Z :=
  match s with
  | EmptyString => acc
  | String c s' =>
      match digit_of c with
      | Some d =>
          if d <? radix then read_digits radix (Some (radix * default 0 acc + d)) s'
          else acc
      | None => acc
      end
  end.

(** [parseInt(s)] with no radix given: white space is skipped, a sign read,
    then the digits that follow, of radix sixteen after [0x] or [0X] and of
    radix ten otherwise.  The result is [NaN] when there is no digit, and
    else the number nearest to the integer read, with the sign; so [-0]
    for the text [-0], and an infinity for an integer beyond the numbers.
    (ECMAScript lets an implementation take the digits after the twentieth
    for zeros; the engines read them all, as here.) *)
Definition parseInt (s : string) : spec_float :=
  let t := Number.trim_start s in
  let '(neg, u) :=
    match t with
    | String "+" u => (false, u)
    | String "-" u => (true, u)
    | _ => (false, t)
    end in
  let r :=
    if starts_with "0x" u || starts_with "0X" u then read_digits 16 None (drop 2 u)
    else read_digits 10 None u in
  match r with
  | Some z => if neg then SFopp (number z) else number z
  | None => Number.NaN
  end.

(** [validateNumber(input, min, max)], for bounds that are integers, as the
    defaults are: the code has the [number] of each. *)
Definition validateNumber (input : Input) (min max : Z) : bool * Input :=
  let value := parseInt (value input) in
  let isValid :=
    negb (Number.isNaN value) && gte value (number min) && lte value (number max) in
  (isValid,
   showValidation input isValid
     ("Debe ser un n" +:+ char (ascii_of_nat 250) +:+ "mero entre "
      +:+ Number.toString (number min) +:+ " y " +:+ Number.toString (number max))).

(** *** Definitions for the statements *)

(** An input that has not been validated yet. *)
Definition fresh (v : string) : Input :=
  {| value := v; error := false; message := None |}.

(** The input with another value. *)
Definition with_value (v : string) (input : Input) : Input :=
  {| value := v; error := error input; message := message input |}.

(** What validation leaves of an input, its value apart. *)
Definition verdict (r : bool * Input) : bool * bool * option ErrorElement :=
  (fst r, error (snd r), message (snd r)).

End FormValidator.

(** ** Module 2: the helpers for the page *)

Module DOMManager.
Import JSString.

(** An element as [toggleElement] sees it: its inline
    [display], if one is set, and its classes. *)
Record Element : Type := mkElement {
  display : option string;
  classList : gset string
}.

(** What a callback passed to [setTimeout] does when it runs: the two
    callbacks of [toggleElement], on the element with the id [elementId]. *)
Inductive task : Type :=
| EndShow (elementId : string) (animation : string)
| EndHide (elementId : string) (animation : string).

(** The page, the time in milliseconds, and the callbacks that wait, each
    with the time it is due, the earliest first. *)
Record Browser : Type := mkBrowser {
  document : gmap string Element;
  now : Z;
  pending : list (Z * task)
}.








(** *** Definitions for the statements *)



(** A page with one element, displayed, on which no callback waits. *)
Definition sample_page : Browser :=
  {| document := <["panel" := {| display := None; classList := ∅ |}]> ∅;
     now := 0; pending := [] |}.

End DOMManager.

(** ** Module 8: the application *)

Module App.
Import JSString.

(** A child of a container: an item [loadMoreContent] made, with the text
    of its heading, or another element. *)
Inductive Child : Type :=
| ContentItem (heading : string)
| Other.

(** The heading of the item numbered [n]. *)
Definition heading (n : nat) : string :=
  "Elemento din" +:+ char (ascii_of_nat 225) +:+ "mico #" +:+ of_N (N.of_nat n).

(** The loop of [loadMoreContent], for [k] rounds. *)
Fixpoint add_items (k : nat) (children : list Child) : list Child :=
  match k with
  | O => children
  | S k' => add_items k' (children ++ [ContentItem (heading (length children + 1))])
  end.

(** [loadMoreContent(containerId, itemsToAdd)], for an integer
    [itemsToAdd]. *)
Definition loadMoreContent (containerId : string) (itemsToAdd : Z)
  (document : gmap string (list Child)) : gmap string (list Child) :=
  match document !! containerId with
  | None => document
  | Some children => <[containerId := add_items (Z.to_nat itemsToAdd) children]> document
  end.

End App.

(** * Properties *)

(** ** Strings *)

Module JSStringFacts.
Import JSString.

Lemma includes_point (s : string) : includes s "." = true <-> has_point s.
Proof.
  induction s as [|c s IH]; cbn [includes starts_with].
  - split; [discriminate|]. intros (a & b & H). destruct a; discriminate.
  - destruct (Ascii.eqb_spec "." c) as [<-|Hc]; cbn [andb].
    + split; [|reflexivity]. intros _. exists ""%string, s. reflexivity.
    + rewrite IH. split.
      * intros (a & b & ->). exists (String c a), b. reflexivity.
      * intros (a & b & H). destruct a as [|c' a]; simpl in H.
        -- injection H as -> _. contradiction.
        -- injection H as _ ->. exists a, b. reflexivity.
Qed.

Lemma includes_point_false (s : string) :
  includes s "." = false <-> ~ has_point s.
Proof.
  rewrite <- includes_point. destruct (includes s "."); split; congruence.
Qed.

Lemma split_cons (sep c : ascii) (s : string) :
  split sep (String c s) =
    if Ascii.eqb c sep then EmptyString :: split sep s
    else match split sep s with
         | seg :: segs => String c seg :: segs
         | [] => [char c]
         end.
Proof. reflexivity. Qed.

Lemma includes_cons (c : ascii) (s sub : string) :
  includes (String c s) sub =
    if starts_with sub (String c s) then true else includes s sub.
Proof. reflexivity. Qed.

Lemma includes_point_cons (c : ascii) (s : string) :
  includes (String c s) "." = false ->
  Ascii.eqb c "." = false /\ includes s "." = false.
Proof.
  rewrite includes_cons. cbn [starts_with].
  rewrite (Ascii.eqb_sym "." c).
  destruct (Ascii.eqb c "."); cbn [andb]; [discriminate|auto].
Qed.

Lemma split_no_point (s : string) :
  includes s "." = false -> split "." s = [s].
Proof.
  induction s as [|c s IH]; [reflexivity|].
  intros H. apply includes_point_cons in H as [Hc H].
  rewrite split_cons, Hc, (IH H). reflexivity.
Qed.

Lemma split_at_point (i f : string) :
  includes i "." = false -> split "." (i +:+ "." +:+ f) = i :: split "." f.
Proof.
  induction i as [|c i IH]; [reflexivity|].
  intros H. apply includes_point_cons in H as [Hc H].
  change (String c i +:+ "." +:+ f) with (String c (i +:+ "." +:+ f)).
  rewrite split_cons, Hc, (IH H). reflexivity.
Qed.

Lemma split_nonempty (sep : ascii) (s : string) :
  exists seg segs, split sep s = seg :: segs.
Proof.
  induction s as [|c s (seg & segs & IH)]; [eexists _, _; reflexivity|].
  rewrite split_cons, IH. destruct (Ascii.eqb c sep); eexists _, _; reflexivity.
Qed.

End JSStringFacts.

(** ** Numbers: the model at work *)

Module NumberFacts.
Import Number.

Example parseFloat_reads_prefix :
  parseFloat "12." = parseFloat "12" /\
  parseFloat "1e" = parseFloat "1" /\
  parseFloat "  -0.50x" = parseFloat "-.5" /\
  parseFloat "1.5e+21" = parseFloat "1500000000000000000000" /\
  is_zero (parseFloat "0.0000000000") = true /\
  is_zero (parseFloat "-0") = true.
Proof. vm_compute. repeat split. Qed.

Example parseFloat_not_a_number :
  isNaN (parseFloat "") = true /\ isNaN (parseFloat ".") = true /\
  isNaN (parseFloat "Error: Div/0") = true /\ isNaN (parseFloat "-") = true /\
  isNaN (parseFloat "NaN") = true /\ isNaN (parseFloat "Infinity") = false.
Proof. vm_compute. repeat split. Qed.

Example toString_shortest_digits :
  toString (add (parseFloat "0.1") (parseFloat "0.2")) = "0.30000000000000004"%string /\
  toString (div (parseFloat "1") (parseFloat "3")) = "0.3333333333333333"%string /\
  toString (parseFloat "123456789012345678901234") = "1.2345678901234569e+23"%string.
Proof. vm_compute. repeat split. Qed.

Example toString_formats :
  toString (parseFloat "100000000000000000000") = "100000000000000000000"%string /\
  toString (parseFloat "1000000000000000000000") = "1e+21"%string /\
  toString (parseFloat "0.000001") = "0.000001"%string /\
  toString (parseFloat "0.0000001") = "1e-7"%string /\
  toString (parseFloat "-12.50") = "-12.5"%string /\
  toString (parseFloat "9007199254740993") = "9007199254740992"%string /\
  toString (mul (parseFloat "1e200") (parseFloat "1e200")) = "Infinity"%string.
Proof. vm_compute. repeat split. Qed.

Example toFixed10_rounds :
  toFixed10 (add (parseFloat "0.1") (parseFloat "0.2")) = "0.3000000000"%string /\
  toFixed10 (div (parseFloat "1") (parseFloat "3")) = "0.3333333333"%string /\
  toFixed10 (div (parseFloat "2") (parseFloat "3")) = "0.6666666667"%string /\
  toFixed10 (parseFloat "-0.00000000001") = "-0.0000000000"%string /\
  toFixed10 (parseFloat "1e21") = "1e+21"%string.
Proof. vm_compute. repeat split. Qed.

End NumberFacts.

(** ** The calculator *)

Module CalculatorFacts.
Import JSString JSStringFacts Calculator.

Lemma is_zero_not_NaN (x : spec_float) :
  Number.is_zero x = true -> Number.isNaN x = false.
Proof. destruct x; simpl; congruence. Qed.

(** C6.  [appendNumber] follows the four rules: a set [shouldResetScreen]
    empties the operand and is cleared first; a point after a point changes
    nothing; any other token replaces an operand that is ["0"]; otherwise
    the token is appended.  The other two fields are never touched. *)
Theorem appendNumber_rules (number : string) (c : state) :
  let cur := if shouldResetScreen c then ""%string else currentOperand c in
  let c' := appendNumber number c in
  previousOperand c' = previousOperand c /\
  operation c' = operation c /\
  shouldResetScreen c' = false /\
  (number = "."%string -> has_point cur -> c' = c) /\
  (number <> "."%string -> cur = "0"%string -> currentOperand c' = number) /\
  ((number = "."%string -> ~ has_point cur) ->
   (cur = "0"%string -> number = "."%string) ->
   currentOperand c' = cur +:+ number).
Proof.
  destruct c as [cur0 prev op flag]. unfold appendNumber.
  destruct flag; cbn -[includes String.eqb].
  - (* the screen is reset: the operand is empty *)
    change (includes "" ".") with false. rewrite andb_false_r.
    cbn -[includes String.eqb].
    repeat split; auto; try discriminate.
    intros _ (a & b & H). destruct a; discriminate.
  - destruct (String.eqb_spec number ".") as [->|Hn]; cbn -[includes String.eqb].
    + destruct (includes cur0 ".") eqn:Hinc.
      * apply includes_point in Hinc.
        repeat split; auto; try congruence.
        intros Hno _. exfalso. apply Hno; auto.
      * rewrite andb_false_r.
        apply includes_point_false in Hinc.
        repeat split; cbn [currentOperand]; auto; try congruence; tauto.
    + rewrite andb_true_r.
      destruct (String.eqb_spec cur0 "0") as [->|Hc];
        repeat split; cbn [currentOperand]; auto; try congruence.
      intros _ H. exfalso. apply Hn. auto.
Qed.

(** C9.  [clear] sets the operand to ["0"], empties the previous operand
    and the operation, and leaves [shouldResetScreen] as it was. *)
Theorem clear_keeps_reset_flag (c : state) :
  currentOperand (clear c) = "0"%string /\
  previousOperand (clear c) = ""%string /\
  operation (clear c) = None /\
  shouldResetScreen (clear c) = shouldResetScreen c.
Proof. repeat split. Qed.

Lemma compute_completes (c : state) :
  completes c = true ->
  previousOperand (compute c) = ""%string /\
  operation (compute c) = None /\
  shouldResetScreen (compute c) = true.
Proof.
  unfold completes, compute.
  destruct (Number.isNaN _ || Number.isNaN _); simpl; [discriminate|].
  destruct (apply_operation _ _ _); [|discriminate].
  intros _. repeat split.
Qed.

Lemma compute_not_completes (c : state) :
  completes c = false -> compute c = c.
Proof.
  unfold completes, compute.
  destruct (Number.isNaN _ || Number.isNaN _); simpl; [reflexivity|].
  destruct (apply_operation _ _ _); [discriminate|reflexivity].
Qed.

Lemma appendNumber_after_reset (number : string) (c : state) :
  shouldResetScreen c = true ->
  appendNumber number c =
    {| currentOperand := number; previousOperand := previousOperand c;
       operation := operation c; shouldResetScreen := false |}.
Proof.
  intros H. unfold appendNumber. rewrite H.
  cbn [shouldResetScreen currentOperand previousOperand operation].
  change (includes "" ".") with false. rewrite andb_false_r.
  reflexivity.
Qed.

(** C10.  [delete] changes the current operand only; so when the screen is
    to be reset, as it is after every computation that completes, a digit
    typed after [delete] still starts a fresh operand. *)
Theorem delete_only_current_operand (c : state) :
  previousOperand (delete c) = previousOperand c /\
  operation (delete c) = operation c /\
  shouldResetScreen (delete c) = shouldResetScreen c /\
  (forall number : string,
     shouldResetScreen c = true ->
     currentOperand (appendNumber number (delete c)) = number /\
     shouldResetScreen (appendNumber number (delete c)) = false) /\
  (forall number : string,
     completes c = true ->
     currentOperand (appendNumber number (delete (compute c))) = number).
Proof.
  split; [reflexivity|]. split; [reflexivity|]. split; [reflexivity|].
  split.
  - intros number H. rewrite appendNumber_after_reset by exact H. auto.
  - intros number H. apply compute_completes in H as (_ & _ & H).
    rewrite appendNumber_after_reset by exact H. reflexivity.
Qed.

(** The keys [5 + . / 0] lead to [lone_point_state]. *)
Lemma lone_point_state_reached :
  keys ["5"; "+"; "."; "/"; "0"]%string initial = lone_point_state.
Proof. vm_compute. reflexivity. Qed.

(** C4, as stated, fails: with a division staged and a current operand that
    parses to zero, [compute] changes nothing when the previous operand does
    not parse, and the current operand stays ["0"]. *)
Lemma compute_div0_needs_previous :
  operation lone_point_state = Some "/"%string /\
  Number.is_zero (Number.parseFloat (currentOperand lone_point_state)) = true /\
  compute lone_point_state = lone_point_state /\
  currentOperand (compute lone_point_state) <> div0_message.
Proof. vm_compute. repeat split; discriminate. Qed.

(** C4, amended.  With a division staged, a previous operand that parses to
    a number and a current operand that parses to zero, [compute] stores the
    message ["Error: Div/0"], empties the previous operand and the
    operation and sets [shouldResetScreen]; [appendNumber "7"] then starts
    the operand ["7"]. *)
Theorem compute_div_by_zero (c : state) :
  is_division (operation c) ->
  Number.isNaN (Number.parseFloat (previousOperand c)) = false ->
  Number.is_zero (Number.parseFloat (currentOperand c)) = true ->
  compute c =
    {| currentOperand := "Error: Div/0"; previousOperand := "";
       operation := None; shouldResetScreen := true |} /\
  appendNumber "7" (compute c) =
    {| currentOperand := "7"; previousOperand := "";
       operation := None; shouldResetScreen := false |}.
Proof.
  intros Hop Hprev Hcur.
  assert (Hc : compute c =
    {| currentOperand := "Error: Div/0"; previousOperand := "";
       operation := None; shouldResetScreen := true |}).
  { unfold compute. rewrite Hprev, (is_zero_not_NaN _ Hcur).
    cbn [orb]. unfold apply_operation.
    destruct Hop as [-> | ->]; rewrite Hcur; reflexivity. }
  split; [exact Hc|]. rewrite Hc. reflexivity.
Qed.

(** The theorem at the state of the example: [6], division, [0]. *)
Lemma compute_div_by_zero_witness :
  let c := {| currentOperand := "0"; previousOperand := "6";
              operation := Some "/"%string; shouldResetScreen := false |} in
  compute c =
    {| currentOperand := "Error: Div/0"; previousOperand := "";
       operation := None; shouldResetScreen := true |} /\
  appendNumber "7" (compute c) =
    {| currentOperand := "7"; previousOperand := "";
       operation := None; shouldResetScreen := false |}.
Proof.
  apply compute_div_by_zero.
  - right. reflexivity.
  - vm_compute. reflexivity.
  - vm_compute. reflexivity.
Defined.

(** The keys [1 +] lead to [operator_typed_state]. *)
Lemma operator_typed_state_reached :
  keys ["1"; "+"]%string initial = operator_typed_state.
Proof. vm_compute. reflexivity. Qed.

(** With a previous operand and an empty current operand, as after the
    keys [1 +], [chooseOperation] returns at once and the new operation is
    not staged; [compute] changes nothing there either. *)
Lemma chooseOperation_returns_on_empty_operand :
  previousOperand operator_typed_state <> ""%string /\
  chooseOperation "*" operator_typed_state = operator_typed_state /\
  compute operator_typed_state = operator_typed_state /\
  chooseOperation "*" operator_typed_state
    <> stage "*" (compute operator_typed_state).
Proof. vm_compute. repeat split; discriminate. Qed.

(** With no current operand [compute] returns at once: the empty text is
    no number. *)
Lemma compute_empty_operand (c : state) :
  currentOperand c = ""%string -> compute c = c.
Proof.
  intros H. unfold compute. rewrite H.
  change (Number.isNaN (Number.parseFloat "")) with true.
  now rewrite orb_true_r.
Qed.

(** C5.  A chain of operations folds from the left, with no precedence:
    when there is a previous operand, [chooseOperation] first runs
    [compute] on the pair, and stages the new operation on the result.
    With an empty current operand it returns at once, as [compute] does
    there, so nothing is staged.  The keys [1 + 2 + 3 =] leave the operand
    ["6"]. *)
Theorem chooseOperation_folds_left (op : string) (c : state) :
  (currentOperand c = ""%string -> chooseOperation op c = c) /\
  (currentOperand c <> ""%string -> previousOperand c <> ""%string ->
   chooseOperation op c = stage op (compute c)) /\
  (currentOperand c <> ""%string -> previousOperand c = ""%string ->
   chooseOperation op c = stage op c) /\
  currentOperand
    (compute (appendNumber "3" (chooseOperation "+" (appendNumber "2"
       (chooseOperation "+" (appendNumber "1" initial)))))) = "6"%string /\
  (currentOperand c = ""%string -> chooseOperation op c = compute c).
Proof.
  split; [|split; [|split; [|split]]].
  - unfold chooseOperation. intros ->. reflexivity.
  - unfold chooseOperation. intros Hc Hp.
    destruct (String.eqb_spec (currentOperand c) ""); [contradiction|].
    destruct (String.eqb_spec (previousOperand c) ""); [contradiction|].
    reflexivity.
  - unfold chooseOperation. intros Hc ->.
    destruct (String.eqb_spec (currentOperand c) ""); [contradiction|].
    reflexivity.
  - reflexivity.
  - intros H. rewrite (compute_empty_operand c H).
    unfold chooseOperation. now rewrite H.
Qed.

(** The theorem at the state after the keys [1 + 2]. *)
Lemma chooseOperation_folds_left_witness :
  let c := {| currentOperand := "2"; previousOperand := "1";
              operation := Some "+"%string; shouldResetScreen := false |} in
  chooseOperation "+" c = stage "+" (compute c) /\
  stage "+" (compute c) =
    {| currentOperand := ""; previousOperand := "3";
       operation := Some "+"%string; shouldResetScreen := true |}.
Proof.
  split; [|vm_compute; reflexivity].
  apply (chooseOperation_folds_left "+"); discriminate.
Defined.

Example keys_1_plus_2_plus_3 :
  keys ["1"; "+"; "2"; "+"; "3"; "Enter"]%string initial =
    {| currentOperand := "6"; previousOperand := ""; operation := None;
       shouldResetScreen := true |}.
Proof. vm_compute. reflexivity. Qed.

Example keys_no_precedence :
  currentOperand (keys ["2"; "+"; "3"; "*"; "4"; "="]%string initial) = "20"%string.
Proof. vm_compute. reflexivity. Qed.

Example keys_2_plus_3 :
  keys ["2"; "+"; "3"; "="]%string initial =
    {| currentOperand := "5"; previousOperand := ""; operation := None;
       shouldResetScreen := true |}.
Proof. vm_compute. reflexivity. Qed.

Example keys_tenths :
  currentOperand (keys ["0"; "."; "1"; "+"; "0"; "."; "2"; "="]%string initial) = "0.3"%string.
Proof. vm_compute. reflexivity. Qed.

Example keys_third :
  currentOperand (keys ["1"; "/"; "3"; "="]%string initial) = "0.3333333333"%string.
Proof. vm_compute. reflexivity. Qed.

Example delete_examples :
  currentOperand (delete (keys ["7"]%string initial)) = "0"%string /\
  currentOperand (delete (keys ["1"; "2"]%string initial)) = "1"%string.
Proof. vm_compute. auto. Qed.

Section DisplayFacts.

Variable toLocaleString_es : spec_float -> string.

Lemma not_div0_message (i fr : string) :
  String.eqb (i +:+ "." +:+ fr) div0_message = false.
Proof.
  destruct (String.eqb_spec (i +:+ "." +:+ fr) div0_message) as [H|]; [|reflexivity].
  assert (Hp : has_point div0_message) by (exists i, fr; auto).
  apply includes_point in Hp. vm_compute in Hp. discriminate.
Qed.

(** C8, amended.  [getDisplayNumber] returns the message ["Error: Div/0"]
    as it is.  Of any other text it takes the part before the first point,
    parses it with [parseFloat] and shows the number parsed in the format of
    the locale, or nothing when that part is no number; when the text has a
    point, a point follows and then the part between the first point and
    the second, which is the whole fraction, unchanged and possibly empty,
    when there is one point only.  So the part before the point is shown as
    the number it parses to: two such parts that parse to the same number
    are shown alike. *)
Theorem getDisplayNumber_format :
  getDisplayNumber toLocaleString_es div0_message = div0_message /\
  (forall i fr : string,
     ~ has_point i ->
     getDisplayNumber toLocaleString_es (i +:+ "." +:+ fr) =
       (if Number.isNaN (Number.parseFloat i) then ""%string
        else toLocaleString_es (Number.parseFloat i))
       +:+ "." +:+ hd ""%string (split "." fr)) /\
  (forall i fr : string,
     ~ has_point i -> ~ has_point fr ->
     getDisplayNumber toLocaleString_es (i +:+ "." +:+ fr) =
       (if Number.isNaN (Number.parseFloat i) then ""%string
        else toLocaleString_es (Number.parseFloat i))
       +:+ "." +:+ fr) /\
  (forall s : string,
     ~ has_point s -> s <> div0_message ->
     getDisplayNumber toLocaleString_es s =
       if Number.isNaN (Number.parseFloat s) then ""%string
       else toLocaleString_es (Number.parseFloat s)) /\
  getDisplayNumber toLocaleString_es "12." =
    toLocaleString_es (Number.parseFloat "12") +:+ "." /\
  (forall i j fr : string,
     ~ has_point i -> ~ has_point j ->
     Number.parseFloat i = Number.parseFloat j ->
     getDisplayNumber toLocaleString_es (i +:+ "." +:+ fr) =
       getDisplayNumber toLocaleString_es (j +:+ "." +:+ fr)).
Proof.
  assert (Hgen : forall i fr : string,
     ~ has_point i ->
     getDisplayNumber toLocaleString_es (i +:+ "." +:+ fr) =
       (if Number.isNaN (Number.parseFloat i) then ""%string
        else toLocaleString_es (Number.parseFloat i))
       +:+ "." +:+ hd ""%string (split "." fr)).
  { intros i fr Hi. apply includes_point_false in Hi.
    unfold getDisplayNumber. rewrite not_div0_message, (split_at_point _ _ Hi).
    destruct (split_nonempty "." fr) as (seg & segs & ->). reflexivity. }
  split; [reflexivity|]. split; [exact Hgen|]. split; [|split; [|split]].
  - intros i fr Hi Hfr. rewrite (Hgen _ _ Hi).
    apply includes_point_false in Hfr. rewrite (split_no_point _ Hfr). reflexivity.
  - intros s Hs Hne. apply includes_point_false in Hs.
    unfold getDisplayNumber.
    destruct (String.eqb_spec s div0_message); [contradiction|].
    rewrite (split_no_point _ Hs). reflexivity.
  - change "12."%string with ("12" +:+ "." +:+ "").
    rewrite (Hgen "12" "")%string.
    + replace (Number.isNaN (Number.parseFloat "12")) with false
        by (vm_compute; reflexivity).
      reflexivity.
    + intros H. apply includes_point in H. vm_compute in H. discriminate.
  - intros i j fr Hi Hj E. now rewrite (Hgen _ _ Hi), (Hgen _ _ Hj), E.
Qed.

End DisplayFacts.

(** C8, as stated, fails: the part before the point is not kept with
    separators put in, it is replaced by the number it parses to, and the
    part after a second point is dropped.  With a host that writes a number
    by its digits: the operand [9007199254740993], which sixteen keys type,
    is shown as [9007199254740992]; the operand [-], left by the keys
    [2 - 7 = Backspace], is shown as nothing; and [1.2.3] is shown as
    [1.2]. *)
Lemma getDisplayNumber_shows_parsed_number :
  let host := Number.toString in
  currentOperand
    (keys ["9"; "0"; "0"; "7"; "1"; "9"; "9"; "2"; "5"; "4"; "7"; "4"; "0"; "9";
           "9"; "3"]%string initial) = "9007199254740993"%string /\
  Number.parseFloat "9007199254740993" = Number.parseFloat "9007199254740992" /\
  getDisplayNumber host "9007199254740993" = "9007199254740992"%string /\
  currentOperand (keys ["2"; "-"; "7"; "="; "Backspace"]%string initial)
    = "-"%string /\
  getDisplayNumber host "-" = ""%string /\
  getDisplayNumber host "1.2.3" = "1.2"%string.
Proof. vm_compute. repeat split. Qed.

End CalculatorFacts.

(** ** JSON: reading back what was written *)

Module JSONFacts.
Import JSString JSStringFacts JSON.

Lemma append_nil (b : string) : "" +:+ b = b.
Proof. reflexivity. Qed.

Lemma append_cons (x : ascii) (a b : string) :
  String x a +:+ b = String x (a +:+ b).
Proof. reflexivity. Qed.

Lemma append_assoc (a b c : string) : (a +:+ b) +:+ c = a +:+ b +:+ c.
Proof.
  induction a as [|x a IH]; [reflexivity|].
  rewrite !append_cons. f_equal. exact IH.
Qed.

Lemma length_append (a b : string) :
  String.length (a +:+ b) = (String.length a + String.length b)%nat.
Proof.
  induction a as [|x a IH]; [reflexivity|].
  rewrite append_cons. cbn [String.length]. now rewrite IH.
Qed.

(** *** Characters *)

Lemma digit_not_structural (c : ascii) :
  Ascii.eqb c "-" || is_digit c = true ->
  is_ws c = false /\ Ascii.eqb c "[" = false /\ Ascii.eqb c "{" = false /\
  Ascii.eqb c quote = false /\ Ascii.eqb c "]" = false /\ Ascii.eqb c "}" = false.
Proof. each_ascii c; vm_compute; intros H; try discriminate H; repeat split. Qed.

Lemma scan_escape_char (c : ascii) (r : string) :
  scan_string (escape_char c +:+ r) = cons_char c (scan_string r).
Proof. each_ascii c; reflexivity. Qed.

Lemma scan_escape (s rest : string) :
  scan_string (escape s +:+ String quote rest) = Ok (s, rest).
Proof.
  induction s as [|c s IH].
  - reflexivity.
  - cbn [escape]. rewrite append_assoc, scan_escape_char, IH. reflexivity.
Qed.

Lemma scan_quote_string (s rest : string) :
  quote_string s +:+ rest = String quote (escape s +:+ String quote rest).
Proof. unfold quote_string. rewrite append_cons, append_assoc. reflexivity. Qed.

(** *** Numbers *)

Lemma take_digits_uint (d : Decimal.uint) (rest : string) :
  ends_number rest = true ->
  take_digits (NilEmpty.string_of_uint d +:+ rest)
    = (NilEmpty.string_of_uint d, rest).
Proof.
  intros Hrest.
  induction d as [|d IH|d IH|d IH|d IH|d IH|d IH|d IH|d IH|d IH|d IH];
    cbn [NilEmpty.string_of_uint]; rewrite ?append_cons; cbn [take_digits];
    try (change (is_digit _) with true; cbv iota; rewrite IH; reflexivity).
  rewrite append_nil. destruct rest as [|c rest]; [reflexivity|].
  cbn [take_digits]. cbn [ends_number] in Hrest.
  destruct (is_digit c); [discriminate|reflexivity].
Qed.

Lemma digits_value_acc (d : Decimal.uint) (p : positive) :
  digits_value (Zpos p) (NilEmpty.string_of_uint d) = Zpos (Pos.of_uint_acc d p).
Proof.
  revert p.
  induction d as [|d IH|d IH|d IH|d IH|d IH|d IH|d IH|d IH|d IH|d IH];
    intros p; cbn [NilEmpty.string_of_uint digits_value Pos.of_uint_acc];
    [reflexivity|..];
    rewrite <- IH; f_equal;
    match goal with
    | |- context [digit_value ?c] =>
        let k := eval vm_compute in (digit_value c) in
        change (digit_value c) with k
    end; lia.
Qed.

Lemma digits_value_uint (d : Decimal.uint) :
  digits_value 0 (NilEmpty.string_of_uint d) = Z.of_N (N.of_uint d).
Proof.
  induction d as [|d IH|d IH|d IH|d IH|d IH|d IH|d IH|d IH|d IH|d IH];
    cbn [NilEmpty.string_of_uint digits_value]; [reflexivity|exact IH|..];
    match goal with
    | |- context [digit_value ?c] =>
        let k := eval vm_compute in (10 * 0 + digit_value c) in
        change (10 * 0 + digit_value c) with k
    end; apply digits_value_acc.
Qed.

Lemma digits_value_of_N (n : N) : digits_value 0 (of_N n) = Z.of_N n.
Proof. unfold of_N. rewrite digits_value_uint, DecimalN.Unsigned.of_to. reflexivity. Qed.

(** The digits of a number start with a digit, and with [0] only for the
    number zero. *)
Lemma of_N_head (n : N) :
  exists c s, of_N n = String c s /\ is_digit c = true /\
              leading_zero (of_N n) = false.
Proof.
  unfold of_N.
  assert (Hn : N.to_uint n = Decimal.unorm (N.to_uint n)).
  { rewrite <- (DecimalN.Unsigned.to_of (N.to_uint n)).
    now rewrite DecimalN.Unsigned.of_to. }
  destruct (N.to_uint n) as [|d|d|d|d|d|d|d|d|d|d] eqn:E;
    try (eexists _, _; split; [reflexivity|split; [reflexivity|]];
         cbn [NilEmpty.string_of_uint leading_zero];
         destruct (NilEmpty.string_of_uint d); reflexivity).
  - exfalso. revert Hn. unfold Decimal.unorm. cbn. discriminate.
  - eexists _, _. split; [reflexivity|split; [reflexivity|]].
    destruct d as [|d|d|d|d|d|d|d|d|d|d]; [reflexivity|..];
      exfalso; rewrite unorm_D0 in Hn;
      match type of Hn with
      | _ = Decimal.unorm ?u =>
          pose proof (nb_digits_unorm u ltac:(discriminate)) as Hlen;
          rewrite <- Hn in Hlen; cbn in Hlen; lia
      end.
Qed.

Lemma digit_not_minus (c : ascii) : is_digit c = true -> Ascii.eqb c "-" = false.
Proof. each_ascii c; vm_compute; congruence. Qed.

Lemma ends_number_no_fraction (rest : string) :
  ends_number rest = true -> fraction_follows rest = false.
Proof.
  destruct rest as [|c rest]; [reflexivity|]. cbn [ends_number].
  destruct (fraction_follows _); [|reflexivity].
  rewrite andb_false_r. discriminate.
Qed.

Lemma parse_digits_of_N (neg : bool) (n : N) (rest : string) :
  safe_integer (Z.of_N n) = true -> ends_number rest = true ->
  parse_digits neg (of_N n +:+ rest)
  = Ok (if neg then - Z.of_N n else Z.of_N n, rest).
Proof.
  intros Hsafe Hrest.
  destruct (of_N_head n) as (c & s & Hc & _ & Hlz).
  unfold parse_digits, of_N at 1.
  rewrite (take_digits_uint _ _ Hrest). fold (of_N n).
  rewrite Hlz, digits_value_of_N, Hsafe, (ends_number_no_fraction _ Hrest), Hc.
  reflexivity.
Qed.

Lemma parse_number_text (z : Z) (rest : string) :
  safe_integer z = true -> ends_number rest = true ->
  parse_number (number_text z +:+ rest) = Ok (z, rest).
Proof.
  intros Hsafe Hrest.
  assert (Habs : safe_integer (Z.of_N (Z.abs_N z)) = true).
  { unfold safe_integer in *. rewrite N2Z.inj_abs_N, Z.abs_idemp. exact Hsafe. }
  unfold number_text, parse_number.
  destruct (Z.ltb_spec z 0) as [Hneg|Hpos].
  - rewrite append_assoc, append_cons, append_nil.
    change (Ascii.eqb "-" "-") with true. cbv iota.
    rewrite (parse_digits_of_N true _ _ Habs Hrest).
    rewrite N2Z.inj_abs_N. f_equal. f_equal. lia.
  - destruct (of_N_head (Z.abs_N z)) as (c & s & Hc & Hd & _).
    rewrite Hc, append_cons, (digit_not_minus _ Hd), <- append_cons, <- Hc.
    rewrite (parse_digits_of_N false _ _ Habs Hrest).
    rewrite N2Z.inj_abs_N. f_equal. f_equal. lia.
Qed.

(** *** Values *)

Lemma number_text_head (z : Z) :
  exists c s, number_text z = String c s /\ Ascii.eqb c "-" || is_digit c = true.
Proof.
  unfold number_text. destruct (z <? 0).
  - eexists _, _. rewrite append_cons. split; reflexivity.
  - destruct (of_N_head (Z.abs_N z)) as (c & s & -> & Hd & _).
    exists c, s. rewrite Hd, orb_true_r. auto.
Qed.

(** The text of a value starts with a character of its own: no white
    space, no closing bracket. *)
Lemma stringify_head (v : value) :
  exists c s, stringify v = String c s /\ is_ws c = false /\
              Ascii.eqb c "]" = false /\ Ascii.eqb c "}" = false.
Proof.
  destruct v as [|[]|z|s|l|l]; cbn [stringify];
    try (eexists _, _; repeat split; reflexivity).
  destruct (number_text_head z) as (c & s & -> & H).
  apply digit_not_structural in H. exists c, s. tauto.
Qed.

Lemma next_is_head (c c' : ascii) (s : string) :
  is_ws c' = false ->
  next_is c (String c' s) = if Ascii.eqb c' c then Some s else None.
Proof. intros H. unfold next_is. cbn [skip_ws]. rewrite H. reflexivity. Qed.

Lemma next_is_value (c : ascii) (v : value) (rest : string) :
  (c = "]"%char \/ c = "}"%char) -> next_is c (stringify v +:+ rest) = None.
Proof.
  intros Hc. destruct (stringify_head v) as (c' & s & -> & Hws & H1 & H2).
  rewrite append_cons, (next_is_head _ _ _ Hws).
  destruct Hc as [-> | ->]; [rewrite H1|rewrite H2]; reflexivity.
Qed.

Lemma parse_value_number (n : nat) (c : ascii) (s : string) :
  Ascii.eqb c "-" || is_digit c = true ->
  parse_value (S n) (String c s)
  = '(z, rest) ← parse_number (String c s); Ok (Num z, rest).
Proof.
  intros H. destruct (digit_not_structural c H) as (Hws & H1 & H2 & H3 & _).
  cbn [parse_value skip_ws]. rewrite Hws, H1, H2, H3, H. reflexivity.
Qed.

Lemma parse_value_string (n : nat) (s : string) :
  parse_value (S n) (String quote s)
  = '(str, rest) ← scan_string s; Ok (Str str, rest).
Proof. reflexivity. Qed.

Lemma parse_value_array (n : nat) (s : string) :
  parse_value (S n) (String "[" s)
  = match next_is "]" s with
    | Some s2 => Ok (Arr [], s2)
    | None => parse_elements n s []
    end.
Proof. reflexivity. Qed.

Lemma parse_value_object (n : nat) (s : string) :
  parse_value (S n) (String "{" s)
  = match next_is "}" s with
    | Some s2 => Ok (Obj [], s2)
    | None => parse_members n s []
    end.
Proof. reflexivity. Qed.

Lemma concat_elements (v : value) (l : list value) (rest : string) :
  (String.concat "," (map stringify (v :: l)) +:+ "]") +:+ rest
  = stringify v +:+ elements_tail l rest.
Proof.
  revert v. induction l as [|v' l IH]; intros v.
  - cbn [map String.concat elements_tail]. now rewrite append_assoc.
  - change (String.concat "," (map stringify (v :: v' :: l)))
      with (stringify v +:+ "," +:+ String.concat "," (map stringify (v' :: l))).
    rewrite !append_assoc. cbn [elements_tail].
    rewrite <- (IH v'), !append_assoc. reflexivity.
Qed.

Lemma concat_members (kv : string * value) (l : list (string * value)) (rest : string) :
  (String.concat "," (map member_text (kv :: l)) +:+ "}") +:+ rest
  = member_text kv +:+ members_tail l rest.
Proof.
  revert kv. induction l as [|kv' l IH]; intros kv.
  - cbn [map String.concat members_tail]. now rewrite append_assoc.
  - change (String.concat "," (map member_text (kv :: kv' :: l)))
      with (member_text kv +:+ "," +:+ String.concat "," (map member_text (kv' :: l))).
    rewrite !append_assoc. cbn [members_tail].
    rewrite <- (IH kv'), !append_assoc. reflexivity.
Qed.

Lemma ends_number_elements (l : list value) (rest : string) :
  ends_number (elements_tail l rest) = true.
Proof. destruct l; cbn [elements_tail]; rewrite append_cons; reflexivity. Qed.

Lemma ends_number_members (l : list (string * value)) (rest : string) :
  ends_number (members_tail l rest) = true.
Proof. destruct l; cbn [members_tail]; rewrite append_cons; reflexivity. Qed.

Lemma weight_pos (v : value) : (1 <= weight v)%nat.
Proof. destruct v; cbn [weight]; lia. Qed.

Lemma set_member_fresh (k : string) (v : value) (acc : list (string * value)) :
  existsb (String.eqb k) (map fst acc) = false ->
  set_member k v acc = acc ++ [(k, v)].
Proof.
  induction acc as [|[k' v'] acc IH]; cbn [map fst existsb set_member app];
    [reflexivity|].
  intros H. apply orb_false_elim in H as [Hk H].
  rewrite String.eqb_sym, Hk, (IH H). reflexivity.
Qed.

Lemma distinct_middle (k : string) (acc l : list string) :
  distinct (acc ++ k :: l) = true -> existsb (String.eqb k) acc = false.
Proof.
  induction acc as [|k' acc IH]; cbn [app distinct existsb]; [reflexivity|].
  intros H. apply andb_prop in H as [Hk' H].
  rewrite (IH H), orb_false_r.
  apply negb_true_iff in Hk'. rewrite existsb_app in Hk'.
  apply orb_false_elim in Hk' as [_ Hk'].
  cbn [existsb] in Hk'. apply orb_false_elim in Hk' as [Hk' _].
  now rewrite String.eqb_sym.
Qed.

Lemma weight_array (v : value) (l : list value) :
  weight (Arr (v :: l)) = S (S (weight v) + total l).
Proof. reflexivity. Qed.

Lemma weight_object (kv : string * value) (l : list (string * value)) :
  weight (Obj (kv :: l)) = S (S (weight (snd kv)) + total_members l).
Proof. reflexivity. Qed.

Lemma total_cons (v : value) (l : list value) :
  total (v :: l) = (S (weight v) + total l)%nat.
Proof. reflexivity. Qed.

Lemma total_members_cons (kv : string * value) (l : list (string * value)) :
  total_members (kv :: l) = (S (weight (snd kv)) + total_members l)%nat.
Proof. reflexivity. Qed.

(** Reading back what [stringify] wrote, with enough fuel: a value, the
    elements of an array after its bracket, and the members of an object. *)
Lemma parse_stringify_fuel (n : nat) :
  (forall v rest,
     (weight v <= n)%nat -> wf v = true -> ends_number rest = true ->
     parse_value n (stringify v +:+ rest) = Ok (v, rest)) /\
  (forall l v acc rest,
     (S (weight v) + total l <= n)%nat -> wf v = true -> forallb wf l = true ->
     parse_elements n (stringify v +:+ elements_tail l rest) acc
     = Ok (Arr (rev acc ++ v :: l), rest)) /\
  (forall l kv acc rest,
     (S (weight (snd kv)) + total_members l <= n)%nat ->
     wf_member kv = true -> forallb wf_member l = true ->
     distinct (map fst (acc ++ kv :: l)) = true ->
     parse_members n (member_text kv +:+ members_tail l rest) acc
     = Ok (Obj (acc ++ kv :: l), rest)).
Proof.
  induction n as [|n (IHv & IHe & IHm)].
  { split; [|split]; intros; try lia.
    pose proof (weight_pos v). lia. }
  split; [|split].
  - (* a value *)
    intros v rest Hw Hwf Hrest.
    destruct v as [|[]|z|s|l|l]; try reflexivity.
    + cbn [stringify]. destruct (number_text_head z) as (c & s & Hc & Hd).
      rewrite Hc, append_cons, (parse_value_number _ _ _ Hd), <- append_cons, <- Hc.
      rewrite (parse_number_text _ _ Hwf Hrest). reflexivity.
    + cbn [stringify]. rewrite scan_quote_string, parse_value_string, scan_escape.
      reflexivity.
    + destruct l as [|v l]; [reflexivity|].
      cbn [stringify]. rewrite append_cons, append_nil, append_cons.
      rewrite concat_elements, parse_value_array, next_is_value by auto.
      cbn [wf forallb] in Hwf. apply andb_prop in Hwf as [Hv Hl].
      apply (IHe l v [] rest); auto.
      rewrite weight_array in Hw. lia.
    + destruct l as [|kv l]; [reflexivity|].
      cbn [stringify]. rewrite append_cons, append_nil, append_cons.
      change (map (fun kv0 => quote_string kv0.1 +:+ ":" +:+ stringify kv0.2) (kv :: l))
        with (map member_text (kv :: l)).
      rewrite concat_members, parse_value_object.
      cbn [wf] in Hwf. apply andb_prop in Hwf as [Hl Hd].
      change (forallb _ (kv :: l)) with (forallb wf_member (kv :: l)) in Hl.
      cbn [forallb] in Hl. apply andb_prop in Hl as [Hkv Hl].
      assert (Hq : next_is "}" (member_text kv +:+ members_tail l rest) = None).
      { unfold member_text. rewrite append_assoc, scan_quote_string. reflexivity. }
      rewrite Hq. apply (IHm l kv [] rest); auto.
      rewrite weight_object in Hw. lia.
  - (* the elements of an array *)
    intros l v acc rest Hw Hv Hl.
    cbn [parse_elements].
    rewrite (IHv v _) by (auto using ends_number_elements; lia).
    cbn [mbind result_bind].
    destruct l as [|v' l]; cbn [elements_tail]; rewrite append_cons, append_nil.
    + rewrite !next_is_head by reflexivity. reflexivity.
    + rewrite (next_is_head "," ",") by reflexivity.
      change (Ascii.eqb "," ",") with true. cbv iota.
      cbn [forallb] in Hl. apply andb_prop in Hl as [Hv' Hl].
      rewrite (IHe l v' (v :: acc) rest); auto.
      * cbn [rev]. rewrite <- app_assoc. reflexivity.
      * rewrite total_cons in Hw. lia.
  - (* the members of an object *)
    intros l [k v] acc rest Hw Hkv Hl Hd.
    unfold wf_member in Hkv. cbn [fst snd] in Hkv, Hw.
    apply andb_prop in Hkv as [Hk Hv]. apply negb_true_iff in Hk.
    assert (Hfresh : set_member k v acc = acc ++ [(k, v)]).
    { apply set_member_fresh. rewrite map_app in Hd. cbn [map fst] in Hd.
      exact (distinct_middle _ _ _ Hd). }
    cbn [parse_members]. unfold member_text. cbn [fst snd].
    rewrite append_assoc, scan_quote_string.
    rewrite (next_is_head quote quote) by reflexivity.
    change (Ascii.eqb quote quote) with true. cbv iota.
    rewrite scan_escape. cbn [mbind result_bind].
    rewrite !append_assoc, append_cons, append_nil.
    rewrite (next_is_head ":" ":") by reflexivity.
    change (Ascii.eqb ":" ":") with true. cbv iota.
    rewrite (IHv v _) by (auto using ends_number_members; lia).
    cbn [mbind result_bind]. rewrite Hk, Hfresh.
    destruct l as [|kv' l]; cbn [members_tail]; rewrite append_cons, append_nil.
    + rewrite !next_is_head by reflexivity. reflexivity.
    + rewrite (next_is_head "," ",") by reflexivity.
      change (Ascii.eqb "," ",") with true. cbv iota.
      cbn [forallb] in Hl. apply andb_prop in Hl as [Hkv' Hl].
      rewrite (IHm l kv' (acc ++ [(k, v)]) rest); auto.
      * rewrite <- app_assoc. reflexivity.
      * rewrite total_members_cons in Hw. lia.
      * rewrite <- app_assoc. exact Hd.
Qed.

(** *** The fuel of [parse] is enough *)

Lemma append_nil_r (a : string) : a +:+ "" = a.
Proof. induction a as [|x a IH]; [reflexivity|]. rewrite append_cons. now rewrite IH. Qed.

Lemma list_sum_cons (a : nat) (l : list nat) :
  list_sum (a :: l) = (a + list_sum l)%nat.
Proof. reflexivity. Qed.

Lemma concat_length_bound {A : Type} (f : A -> string) (w : A -> nat) (l : list A) :
  (forall x, In x l -> (w x <= String.length (f x))%nat) ->
  (list_sum (map (fun x => S (w x)) l)
   <= String.length (String.concat "," (map f l)) + 1)%nat.
Proof.
  induction l as [|x l IH]; intros H; [cbn; lia|].
  assert (Hx := H x (or_introl eq_refl)).
  assert (Hl := IH (fun y Hy => H y (or_intror Hy))).
  cbn [map list_sum].
  destruct l as [|y l]; [cbn in *; lia|].
  change (String.concat "," (f x :: map f (y :: l)))
    with (f x +:+ "," +:+ String.concat "," (map f (y :: l))).
  rewrite !length_append, list_sum_cons. cbn [String.length]. lia.
Qed.

Lemma list_sum_member {A : Type} (w : A -> nat) (x : A) (l : list A) :
  In x l -> (S (w x) <= list_sum (map (fun x => S (w x)) l))%nat.
Proof.
  induction l as [|y l IH]; [intros []|].
  intros [-> | H]; cbn [map]; rewrite list_sum_cons; [lia|].
  specialize (IH H). lia.
Qed.

Lemma weight_le_length_bounded (n : nat) (v : value) :
  (weight v <= n)%nat -> (weight v <= String.length (stringify v))%nat.
Proof.
  revert v. induction n as [|n IH]; intros v Hn.
  { pose proof (weight_pos v). lia. }
  destruct v as [|[]|z|s|l|l]; try (cbn; lia).
  - destruct (number_text_head z) as (c & s & Hc & _).
    cbn [stringify weight]. rewrite Hc. cbn. lia.
  - cbn [stringify weight] in *.
    rewrite append_cons, append_nil. cbn [String.length].
    rewrite length_append. cbn [String.length].
    pose proof (concat_length_bound stringify weight l) as Hb.
    apply le_n_S. etransitivity; [apply Hb|lia].
    intros x Hx. apply IH.
    pose proof (list_sum_member weight x l Hx). lia.
  - cbn [stringify weight] in *.
    rewrite append_cons, append_nil. cbn [String.length].
    rewrite length_append. cbn [String.length].
    pose proof (concat_length_bound
                  (fun kv => quote_string kv.1 +:+ ":" +:+ stringify kv.2)
                  (fun kv => weight kv.2) l) as Hb.
    apply le_n_S. etransitivity; [apply Hb|lia].
    intros x Hx. rewrite !length_append.
    pose proof (list_sum_member (fun kv => weight kv.2) x l Hx).
    assert (weight x.2 <= String.length (stringify x.2))%nat by (apply IH; lia).
    lia.
Qed.

Lemma weight_le_length (v : value) :
  (weight v <= String.length (stringify v))%nat.
Proof. exact (weight_le_length_bounded (weight v) v (le_n _)). Qed.

(** [JSON.parse] reads back the value [JSON.stringify] wrote. *)
Lemma parse_stringify (v : value) :
  wf v = true -> parse (stringify v) = Ok v.
Proof.
  intros Hwf. unfold parse.
  rewrite <- (append_nil_r (stringify v)) at 2.
  destruct (parse_stringify_fuel (S (2 * String.length (stringify v)))) as (H & _ & _).
  rewrite H; auto.
  pose proof (weight_le_length v). lia.
Qed.

(** *** The fuel of the reader *)

(** *** Every step reads some text *)

Lemma skip_ws_length (s : string) :
  (String.length (skip_ws s) <= String.length s)%nat.
Proof.
  induction s as [|c s IH]; cbn [skip_ws String.length]; [lia|].
  destruct (is_ws c); cbn [String.length]; lia.
Qed.

Lemma next_is_length (c : ascii) (s s1 : string) :
  next_is c s = Some s1 -> (String.length s1 < String.length s)%nat.
Proof.
  unfold next_is. pose proof (skip_ws_length s) as H.
  destruct (skip_ws s) as [|c' s']; [discriminate|].
  destruct (Ascii.eqb c' c); [|discriminate].
  intros [= <-]. cbn [String.length] in H. lia.
Qed.

Lemma take_digits_length (s : string) :
  String.length s
  = (String.length (fst (take_digits s)) + String.length (snd (take_digits s)))%nat.
Proof.
  induction s as [|c s IH]; cbn [take_digits]; [reflexivity|].
  destruct (is_digit c); [|reflexivity].
  destruct (take_digits s) as [ds rest]. cbn [fst snd String.length] in *. lia.
Qed.

Lemma cons_char_ok (c : ascii) (r : result (string * string)) (k rest : string) :
  cons_char c r = Ok (k, rest) -> exists k', r = Ok (k', rest).
Proof.
  unfold cons_char. destruct r as [[k' rest']| |]; cbn; [|discriminate..].
  intros [= _ <-]. eauto.
Qed.

Lemma scan_string_length_bounded (n : nat) (s k rest : string) :
  (String.length s <= n)%nat ->
  scan_string s = Ok (k, rest) -> (String.length rest < String.length s)%nat.
Proof.
  revert s k rest. induction n as [|n IH]; intros s k rest Hn.
  { destruct s; [discriminate|cbn [String.length] in Hn; lia]. }
  destruct s as [|c s1]; [discriminate|]. cbn [scan_string String.length] in *.
  destruct (Ascii.eqb c quote); [intros [= _ <-]; lia|].
  destruct (Ascii.eqb c backslash).
  - destruct s1 as [|e s2]; [discriminate|]. cbn [String.length] in *.
    destruct (Ascii.eqb e "u").
    + destruct s2 as [|h1 [|h2 [|h3 [|h4 s3]]]]; try discriminate.
      cbn [String.length] in *.
      destruct (hex4 h1 h2 h3 h4) as [x|]; [|discriminate].
      destruct (x <? 256); [|discriminate].
      intros H. apply cons_char_ok in H as [k' H].
      apply IH in H; lia.
    + destruct (simple_escape e); [|discriminate].
      intros H. apply cons_char_ok in H as [k' H].
      apply IH in H; lia.
  - destruct (code c <? 32); [discriminate|].
    intros H. apply cons_char_ok in H as [k' H].
    apply IH in H; lia.
Qed.

Lemma scan_string_length (s k rest : string) :
  scan_string s = Ok (k, rest) -> (String.length rest < String.length s)%nat.
Proof. apply (scan_string_length_bounded (String.length s)). lia. Qed.

Lemma parse_digits_length (neg : bool) (s : string) (z : Z) (rest : string) :
  parse_digits neg s = Ok (z, rest) -> (String.length rest < String.length s)%nat.
Proof.
  unfold parse_digits. pose proof (take_digits_length s) as H.
  destruct (take_digits s) as [ds r]. cbn [fst snd] in H.
  destruct ds as [|c ds]; [discriminate|].
  change (String.eqb (String c ds) "") with false. cbv iota.
  destruct (leading_zero _); [discriminate|].
  destruct (fraction_follows r); [discriminate|].
  destruct (safe_integer _); [|discriminate].
  intros [= _ <-]. cbn [String.length] in H. lia.
Qed.

Lemma parse_number_length (s : string) (z : Z) (rest : string) :
  parse_number s = Ok (z, rest) -> (String.length rest < String.length s)%nat.
Proof.
  unfold parse_number. destruct s as [|c s].
  - intros H. now apply parse_digits_length in H.
  - destruct (Ascii.eqb c "-"); intros H; apply parse_digits_length in H;
      cbn [String.length] in *; lia.
Qed.

Lemma starts_with_drop (p t : string) :
  starts_with p t = true ->
  (String.length (drop (String.length p) t) + String.length p = String.length t)%nat.
Proof.
  revert t. induction p as [|a p IH]; intros t; cbn [starts_with String.length drop].
  - destruct t; cbn [drop]; lia.
  - destruct t as [|b t]; [discriminate|]. intros H.
    apply andb_prop in H as [_ H]. specialize (IH _ H).
    cbn [String.length drop]. lia.
Qed.

Lemma ok_rest {A B : Type} (a a' : A) (b b' : B) :
  Ok (a, b) = Ok (a', b') -> b = b'.
Proof. congruence. Qed.

Lemma parse_value_S (n : nat) (s : string) :
  parse_value (S n) s
  = match skip_ws s with
    | EmptyString => SyntaxError
    | String c s1 as t =>
        if Ascii.eqb c "[" then
          match next_is "]" s1 with
          | Some s2 => Ok (Arr [], s2)
          | None => parse_elements n s1 []
          end
        else if Ascii.eqb c "{" then
          match next_is "}" s1 with
          | Some s2 => Ok (Obj [], s2)
          | None => parse_members n s1 []
          end
        else if Ascii.eqb c quote then
          '(str, rest) ← scan_string s1; Ok (Str str, rest)
        else if Ascii.eqb c "-" || is_digit c then
          '(z, rest) ← parse_number t; Ok (Num z, rest)
        else if starts_with "true" t then Ok (Bool true, drop 4 t)
        else if starts_with "false" t then Ok (Bool false, drop 5 t)
        else if starts_with "null" t then Ok (Null, drop 4 t)
        else SyntaxError
    end.
Proof. reflexivity. Qed.

Lemma parse_elements_S (n : nat) (s : string) (acc : list value) :
  parse_elements (S n) s acc
  = '(v, rest) ← parse_value n s;
    match next_is "," rest, next_is "]" rest with
    | Some s1, _ => parse_elements n s1 (v :: acc)
    | None, Some s1 => Ok (Arr (rev (v :: acc)), s1)
    | None, None => SyntaxError
    end.
Proof. reflexivity. Qed.

Lemma parse_members_S (n : nat) (s : string) (acc : list (string * value)) :
  parse_members (S n) s acc
  = match next_is quote s with
    | None => SyntaxError
    | Some s1 =>
        '(k, rest) ← scan_string s1;
        match next_is ":" rest with
        | None => SyntaxError
        | Some s2 =>
            '(v, rest') ← parse_value n s2;
            if index_like k then Unsupported
            else
              match next_is "," rest', next_is "}" rest' with
              | Some s3, _ => parse_members n s3 (set_member k v acc)
              | None, Some s3 => Ok (Obj (set_member k v acc), s3)
              | None, None => SyntaxError
              end
        end
    end.
Proof. reflexivity. Qed.

(** A value that is read leaves a shorter text. *)
Lemma parse_consumes (n : nat) :
  (forall s v rest,
     parse_value n s = Ok (v, rest) ->
     (String.length rest < String.length s)%nat) /\
  (forall s acc v rest,
     parse_elements n s acc = Ok (v, rest) ->
     (String.length rest < String.length s)%nat) /\
  (forall s acc v rest,
     parse_members n s acc = Ok (v, rest) ->
     (String.length rest < String.length s)%nat).
Proof.
  induction n as [|n (IHv & IHe & IHm)]; [repeat split; intros; discriminate|].
  split; [|split].
  - intros s v rest. rewrite parse_value_S.
    pose proof (skip_ws_length s) as Hs.
    destruct (skip_ws s) as [|c s1]; [discriminate|].
    cbn [String.length] in Hs. cbv zeta.
    destruct (Ascii.eqb c "[").
    { destruct (next_is "]" s1) as [s2|] eqn:E.
      - intros [= _ <-]. apply next_is_length in E. lia.
      - intros H. apply IHe in H. lia. }
    destruct (Ascii.eqb c "{").
    { destruct (next_is "}" s1) as [s2|] eqn:E.
      - intros [= _ <-]. apply next_is_length in E. lia.
      - intros H. apply IHm in H. lia. }
    destruct (Ascii.eqb c quote).
    { destruct (scan_string s1) as [[k r]| |] eqn:E; cbn [mbind result_bind];
        [|discriminate..].
      intros [= _ <-]. apply scan_string_length in E. lia. }
    destruct (Ascii.eqb c "-" || is_digit c).
    { destruct (parse_number (String c s1)) as [[z r]| |] eqn:E;
        cbn [mbind result_bind]; [|discriminate..].
      intros [= _ <-]. apply parse_number_length in E.
      cbn [String.length] in E. lia. }
    destruct (starts_with "true" (String c s1)) eqn:E1.
    { intros H. apply ok_rest in H as <-. apply starts_with_drop in E1.
      cbn [String.length] in E1. lia. }
    destruct (starts_with "false" (String c s1)) eqn:E2.
    { intros H. apply ok_rest in H as <-. apply starts_with_drop in E2.
      cbn [String.length] in E2. lia. }
    destruct (starts_with "null" (String c s1)) eqn:E3; [|discriminate].
    intros H. apply ok_rest in H as <-. apply starts_with_drop in E3.
    cbn [String.length] in E3. lia.
  - intros s acc v rest. rewrite parse_elements_S.
    destruct (parse_value n s) as [[v0 r]| |] eqn:E; cbn [mbind result_bind];
      [|discriminate..].
    apply IHv in E.
    destruct (next_is "," r) as [s1|] eqn:E1.
    + intros H. apply IHe in H. apply next_is_length in E1. lia.
    + destruct (next_is "]" r) as [s1|] eqn:E2; [|discriminate].
      intros [= _ <-]. apply next_is_length in E2. lia.
  - intros s acc v rest. rewrite parse_members_S.
    destruct (next_is quote s) as [s1|] eqn:E0; [|discriminate].
    apply next_is_length in E0.
    destruct (scan_string s1) as [[k r]| |] eqn:E; cbn [mbind result_bind];
      [|discriminate..].
    apply scan_string_length in E.
    destruct (next_is ":" r) as [s2|] eqn:E1; [|discriminate].
    apply next_is_length in E1.
    destruct (parse_value n s2) as [[v0 r']| |] eqn:E2; cbn [mbind result_bind];
      [|discriminate..].
    apply IHv in E2.
    destruct (index_like k); [discriminate|].
    destruct (next_is "," r') as [s3|] eqn:E3.
    + intros H. apply IHm in H. apply next_is_length in E3. lia.
    + destruct (next_is "}" r') as [s3|] eqn:E4; [|discriminate].
      intros [= _ <-]. apply next_is_length in E4. lia.
Qed.

(** With a fuel of twice the length of the text and one more, or two more
    for the elements of an array and the members of an object, more fuel
    changes nothing: the reader never runs out of it. *)
Lemma parse_fuel_enough (n : nat) :
  (forall m s,
     (2 * String.length s + 1 <= n)%nat -> (n <= m)%nat ->
     parse_value m s = parse_value n s) /\
  (forall m s acc,
     (2 * String.length s + 2 <= n)%nat -> (n <= m)%nat ->
     parse_elements m s acc = parse_elements n s acc) /\
  (forall m s acc,
     (2 * String.length s + 2 <= n)%nat -> (n <= m)%nat ->
     parse_members m s acc = parse_members n s acc).
Proof.
  induction n as [|n (IHv & IHe & IHm)]; [repeat split; intros; lia|].
  destruct (parse_consumes n) as (Cv & _ & _).
  split; [|split].
  - intros [|m] s Hn Hm; [lia|]. rewrite !parse_value_S.
    pose proof (skip_ws_length s) as Hs.
    destruct (skip_ws s) as [|c s1]; [reflexivity|].
    cbn [String.length] in Hs. cbv zeta.
    rewrite (IHe m s1 []), (IHm m s1 []) by lia. reflexivity.
  - intros [|m] s acc Hn Hm; [lia|]. rewrite !parse_elements_S.
    rewrite (IHv m s) by lia.
    destruct (parse_value n s) as [[v r]| |] eqn:E; cbn [mbind result_bind];
      [|reflexivity..].
    apply Cv in E.
    destruct (next_is "," r) as [s1|] eqn:E1; [|reflexivity].
    apply next_is_length in E1. apply IHe; lia.
  - intros [|m] s acc Hn Hm; [lia|]. rewrite !parse_members_S.
    destruct (next_is quote s) as [s1|] eqn:E0; [|reflexivity].
    apply next_is_length in E0.
    destruct (scan_string s1) as [[k r]| |] eqn:E; cbn [mbind result_bind];
      [|reflexivity..].
    apply scan_string_length in E.
    destruct (next_is ":" r) as [s2|] eqn:E1; [|reflexivity].
    apply next_is_length in E1.
    rewrite (IHv m s2) by lia.
    destruct (parse_value n s2) as [[v r']| |] eqn:E2; cbn [mbind result_bind];
      [|reflexivity..].
    apply Cv in E2.
    destruct (index_like k); [reflexivity|].
    destruct (next_is "," r') as [s3|] eqn:E3; [|reflexivity].
    apply next_is_length in E3. apply IHm; lia.
Qed.

(** The fuel [parse] gives is enough: more of it reads the same. *)
Lemma parse_value_fuel (m : nat) (text : string) :
  (S (2 * String.length text) <= m)%nat ->
  parse_value m text = parse_value (S (2 * String.length text)) text.
Proof.
  intros H. destruct (parse_fuel_enough (S (2 * String.length text))) as (Hv & _ & _).
  apply Hv; lia.
Qed.

(** *** Examples of reading *)

Example parse_rejects :
  parse "" = SyntaxError /\ parse "{" = SyntaxError /\
  parse "not json" = SyntaxError /\ parse "[1,]" = SyntaxError /\
  parse "[01]" = SyntaxError /\ parse "[1 2]" = SyntaxError /\
  parse "nullx" = SyntaxError /\ parse "[[[[" = SyntaxError /\
  parse (String quote "abc") = SyntaxError.
Proof. vm_compute. repeat split. Qed.

Example parse_accepts :
  parse " [1 , -2, true,null ] " = Ok (Arr [Num 1; Num (-2); Bool true; Null]) /\
  parse (String quote ("a\u0041\n\/" +:+ char quote))
    = Ok (Str ("aA" +:+ char (ascii_of_nat 10) +:+ "/")) /\
  parse ("{" +:+ quote_string "a" +:+ ":1," +:+ quote_string "b" +:+ ":[],"
         +:+ quote_string "a" +:+ ":{}}")
    = Ok (Obj [("a"%string, Obj []); ("b"%string, Arr [])]).
Proof. vm_compute. repeat split. Qed.

Example parse_outside_the_model :
  parse "1.5" = Unsupported /\ parse "1e3" = Unsupported /\
  parse "9007199254740992" = Unsupported /\
  parse (String quote ("\u0141" +:+ char quote)) = Unsupported /\
  parse ("{" +:+ quote_string "12" +:+ ":1}") = Unsupported.
Proof. vm_compute. repeat split. Qed.

Example stringify_escapes :
  stringify (Str ("a" +:+ char quote +:+ "\" +:+ char (ascii_of_nat 10)
                  +:+ char (ascii_of_nat 1) +:+ char i_acute))
  = String quote ("a\" +:+ char quote +:+ "\\\n\u0001" +:+ char i_acute
                  +:+ char quote).
Proof. vm_compute. reflexivity. Qed.

End JSONFacts.

(** ** The dynamic list *)

Module DynamicListFacts.
Import JSString JSStringFacts JSONFacts DynamicList.

(** *** Items as JSON *)

Lemma item_of_json_to_json (item : ListItem) :
  item_of_json (item_to_json item) = Some item.
Proof. destruct item as [i [t|] [d|] [v|] c]; reflexivity. Qed.

Lemma wf_item_to_json (item : ListItem) :
  JSON.wf (item_to_json item) = valid_item item.
Proof.
  destruct item as [i [t|] [d|] [v|] c]; unfold valid_item; cbn;
    now rewrite ?andb_true_r.
Qed.

Lemma items_of_json_to_json (l : list ListItem) :
  items_of_json (JSON.Arr (map item_to_json l)) = Some l.
Proof.
  cbn [items_of_json]. induction l as [|item l IH]; [reflexivity|].
  cbn [map mapM]. rewrite item_of_json_to_json. cbn. rewrite IH. reflexivity.
Qed.

Lemma wf_items_to_json (l : list ListItem) :
  JSON.wf (JSON.Arr (map item_to_json l)) = forallb valid_item l.
Proof.
  cbn [JSON.wf]. induction l as [|item l IH]; [reflexivity|].
  cbn [map forallb]. now rewrite wf_item_to_json, IH.
Qed.

Lemma parse_serialize (l : list ListItem) :
  forallb valid_item l = true ->
  JSON.parse (serialize l) = JSON.Ok (JSON.Arr (map item_to_json l)).
Proof.
  intros H. apply parse_stringify. now rewrite wf_items_to_json.
Qed.

Lemma serialize_not_empty (l : list ListItem) :
  String.eqb (serialize l) "" = false.
Proof. unfold serialize. cbn [JSON.stringify]. rewrite append_cons. reflexivity. Qed.

Section HostFacts.

Variable toLocaleDateString : string -> string.

(** *** Loading *)

(** C7.  Serialization round trip: for items whose ids are safe integers,
    [JSON.parse] of [JSON.stringify(items)] is the array of the same
    objects, which are the same items field by field and in the same order;
    so [init] on a page whose store [saveToLocalStorage] wrote loads the
    items that were saved. *)
Theorem saved_items_load_back (cid : string) (d d0 : state) (b : Browser) :
  forallb valid_item (items d) = true ->
  is_Some (document b !! cid) ->
  JSON.parse (serialize (items d)) = JSON.Ok (JSON.Arr (map item_to_json (items d))) /\
  items_of_json (JSON.Arr (map item_to_json (items d))) = Some (items d) /\
  (exists s, init toLocaleDateString cid d0 (saveToLocalStorage d b) = Normal s /\
             items (fst s) = items d).
Proof.
  intros Hvalid [el Hel].
  split; [apply parse_serialize, Hvalid|].
  split; [apply items_of_json_to_json|].
  unfold init. cbn [saveToLocalStorage document localStorage container].
  rewrite Hel, lookup_insert_eq, serialize_not_empty, (parse_serialize _ Hvalid).
  rewrite items_of_json_to_json. eexists. split; reflexivity.
Qed.

(** C1, amended.  With the container in the page and a stored text, not
    empty, that [JSON.parse] rejects, [init] throws the [SyntaxError] to
    its caller, after it has set the container fields and before it touches
    the items.  It returns normally, the items untouched, only when it does
    not parse: without the container, or when the stored text is empty. *)
Theorem init_malformed_blob_throws (cid blob : string) (d : state) (b : Browser) :
  localStorage b !! storage_key = Some blob ->
  JSON.parse blob = JSON.SyntaxError ->
  (is_Some (document b !! cid) -> blob <> ""%string ->
   exists d1, init toLocaleDateString cid d b = Throw SyntaxError (d1, b) /\
              items d1 = items d) /\
  (document b !! cid = None \/ blob = ""%string ->
   exists d1, init toLocaleDateString cid d b = Normal (d1, b) /\
              items d1 = items d).
Proof.
  intros Hblob Hparse. split.
  - intros [el Hel] Hne. unfold init. cbn [container]. rewrite Hel, Hblob.
    destruct (String.eqb_spec blob "") as [->|_]; [contradiction|].
    rewrite Hparse. eexists. split; reflexivity.
  - intros Hnone. unfold init. cbn [container].
    destruct (document b !! cid) as [el|]; [|eexists; split; reflexivity].
    destruct Hnone as [Hnone| ->]; [discriminate|].
    rewrite Hblob. eexists. split; reflexivity.
Qed.

(** *** Rendering *)

Lemma palette_index (k : nat) :
  In (nth (k mod 5) COLOR_PALETTE_primary "undefined"%string) COLOR_PALETTE_primary.
Proof.
  apply nth_In. change (length COLOR_PALETTE_primary) with 5%nat.
  apply Nat.mod_upper_bound. discriminate.
Qed.

Lemma set_hidden_children (h : bool) (d : state) (b : Browser) (e : string) (el : Element) :
  document b !! e = Some el ->
  exists el', document (set_hidden h d b) !! e = Some el' /\
              children el' = children el.
Proof.
  intros Hel. unfold set_hidden. destruct (emptyMessage d) as [m|]; [|eauto].
  cbn [set_document document]. rewrite lookup_alter.
  destruct (decide (m = e)) as [->|_]; [|eauto].
  rewrite Hel. eexists. split; reflexivity.
Qed.

(** The cards [forEach] appends: one for each item, in order, each showing
    its item, with a border of one of the five colours. *)
Lemma forEach_cards (e : string) (l : list ListItem) (b : Browser) (el : Element) :
  document b !! e = Some el ->
  exists cards,
    rendered e
      (fold_left
         (fun b item =>
            let '(itemElement, b') := createItemElement toLocaleDateString item b in
            appendChild e itemElement b') l b)
    = children el ++ cards /\
    map descriptor cards = map (item_descriptor toLocaleDateString) l /\
    Forall (fun c => In (border_color c) COLOR_PALETTE_primary) cards.
Proof.
  revert b el. induction l as [|item l IH]; intros b el Hel.
  - exists []. unfold rendered. cbn [fold_left]. rewrite Hel, app_nil_r. auto.
  - cbn [fold_left].
    set (card := fst (createItemElement toLocaleDateString item b)).
    set (b1 := appendChild e card (snd (createItemElement toLocaleDateString item b))).
    assert (Hb1 : document b1 !! e
                  = Some {| hidden := hidden el; children := children el ++ [card] |}).
    { unfold b1, appendChild. cbn [set_document document createItemElement snd].
      rewrite lookup_alter_eq, Hel. reflexivity. }
    destruct (IH b1 _ Hb1) as (cards & Hr & Hd & Hc).
    exists (card :: cards). split; [|split].
    + change (let '(itemElement, b') := createItemElement toLocaleDateString item b in
              appendChild e itemElement b') with b1.
      rewrite Hr. cbn [children]. rewrite <- app_assoc. reflexivity.
    + cbn [map]. rewrite Hd. reflexivity.
    + constructor; [apply palette_index|exact Hc].
Qed.

Lemma render_cards (d : state) (b : Browser) (e : string) :
  container d = Some e -> is_Some (document b !! e) ->
  map descriptor (rendered e (render toLocaleDateString d b))
    = map (item_descriptor toLocaleDateString) (items d) /\
  Forall (fun c => In (border_color c) COLOR_PALETTE_primary)
    (rendered e (render toLocaleDateString d b)).
Proof.
  intros Hc [el Hel]. unfold render. rewrite Hc.
  set (b1 := set_document _ b).
  assert (Hb1 : document b1 !! e = Some {| hidden := hidden el; children := [] |}).
  { unfold b1. cbn [set_document document]. rewrite lookup_alter_eq, Hel. reflexivity. }
  destruct (items d) as [|item l] eqn:Hitems.
  - destruct (set_hidden_children false d b1 e _ Hb1) as (el' & Hel' & Hch).
    unfold showEmptyMessage, rendered. rewrite Hel', Hch. cbn. auto.
  - destruct (set_hidden_children true d b1 e _ Hb1) as (el' & Hel' & Hch).
    destruct (forEach_cards e (item :: l) (hideEmptyMessage d b1) el' Hel')
      as (cards & Hr & Hd & Hp).
    rewrite Hr, Hch. cbn [children app]. auto.
Qed.

Lemma render_keeps_elements (d : state) (b : Browser) (e : string) :
  is_Some (document b !! e) ->
  is_Some (document (render toLocaleDateString d b) !! e).
Proof.
  assert (Hh : forall h b, is_Some (document b !! e) ->
                 is_Some (document (set_hidden h d b) !! e)).
  { intros h b0 H. unfold set_hidden. destruct (emptyMessage d); [|exact H].
    cbn [set_document document]. now apply lookup_alter_is_Some. }
  assert (Hf : forall c l b, is_Some (document b !! e) ->
     is_Some (document (fold_left
         (fun b item =>
            let '(itemElement, b') := createItemElement toLocaleDateString item b in
            appendChild c itemElement b') l b) !! e)).
  { intros c l. induction l as [|item l IH]; intros b0 H; [exact H|].
    cbn [fold_left]. apply IH. unfold appendChild.
    cbn [createItemElement set_document document]. now apply lookup_alter_is_Some. }
  intros H. unfold render. destruct (container d) as [c|]; [|exact H].
  assert (H1 : is_Some (document (set_document
              (alter (fun el => {| hidden := hidden el; children := [] |}) c (document b)) b) !! e)).
  { cbn [set_document document]. now apply lookup_alter_is_Some. }
  destruct (items d); [apply Hh, H1|apply Hf, Hh, H1].
Qed.

(** C2.  What the cards show of the items (titles, dates, descriptions,
    values, and the ids the delete buttons remove) is a function of the
    items alone: two calls of [render] on the same list, from whatever
    state of the page, give the same descriptors, one for each item in
    order.  The colour of a card's border, which is no part of the
    descriptor, is drawn afresh at each call, among the five colours of the
    palette. *)
Theorem render_descriptors_from_items (d : state) (b1 b2 : Browser) (e : string) :
  container d = Some e ->
  is_Some (document b1 !! e) -> is_Some (document b2 !! e) ->
  map descriptor (rendered e (render toLocaleDateString d b1))
    = map (item_descriptor toLocaleDateString) (items d) /\
  map descriptor (rendered e (render toLocaleDateString d b1))
    = map descriptor (rendered e (render toLocaleDateString d b2)) /\
  map descriptor (rendered e (render toLocaleDateString d
                                (render toLocaleDateString d b1)))
    = map descriptor (rendered e (render toLocaleDateString d b1)) /\
  Forall (fun c => In (border_color c) COLOR_PALETTE_primary)
    (rendered e (render toLocaleDateString d b1)).
Proof.
  intros Hc H1 H2.
  destruct (render_cards d b1 e Hc H1) as [Hd1 Hp1].
  destruct (render_cards d b2 e Hc H2) as [Hd2 _].
  destruct (render_cards d _ e Hc (render_keeps_elements d b1 e H1)) as [Hd3 _].
  repeat split; congruence.
Qed.

Lemma render_keeps_storage (d : state) (b : Browser) :
  localStorage (render toLocaleDateString d b) = localStorage b.
Proof.
  unfold render, showEmptyMessage, hideEmptyMessage.
  destruct (container d) as [c|]; [|reflexivity].
  assert (Hh : forall h b0, localStorage (set_hidden h d b0) = localStorage b0).
  { intros h b0. unfold set_hidden. now destruct (emptyMessage d). }
  destruct (items d) as [|x l0]; [now rewrite Hh|].
  generalize (x :: l0). intros l1.
  assert (Hf : forall b0, localStorage (fold_left
     (fun b item =>
        let '(itemElement, b') := createItemElement toLocaleDateString item b in
        appendChild c itemElement b') l1 b0) = localStorage b0).
  { induction l1 as [|y l1 IH]; intros b0; [reflexivity|].
    cbn [fold_left]. now rewrite IH. }
  now rewrite Hf, Hh.
Qed.

(** *** Removing *)






End HostFacts.

(** C1, as stated, fails: on the page of the site, with the text [{] in the
    store, [init] does not return with an empty list; it throws. *)
Lemma init_throws_on_open_brace :
  JSON.parse "{" = JSON.SyntaxError /\
  (exists d1,
     init (fun s => s) "lista-dinamica" initial
       (page (Some "{"%string) (fun n => n) (fun _ => 0))
     = Throw SyntaxError (d1, page (Some "{"%string) (fun n => n) (fun _ => 0))) /\
  (forall s,
     init (fun s => s) "lista-dinamica" initial
       (page (Some "{"%string) (fun n => n) (fun _ => 0))
     <> Normal s).
Proof.
  split; [reflexivity|].
  split; [eexists; reflexivity|].
  intros s H. vm_compute in H. discriminate H.
Qed.

(** The theorem on the page of the site, with the text [not json] stored. *)
Lemma init_malformed_blob_throws_witness :
  let b := page (Some "not json"%string) (fun n => n) (fun _ => 0) in
  (is_Some (document b !! "lista-dinamica") -> "not json"%string <> ""%string ->
   exists d1,
     init (fun s => s) "lista-dinamica" initial b = Throw SyntaxError (d1, b) /\
     items d1 = items initial) /\
  (document b !! "lista-dinamica" = None \/ "not json"%string = ""%string ->
   exists d1,
     init (fun s => s) "lista-dinamica" initial b = Normal (d1, b) /\
     items d1 = items initial).
Proof.
  apply (init_malformed_blob_throws (fun s => s) "lista-dinamica" "not json").
  - reflexivity.
  - vm_compute. reflexivity.
Defined.

(** The theorem for two items saved from the page of the site. *)
Lemma saved_items_load_back_witness :
  let d := set_items [sample_item 1735689600000 "uno"; sample_item 1735689600001 "dos"]
             initial in
  let b := page None (fun n => n) (fun _ => 0) in
  JSON.parse (serialize (items d)) = JSON.Ok (JSON.Arr (map item_to_json (items d))) /\
  items_of_json (JSON.Arr (map item_to_json (items d))) = Some (items d) /\
  (exists s, init (fun s => s) "lista-dinamica" initial (saveToLocalStorage d b)
             = Normal s /\
             items (fst s) = items d).
Proof.
  apply saved_items_load_back.
  - vm_compute. reflexivity.
  - eexists. reflexivity.
Defined.

(** Two calls of [render] on the same one-item list give cards with the
    same descriptor that differ in the colour of the border. *)
Lemma render_twice_differs :
  let d := listed [sample_item 1735689600000 "uno"] in
  let b := page None (fun n => n) (fun _ => 0) in
  rendered "lista-dinamica" (render (fun s => s) d b)
  <> rendered "lista-dinamica" (render (fun s => s) d (render (fun s => s) d b)) /\
  map descriptor (rendered "lista-dinamica" (render (fun s => s) d b))
  = map descriptor
      (rendered "lista-dinamica" (render (fun s => s) d (render (fun s => s) d b))) /\
  map border_color (rendered "lista-dinamica" (render (fun s => s) d b))
  = ["#2D00F7"%string] /\
  map border_color
    (rendered "lista-dinamica" (render (fun s => s) d (render (fun s => s) d b)))
  = ["#6A00F4"%string].
Proof. vm_compute. repeat split. discriminate. Qed.

(** The theorem for two items and two pages that draw different colours. *)
Lemma render_descriptors_from_items_witness :
  let d := listed [sample_item 1735689600000 "uno"; sample_item 1735689600001 ""] in
  let b1 := page None (fun n => n) (fun _ => 0) in
  let b2 := page None (fun n => 3 * n + 1)%nat (fun _ => 0) in
  let e := "lista-dinamica"%string in
  map descriptor (rendered e (render (fun s => s) d b1))
    = map (item_descriptor (fun s => s)) (items d) /\
  map descriptor (rendered e (render (fun s => s) d b1))
    = map descriptor (rendered e (render (fun s => s) d b2)) /\
  map descriptor (rendered e (render (fun s => s) d (render (fun s => s) d b1)))
    = map descriptor (rendered e (render (fun s => s) d b1)) /\
  Forall (fun c => In (border_color c) COLOR_PALETTE_primary)
    (rendered e (render (fun s => s) d b1)).
Proof.
  apply render_descriptors_from_items.
  - reflexivity.
  - eexists. reflexivity.
  - eexists. reflexivity.
Defined.

(** Two items added within one tick of the clock take the same id. *)
Lemma addItem_twice_same_id :
  let data t := {| data_title := Some t; data_description := None;
                   data_value := None |} in
  let iso := fun _ : Z => "2025-01-01T00:00:00.000Z"%string in
  let r1 := addItem (fun s => s) iso (data "uno"%string) (listed [])
              (page None (fun n => n) (fun _ => 1735689600000)) in
  let r2 := addItem (fun s => s) iso (data "dos"%string) (fst (snd r1)) (snd (snd r1)) in
  map id (items (fst (snd r2))) = [1735689600000; 1735689600000] /\
  map title (items (fst (snd r2))) = [Some "dos"%string; Some "uno"%string].
Proof. vm_compute. auto. Qed.


End DynamicListFacts.

(** ** The calculator: what is typed *)

Module OperandFacts.
Import JSString JSStringFacts JSONFacts Calculator CalculatorFacts Operand OperandState.

Lemma points_append (a b : string) : points (a +:+ b) = (points a + points b)%nat.
Proof.
  induction a as [|c a IH]; [reflexivity|].
  rewrite append_cons. cbn [points]. rewrite IH. lia.
Qed.

Lemma points_uint (d : Decimal.uint) : points (NilEmpty.string_of_uint d) = 0%nat.
Proof. induction d; cbn; auto. Qed.

Lemma points_of_N (n : N) : points (of_N n) = 0%nat.
Proof. apply points_uint. Qed.

Lemma points_concat (l : list string) :
  Forall (fun s => points s = 0%nat) l -> points (String.concat "" l) = 0%nat.
Proof.
  induction 1 as [|x l Hx Hl IH]; [reflexivity|].
  cbn [String.concat]. destruct l as [|y l]; [exact Hx|].
  rewrite !points_append, Hx, IH. reflexivity.
Qed.

Lemma points_zeros (n : Z) : points (zeros n) = 0%nat.
Proof.
  apply points_concat. induction (Z.to_nat n); constructor; auto.
Qed.

Lemma points_substring (a b : nat) (s : string) :
  points s = 0%nat -> points (substring a b s) = 0%nat.
Proof.
  revert a b. induction s as [|c s IH]; intros a b H.
  - destruct a, b; reflexivity.
  - cbn [points] in H. destruct a as [|a], b as [|b]; cbn [substring]; try reflexivity.
    + cbn [points]. rewrite IH by lia. lia.
    + apply IH. lia.
    + apply IH. lia.
Qed.

Lemma points_format_digits (s k n : Z) : (points (Number.format_digits s k n) <= 1)%nat.
Proof.
  unfold Number.format_digits.
  pose proof (points_of_N (Z.to_N s)) as Hd.
  repeat match goal with |- context [if ?b then _ else _] => destruct b end;
    rewrite ?points_append, ?points_zeros, ?points_of_N, ?points_substring by exact Hd;
    cbn; lia.
Qed.

Lemma points_toString (x : spec_float) : (points (Number.toString x) <= 1)%nat.
Proof.
  destruct x as [s|s| |s m e]; cbn [Number.toString].
  - cbn. lia.
  - destruct s; cbn; lia.
  - cbn. lia.
  - destruct (Number.fraction m e) as [num den].
    destruct (Number.shortest _ _ _ _ _ _) as [[s0 k] n'].
    rewrite points_append. pose proof (points_format_digits s0 k n') as H.
    set (p := points (Number.format_digits s0 k n')) in *.
    destruct s; cbn; lia.
Qed.

Lemma points_no_point (s : string) : includes s "." = false -> points s = 0%nat.
Proof.
  induction s as [|c s IH]; [reflexivity|].
  intros H. apply includes_point_cons in H as [Hc H].
  cbn [points]. rewrite Hc, (IH H). reflexivity.
Qed.

Lemma points_slice (s : string) : (points (slice_0_m1 s) <= points s)%nat.
Proof.
  induction s as [|c s IH]; [reflexivity|].
  destruct s as [|c' s]; [cbn; lia|].
  change (slice_0_m1 (String c (String c' s)))
    with (String c (slice_0_m1 (String c' s))).
  cbn [points] in *. lia.
Qed.

Lemma appendNumber_one_point (number : string) (c : state) :
  point_or_none number -> one_point c -> one_point (appendNumber number c).
Proof.
  intros Hk [Hc Hp]. unfold appendNumber, one_point.
  destruct c as [cur prev op flag].
  cbn [currentOperand previousOperand shouldResetScreen operation] in *.
  set (c1 := if flag then _ else _).
  assert (H1 : (points (currentOperand c1) <= 1)%nat /\ previousOperand c1 = prev).
  { unfold c1. destruct flag; cbn; auto with arith. }
  destruct H1 as [H1 H2]. clearbody c1.
  destruct (String.eqb_spec number ".") as [->|Hn]; cbn [andb].
  - destruct (includes (currentOperand c1) ".") eqn:Hi.
    + rewrite H2. auto.
    + apply points_no_point in Hi.
      destruct (String.eqb (currentOperand c1) "0" && negb true);
        cbn [currentOperand previousOperand]; rewrite ?points_append, ?H2, ?Hi;
        split; auto.
  - destruct Hk as [Hk|Hk]; [|contradiction].
    destruct (String.eqb (currentOperand c1) "0" && _);
      cbn [currentOperand previousOperand]; rewrite ?points_append, ?H2, ?Hk;
      split; auto; lia.
Qed.

Lemma compute_one_point (c : state) : one_point c -> one_point (compute c).
Proof.
  intros H. unfold compute.
  destruct (Number.isNaN _ || Number.isNaN _); [exact H|].
  destruct (apply_operation _ _ _) as [r|] eqn:Hr; [|exact H].
  split; [|cbn; lia]. cbn [currentOperand].
  destruct r as [x|s]; cbn [computation_text]; [apply points_toString|].
  unfold apply_operation in Hr.
  destruct (operation c) as [o|]; [|discriminate].
  repeat match type of Hr with
         | (if ?b then _ else _) = _ => destruct b
         end; try discriminate.
  injection Hr as <-. cbn. lia.
Qed.

Lemma keydown_one_point (key : string) (c : state) :
  point_or_none key -> one_point c -> one_point (keydown key c).
Proof.
  intros Hk H. unfold keydown.
  destruct (String.leb "0" key && String.leb key "9");
    [now apply appendNumber_one_point|].
  destruct (String.eqb key "."); [apply appendNumber_one_point; [right|]; auto|].
  destruct (_ || _ || _ || _).
  { unfold chooseOperation. destruct (String.eqb (currentOperand c) ""); [exact H|].
    assert (H1 : one_point (if negb (String.eqb (previousOperand c) "")
                            then compute c else c)).
    { destruct (negb _); [now apply compute_one_point|exact H]. }
    destruct H1 as [H1 _]. split; [cbn; lia|exact H1]. }
  destruct (_ || _); [now apply compute_one_point|].
  destruct (String.eqb key "Escape"); [split; cbn; lia|].
  destruct (String.eqb key "Backspace"); [|exact H].
  destruct H as [H1 H2]. split; [|exact H2]. cbn [delete currentOperand].
  destruct (_ || _); [cbn; lia|].
  pose proof (points_slice (currentOperand c)). lia.
Qed.

(** X1.  Whatever keys are pressed, each a key whose text is the point or
    has no point in it, neither operand ever holds two decimal points:
    every listener keeps it so, [compute] included, whose result is the
    text of a number. *)
Theorem keys_keep_one_point (ks : list string) (c : state) :
  Forall point_or_none ks -> one_point c -> one_point (keys ks c).
Proof.
  unfold keys. intros Hks. revert c.
  induction Hks as [|k ks Hk _ IH]; intros c Hc; [exact Hc|].
  cbn [fold_left]. apply IH. now apply keydown_one_point.
Qed.

(** The theorem for keys that try to type a second point, before and
    after a division. *)
Lemma keys_keep_one_point_witness :
  one_point (keys ["1"; "."; "5"; "."; "2"; "/"; "."; "."; "4"; "="; "."; "Backspace"]%string initial).
Proof.
  apply keys_keep_one_point.
  - repeat constructor; (left; reflexivity) || (right; reflexivity).
  - split; cbn; lia.
Defined.

(** *** Typing digits *)

Lemma digit_key_keydown (k : string) (c : state) :
  digit_key k = true -> keydown k c = appendNumber k c.
Proof.
  destruct k as [|ch [|]]; try discriminate. cbn [digit_key]. intros H.
  unfold keydown.
  assert (Hr : String.leb "0" (String ch "") && String.leb (String ch "") "9" = true).
  { revert H. each_ascii ch; vm_compute; congruence. }
  rewrite Hr. reflexivity.
Qed.

Lemma drop_zeros_all (p q : string) :
  drop_zeros p = ""%string -> drop_zeros (p +:+ q) = drop_zeros q.
Proof.
  induction p as [|c p IH]; [reflexivity|].
  rewrite append_cons. cbn [drop_zeros]. destruct (Ascii.eqb c "0"); [exact IH|discriminate].
Qed.

Lemma drop_zeros_some (p q : string) :
  drop_zeros p <> ""%string -> drop_zeros (p +:+ q) = drop_zeros p +:+ q.
Proof.
  induction p as [|c p IH]; [contradiction|].
  rewrite append_cons. cbn [drop_zeros]. destruct (Ascii.eqb c "0"); [exact IH|].
  intros _. now rewrite append_cons.
Qed.

Lemma drop_zeros_head (p : string) (c : ascii) (t : string) :
  drop_zeros p = String c t -> Ascii.eqb c "0" = false.
Proof.
  induction p as [|c' p IH]; [discriminate|].
  cbn [drop_zeros]. destruct (Ascii.eqb c' "0") eqn:E; [exact IH|].
  intros [= -> _]. exact E.
Qed.

Lemma appendNumber_digit (ch : ascii) (p : string) (c : state) :
  is_digit ch = true ->
  shouldResetScreen c = false ->
  currentOperand c = without_leading_zeros p ->
  shouldResetScreen (appendNumber (char ch) c) = false /\
  currentOperand (appendNumber (char ch) c) = without_leading_zeros (p +:+ char ch).
Proof.
  intros Hd Hf Hc. unfold appendNumber. rewrite Hf.
  assert (Hn : String.eqb (char ch) "." = false).
  { revert Hd. clear. each_ascii ch; vm_compute; congruence. }
  rewrite Hn. cbn [andb negb]. rewrite andb_true_r, Hc.
  unfold without_leading_zeros.
  destruct (drop_zeros p) as [|c0 t] eqn:Hp.
  - cbn [String.eqb Ascii.eqb Bool.eqb andb currentOperand shouldResetScreen].
    split; [exact Hf|]. rewrite (drop_zeros_all _ _ Hp).
    unfold char. cbn [drop_zeros]. destruct (Ascii.eqb_spec ch "0") as [->|]; reflexivity.
  - assert (H0 : String.eqb (String c0 t) "0" = false).
    { cbn [String.eqb]. rewrite (drop_zeros_head _ _ _ Hp). reflexivity. }
    rewrite H0. cbn [currentOperand shouldResetScreen]. split; [exact Hf|].
    rewrite drop_zeros_some by (rewrite Hp; discriminate).
    rewrite Hp, append_cons. reflexivity.
Qed.

Lemma concat_cons (k : string) (ks : list string) :
  String.concat "" (k :: ks) = k +:+ String.concat "" ks.
Proof.
  cbn [String.concat]. destruct ks; [now rewrite append_nil_r|now rewrite append_nil].
Qed.

(** X2.  Digit keys pressed from the start leave the operand made of
    these digits in the order typed, without the zeros typed first (a lone
    ["0"] when nothing else was typed), and [shouldResetScreen] unset. *)
Theorem keys_digits (ks : list string) :
  Forall (fun k => digit_key k = true) ks ->
  currentOperand (keys ks initial) = without_leading_zeros (String.concat "" ks) /\
  shouldResetScreen (keys ks initial) = false.
Proof.
  intros Hks.
  assert (H : forall (p : string) (c : state),
    shouldResetScreen c = false -> currentOperand c = without_leading_zeros p ->
    currentOperand (keys ks c) = without_leading_zeros (p +:+ String.concat "" ks) /\
    shouldResetScreen (keys ks c) = false).
  { induction Hks as [|k ks Hk _ IH]; intros p c Hf Hc.
    - cbn [keys fold_left String.concat]. rewrite append_nil_r. auto.
    - unfold keys. cbn [fold_left]. rewrite (digit_key_keydown _ _ Hk).
      destruct k as [|ch [|]]; try discriminate. cbn [digit_key] in Hk.
      change (String ch "") with (char ch).
      destruct (appendNumber_digit ch p c Hk Hf Hc) as [Hf' Hc'].
      destruct (IH _ _ Hf' Hc') as [H1 H2]. split; [|exact H2].
      unfold keys in H1. rewrite H1, concat_cons, append_assoc. reflexivity. }
  apply (H ""%string initial); reflexivity.
Qed.

(** The theorem for the keys [0 0 7 0 5]. *)
Lemma keys_digits_witness :
  currentOperand (keys ["0"; "0"; "7"; "0"; "5"]%string initial) = "705"%string /\
  shouldResetScreen (keys ["0"; "0"; "7"; "0"; "5"]%string initial) = false.
Proof.
  apply (keys_digits ["0"; "0"; "7"; "0"; "5"]%string).
  repeat constructor.
Defined.

(** *** Clearing, deleting *)

(** X3.  A token typed after [clear] becomes the operand; but [clear]
    leaves [shouldResetScreen] as it is, so after a computation the point
    typed after [clear] gives ["."], not ["0."], as the keys [= Escape .]
    show. *)
Theorem clear_then_type (number : string) (c : state) :
  currentOperand (appendNumber number (clear c)) =
    (if shouldResetScreen c then number
     else if String.eqb number "." then "0." else number) /\
  currentOperand (keys ["Enter"; "Escape"; "."]%string
     {| currentOperand := "3"; previousOperand := "2"; operation := Some "+"%string;
        shouldResetScreen := false |}) = "."%string.
Proof.
  split; [|vm_compute; reflexivity].
  unfold appendNumber, clear. destruct (shouldResetScreen c);
    cbn [shouldResetScreen currentOperand].
  - change (includes "" ".") with false. rewrite andb_false_r. reflexivity.
  - change (includes "0" ".") with false. rewrite andb_false_r.
    cbn [String.eqb Ascii.eqb Bool.eqb andb].
    destruct (String.eqb_spec number ".") as [->|_]; reflexivity.
Qed.

Lemma slice_last (s : string) :
  (2 <= String.length s)%nat ->
  exists ch, s = slice_0_m1 s +:+ char ch /\
             S (String.length (slice_0_m1 s)) = String.length s.
Proof.
  induction s as [|c s IH]; [cbn; lia|].
  destruct s as [|c' s]; [cbn; lia|]. intros _.
  change (slice_0_m1 (String c (String c' s)))
    with (String c (slice_0_m1 (String c' s))).
  destruct s as [|c'' s].
  - exists c'. split; reflexivity.
  - destruct IH as (ch & H1 & H2); [cbn; lia|].
    exists ch. rewrite append_cons, <- H1. cbn [String.length] in *. split; [reflexivity|lia].
Qed.

(** X4.  [delete] puts ["0"] for an operand of one character and for the
    message of the division by zero; from a longer operand it takes the
    last character away; the empty operand, as it is after an operation
    was chosen, stays empty; no other operand becomes empty. *)
Theorem delete_last_character (c : state) :
  (currentOperand c = div0_message \/ String.length (currentOperand c) = 1%nat ->
   currentOperand (delete c) = "0"%string) /\
  (currentOperand c <> div0_message -> (2 <= String.length (currentOperand c))%nat ->
   exists ch, currentOperand c = currentOperand (delete c) +:+ char ch) /\
  (currentOperand c = ""%string -> delete c = c) /\
  (currentOperand c <> ""%string -> currentOperand (delete c) <> ""%string).
Proof.
  destruct c as [cur prev op flag]. cbn [delete currentOperand previousOperand operation shouldResetScreen].
  split; [|split; [|split]].
  - intros [->| ->]; [reflexivity|]. reflexivity.
  - intros Hm Hl. destruct (Nat.eqb_spec (String.length cur) 1); [lia|].
    destruct (String.eqb_spec cur div0_message); [contradiction|].
    cbn [orb]. destruct (slice_last cur Hl) as (ch & H & _). eauto.
  - intros ->. reflexivity.
  - intros Hne. destruct (_ || _) eqn:E; [discriminate|].
    apply orb_false_elim in E as [E _]. apply Nat.eqb_neq in E.
    destruct cur as [|c0 [|c1 s]]; [contradiction|cbn in E; lia|discriminate].
Qed.

End OperandFacts.

(** ** The calculator: when [compute] acts *)

Module OperandParseFacts.
Import JSString JSStringFacts JSONFacts Calculator CalculatorFacts OperandParse.

Lemma shr_1_nonneg (mrs : shr_record) : 0 <= shr_m mrs -> 0 <= shr_m (shr_1 mrs).
Proof.
  destruct mrs as [m r s]. cbn [shr_m]. intros H.
  destruct m as [|[p|p|]|p]; cbn; lia.
Qed.

Lemma iter_shr_1_nonneg (p : positive) (mrs : shr_record) :
  0 <= shr_m mrs -> 0 <= shr_m (SpecFloat.iter_pos shr_1 p mrs).
Proof.
  revert mrs. induction p as [p IH|p IH|]; intros mrs H; cbn [SpecFloat.iter_pos].
  - apply IH, IH, shr_1_nonneg, H.
  - apply IH, IH, H.
  - apply shr_1_nonneg, H.
Qed.

Lemma shr_fexp_nonneg (m e : Z) (l : location) :
  0 <= m -> 0 <= shr_m (fst (shr_fexp Number.prec Number.emax m e l)).
Proof.
  intros H. unfold shr_fexp, shr.
  assert (H0 : 0 <= shr_m (shr_record_of_loc m l)).
  { destruct l as [|[]]; exact H. }
  destruct (_ - e) as [|p|p]; cbn [fst]; [exact H0| |exact H0].
  now apply iter_shr_1_nonneg.
Qed.

Lemma binary_round_aux_number (sx : bool) (mx ex : Z) (lx : location) :
  0 <= mx ->
  Number.isNaN (binary_round_aux Number.prec Number.emax sx mx ex lx) = false.
Proof.
  intros H. unfold binary_round_aux.
  pose proof (shr_fexp_nonneg mx ex lx H) as H1.
  destruct (shr_fexp Number.prec Number.emax mx ex lx) as [mrs' e']. cbn [fst] in H1.
  assert (H2 : 0 <= round_nearest_even (shr_m mrs') (loc_of_shr_record mrs')).
  { unfold round_nearest_even. destruct (loc_of_shr_record mrs') as [|[]];
      try destruct (Z.even _); lia. }
  pose proof (shr_fexp_nonneg _ e' loc_Exact H2) as H3.
  destruct (shr_fexp Number.prec Number.emax _ e' loc_Exact) as [mrs'' e'']. cbn [fst] in H3.
  destruct (shr_m mrs'') as [|m|m]; [reflexivity| |lia].
  now destruct (_ <=? _).
Qed.

Lemma binary_round_number (sx : bool) (mx : positive) (ex : Z) :
  Number.isNaN (binary_round Number.prec Number.emax sx mx ex) = false.
Proof.
  unfold binary_round. destruct (shl_align _ _ _) as [mz ez].
  apply binary_round_aux_number. lia.
Qed.

Lemma of_decimal_number (neg : bool) (m nd e : Z) :
  Number.isNaN (Number.of_decimal neg m nd e) = false.
Proof.
  unfold Number.of_decimal.
  destruct (Z.leb_spec m 0) as [|Hm]; [reflexivity|].
  destruct (310 <? e); [reflexivity|].
  destruct (nd + e <? -330); [reflexivity|].
  destruct (Z.leb_spec 0 e) as [_|He].
  - destruct (m * 10 ^ e); [reflexivity|apply binary_round_number|reflexivity].
  - set (d := 10 ^ (- e)). set (s := Z.max 0 _).
    destruct (Z.div_eucl (Z.shiftl m s) d) as [q r] eqn:E.
    apply binary_round_aux_number.
    assert (Hq : q = Z.shiftl m s / d).
    { unfold Z.div. now rewrite E. }
    rewrite Hq. apply Z.div_pos.
    + apply Z.shiftl_nonneg. lia.
    + unfold d. apply Z.pow_pos_nonneg; lia.
Qed.

(** [parseFloat] gives [NaN] exactly for a text that does not start with a
    literal. *)
Lemma parseFloat_numeric (s : string) :
  Number.isNaN (Number.parseFloat s) = negb (numeric s).
Proof.
  unfold Number.parseFloat, numeric.
  set (t := Number.trim_start s).
  assert (E : forall u neg,
    Number.isNaN match Number.scan_unsigned u with
                 | Some l => Number.literal_value neg l
                 | None => Number.NaN
                 end
    = negb match Number.scan_unsigned u with Some _ => true | None => false end).
  { intros u neg. destruct (Number.scan_unsigned u) as [[|i f e]|]; try reflexivity.
    apply of_decimal_number. }
  destruct t as [|c t']; [apply E|].
  revert c. intros c.
  destruct (Ascii.eqb_spec c "+") as [->|H1]; [apply E|].
  destruct (Ascii.eqb_spec c "-") as [->|H2]; [apply E|].
  assert (Hc : match String c t' with
               | String "+" u => (false, u)
               | String "-" u => (true, u)
               | _ => (false, String c t')
               end = (false, String c t')).
  { revert H1 H2. clear. each_ascii c; try reflexivity; intros H1 H2; congruence. }
  assert (Hu : match String c t' with
               | String "+" u => u
               | String "-" u => u
               | _ => String c t'
               end = String c t').
  { revert H1 H2. clear. each_ascii c; try reflexivity; intros H1 H2; congruence. }
  rewrite Hc, Hu. apply E.
Qed.

Lemma apply_operation_known (op : option string) (prev current : spec_float) :
  match apply_operation op prev current with Some _ => true | None => false end
  = known op.
Proof.
  unfold apply_operation, known. destruct op as [o|]; [|reflexivity].
  cbn [existsb]. rewrite orb_false_r.
  destruct (String.eqb o "+"); [reflexivity|].
  destruct (String.eqb o "-"); [reflexivity|]. cbn [orb].
  destruct (String.eqb o (char times_sign)), (String.eqb o "*"); try reflexivity.
  cbn [orb].
  destruct (String.eqb o (char division_sign)), (String.eqb o "/"); cbn [orb];
    try reflexivity; now destruct (Number.is_zero current).
Qed.

Lemma completes_numeric (c : state) :
  completes c
  = numeric (previousOperand c) && numeric (currentOperand c) && known (operation c).
Proof.
  unfold completes. rewrite !parseFloat_numeric, apply_operation_known.
  now destruct (numeric (previousOperand c)), (numeric (currentOperand c)).
Qed.

Lemma numeric_digit (d : ascii) (s : string) :
  is_digit d = true -> numeric (String d s) = true.
Proof.
  intros Hd. unfold numeric. cbn [Number.trim_start].
  assert (Hw : Number.is_white_space d = false)
    by (revert Hd; clear; each_ascii d; vm_compute; congruence).
  rewrite Hw.
  assert (Hu : match String d s with
               | String "+" u => u
               | String "-" u => u
               | _ => String d s
               end = String d s)
    by (revert Hd; clear; each_ascii d; vm_compute; congruence).
  rewrite Hu. unfold Number.scan_unsigned.
  assert (Hi : starts_with "Infinity" (String d s) = false)
    by (revert Hd; clear; each_ascii d; vm_compute; congruence).
  rewrite Hi. cbn [take_digits]. rewrite Hd.
  destruct (take_digits s) as [ds rest].
  now destruct (match rest with String "." s1' => take_digits s1' | _ => (""%string, rest) end).
Qed.

Lemma compute_twice (c : state) : compute (compute c) = compute c.
Proof.
  destruct (completes c) eqn:H.
  - apply compute_completes in H as (Hp & _ & _).
    unfold compute at 1. rewrite Hp. reflexivity.
  - rewrite !(compute_not_completes _ H). reflexivity.
Qed.

(** X5.  [compute] acts exactly when both operands start with a number and
    the operation is one of the six signs: it then sets [shouldResetScreen]
    and empties the previous operand and the operation; otherwise it
    changes nothing.  An operand that starts with a digit is a number; the
    empty operand, the lone point and the message of the division by zero
    are not.  A second [compute] never acts. *)
Theorem compute_acts_on_numbers (c : state) :
  let acts :=
    numeric (previousOperand c) && numeric (currentOperand c) && known (operation c) in
  (acts = true ->
   previousOperand (compute c) = ""%string /\ operation (compute c) = None /\
   shouldResetScreen (compute c) = true) /\
  (acts = false -> compute c = c) /\
  compute (compute c) = compute c /\
  (forall (d : ascii) (s : string), is_digit d = true -> numeric (String d s) = true) /\
  numeric "" = false /\ numeric "." = false /\ numeric div0_message = false.
Proof.
  cbv zeta. rewrite <- completes_numeric.
  split; [apply compute_completes|]. split; [apply compute_not_completes|].
  split; [apply compute_twice|].
  split; [apply numeric_digit|]. repeat split.
Qed.

End OperandParseFacts.

(** ** The dynamic list: calls in a row *)

Module DynamicListCallsFacts.
Import JSString JSStringFacts JSONFacts DynamicList DynamicListFacts DynamicListCalls.

Section HostFacts.

Variable toLocaleDateString : string -> string.
Variable toISOString : Z -> string.


Lemma forEach_hidden (e m : string) (l : list ListItem) (b : Browser) (el : Element) :
  document b !! m = Some el ->
  exists el',
    document
      (fold_left
         (fun b item =>
            let '(itemElement, b') := createItemElement toLocaleDateString item b in
            appendChild e itemElement b') l b) !! m = Some el' /\
    hidden el' = hidden el.
Proof.
  revert b el. induction l as [|item l IH]; intros b el Hel; [eauto|].
  cbn [fold_left].
  set (b1 := let '(itemElement, b') := createItemElement toLocaleDateString item b in
             appendChild e itemElement b').
  assert (H1 : exists el1, document b1 !! m = Some el1 /\ hidden el1 = hidden el).
  { unfold b1, appendChild. cbn [createItemElement set_document document].
    rewrite lookup_alter. destruct (decide (e = m)) as [->|_]; [|eauto].
    rewrite Hel. eexists. split; reflexivity. }
  destruct H1 as (el1 & H1 & Hh). destruct (IH b1 el1 H1) as (el' & H & Hh').
  exists el'. split; [exact H|congruence].
Qed.

Lemma render_message (d : state) (b : Browser) (e m : string) :
  container d = Some e -> emptyMessage d = Some m -> is_Some (document b !! m) ->
  message_hidden d (render toLocaleDateString d b) = Some (negb (bool_decide (items d = []))).
Proof.
  intros Hc Hm [el Hel]. unfold message_hidden, DynamicList.render. rewrite Hc, Hm.
  set (b1 := set_document _ b).
  assert (H1 : exists el1, document b1 !! m = Some el1).
  { unfold b1. cbn [set_document document]. rewrite lookup_alter.
    destruct (decide (e = m)) as [->|_]; rewrite Hel; eauto. }
  destruct H1 as (el1 & H1).
  destruct (items d) as [|item l].
  - unfold showEmptyMessage, set_hidden. rewrite Hm. cbn [set_document document].
    rewrite lookup_alter_eq, H1. reflexivity.
  - assert (H2 : document (hideEmptyMessage d b1) !! m
                 = Some {| hidden := true; children := children el1 |}).
    { unfold hideEmptyMessage, set_hidden. rewrite Hm. cbn [set_document document].
      rewrite lookup_alter_eq, H1. reflexivity. }
    destruct (forEach_hidden e m (item :: l) _ _ H2) as (el' & H & Hh).
    rewrite H. cbn. rewrite Hh. reflexivity.
Qed.

(** X6.  After [render] on a list that has its container, the message of
    the empty list is shown exactly when the list is empty: [render] removes
    the class [hidden] from it for an empty list and adds it otherwise. *)
Theorem render_message_iff_empty (d : state) (b : Browser) (e m : string) :
  container d = Some e -> emptyMessage d = Some m -> is_Some (document b !! m) ->
  message_hidden d (render toLocaleDateString d b)
  = Some (negb (bool_decide (items d = []))).
Proof. apply render_message. Qed.

(** *** Loading what the methods saved *)

Lemma init_loads (cid : string) (d0 : state) (b : Browser) (l : list ListItem) :
  is_Some (document b !! cid) ->
  localStorage b !! storage_key = Some (serialize l) ->
  forallb valid_item l = true ->
  exists s, init toLocaleDateString cid d0 b = Normal s /\ items (fst s) = l /\
            container (fst s) = Some cid /\
            snd s = render toLocaleDateString (fst s) b.
Proof.
  intros [el Hel] Hs Hv. unfold init. cbn [container]. rewrite Hel, Hs.
  rewrite serialize_not_empty, (parse_serialize _ Hv), items_of_json_to_json.
  eexists. repeat split.
Qed.

Lemma render_keeps_clock (d : state) (b : Browser) :
  clock (render toLocaleDateString d b) = clock b.
Proof.
  unfold render, showEmptyMessage, hideEmptyMessage.
  destruct (container d) as [c|]; [|reflexivity].
  assert (Hh : forall h b0, clock (set_hidden h d b0) = clock b0).
  { intros h b0. unfold set_hidden. now destruct (emptyMessage d). }
  destruct (items d) as [|x l0]; [now rewrite Hh|].
  generalize (x :: l0). intros l1.
  assert (Hf : forall b0, clock (fold_left
     (fun b item =>
        let '(itemElement, b') := createItemElement toLocaleDateString item b in
        appendChild c itemElement b') l1 b0) = clock b0).
  { induction l1 as [|y l1 IH]; intros b0; [reflexivity|].
    cbn [fold_left]. now rewrite IH. }
  now rewrite Hf, Hh.
Qed.


(** X8.  [clearAll] empties the list, saves the empty array, removes the
    cards and shows the message of the empty list; [init] on the page it
    leaves starts with the empty list. *)
Theorem clearAll_empties (d d0 : state) (b : Browser) (e : string) :
  container d = Some e -> is_Some (document b !! e) ->
  let r := clearAll toLocaleDateString d b in
  items (fst r) = [] /\
  localStorage (snd r) !! storage_key = Some "[]"%string /\
  rendered e (snd r) = [] /\
  (forall m, emptyMessage d = Some m -> is_Some (document b !! m) ->
             message_hidden (fst r) (snd r) = Some false) /\
  (exists s, init toLocaleDateString e d0 (snd r) = Normal s /\ items (fst s) = []).
Proof.
  intros Hc He. cbv zeta. unfold clearAll. cbn [fst snd].
  set (d1 := set_items [] d). set (b1 := saveToLocalStorage d1 b).
  change (container d1 = Some e) in Hc.
  assert (Hs : localStorage (render toLocaleDateString d1 b1) !! storage_key
               = Some (serialize [])).
  { rewrite render_keeps_storage. apply lookup_insert_eq. }
  split; [reflexivity|]. split; [exact Hs|]. split; [|split].
  - destruct (render_cards toLocaleDateString d1 b1 e Hc He) as [H _].
    now apply map_eq_nil in H.
  - intros m Hm Hb. now rewrite (render_message d1 b1 e m Hc Hm Hb).
  - destruct (init_loads e d0 (render toLocaleDateString d1 b1) [])
      as (s & H1 & H2 & _); [|exact Hs|reflexivity|eauto].
    now apply render_keeps_elements.
Qed.

(** *** Any calls, then a new page *)

Lemma run_call_invariant (c : call) (s : state * Browser) (e : string) :
  container (fst s) = Some e -> is_Some (document (snd s) !! e) ->
  (forall n, JSON.safe_integer (clock (snd s) n) = true) ->
  forallb valid_item (items (fst s)) = true ->
  let s' := run_call toLocaleDateString toISOString c s in
  container (fst s') = Some e /\ is_Some (document (snd s') !! e) /\
  (forall n, JSON.safe_integer (clock (snd s') n) = true) /\
  forallb valid_item (items (fst s')) = true /\
  localStorage (snd s') !! storage_key = Some (serialize (items (fst s'))).
Proof.
  destruct s as [d b]. cbn [fst snd]. intros Hc He Hk Hv. cbv zeta.
  destruct c as [itemData|itemId|]; cbn [run_call fst snd];
    unfold addItem, removeItem, clearAll; cbn [fst snd set_items container items].
  - repeat split; [exact Hc|now apply render_keeps_elements| | |].
    + intros n. rewrite render_keeps_clock. apply Hk.
    + cbn [forallb]. rewrite Hv, andb_true_r. unfold valid_item. cbn [id]. apply Hk.
    + rewrite render_keeps_storage. apply lookup_insert_eq.
  - repeat split; [exact Hc|now apply render_keeps_elements| | |].
    + intros n. rewrite render_keeps_clock. apply Hk.
    + apply forallb_forall. intros x Hx. apply filter_In in Hx as [Hx _].
      rewrite forallb_forall in Hv. now apply Hv.
    + rewrite render_keeps_storage. apply lookup_insert_eq.
  - repeat split; [exact Hc|now apply render_keeps_elements| |].
    + intros n. rewrite render_keeps_clock. apply Hk.
    + rewrite render_keeps_storage. apply lookup_insert_eq.
Qed.

(** X9.  Whatever calls of [addItem], [removeItem] and [clearAll] were
    made, at least one, with a clock whose readings are safe integers,
    [init] on the page they leave loads the list as the calls left it, and
    shows a card for each of its items. *)
Theorem reload_after_calls (c : call) (cs : list call) (d d0 : state) (b : Browser) (e : string) :
  container d = Some e -> is_Some (document b !! e) ->
  (forall n, JSON.safe_integer (clock b n) = true) ->
  forallb valid_item (items d) = true ->
  let s := run toLocaleDateString toISOString (c :: cs) (d, b) in
  exists s', init toLocaleDateString e d0 (snd s) = Normal s' /\
             items (fst s') = items (fst s) /\
             map descriptor (rendered e (snd s'))
               = map (item_descriptor toLocaleDateString) (items (fst s)).
Proof.
  intros Hc He Hk Hv. cbv zeta. unfold run. cbn [fold_left].
  destruct (run_call_invariant c (d, b) e Hc He Hk Hv) as (Hc1 & He1 & Hk1 & Hv1 & Hs1).
  revert Hc1 He1 Hk1 Hv1 Hs1.
  generalize (run_call toLocaleDateString toISOString c (d, b)). clear.
  induction cs as [|c' cs IH]; intros s Hc He Hk Hv Hs.
  - cbn [fold_left].
    destruct (init_loads e d0 (snd s) _ He Hs Hv) as (s' & H1 & H2 & H3 & H4).
    exists s'. split; [exact H1|]. split; [exact H2|].
    rewrite H4, <- H2. now apply render_cards.
  - cbn [fold_left].
    destruct (run_call_invariant c' s e Hc He Hk Hv) as (Hc1 & He1 & Hk1 & Hv1 & Hs1).
    now apply IH.
Qed.

End HostFacts.


(** The theorem for a list of one item and for the empty list. *)
Lemma render_message_iff_empty_witness :
  message_hidden (listed [sample_item 7 "uno"])
    (render (fun s => s) (listed [sample_item 7 "uno"]) (page None (fun n => n) (fun _ => 0)))
  = Some true /\
  message_hidden (listed [])
    (render (fun s => s) (listed []) (page None (fun n => n) (fun _ => 0)))
  = Some false.
Proof.
  split.
  - apply (render_message_iff_empty (fun s => s) (listed [sample_item 7 "uno"]) _
             "lista-dinamica" "lista-vacia-msg"); try reflexivity.
    eexists. reflexivity.
  - apply (render_message_iff_empty (fun s => s) (listed []) _
             "lista-dinamica" "lista-vacia-msg"); try reflexivity.
    eexists. reflexivity.
Defined.

(** The theorem for a list of two items on the page of the site. *)
Lemma clearAll_empties_witness :
  let d := listed [sample_item 7 "uno"; sample_item 8 "dos"] in
  let b := page None (fun n => n) (fun _ => 0) in
  let r := clearAll (fun s => s) d b in
  items (fst r) = [] /\
  localStorage (snd r) !! storage_key = Some "[]"%string /\
  rendered "lista-dinamica" (snd r) = [] /\
  (forall m, emptyMessage d = Some m -> is_Some (document b !! m) ->
             message_hidden (fst r) (snd r) = Some false) /\
  (exists s, init (fun s => s) "lista-dinamica" initial (snd r) = Normal s /\
             items (fst s) = []).
Proof.
  apply (clearAll_empties (fun s => s)).
  - reflexivity.
  - eexists. reflexivity.
Defined.

(** The theorem for three items added and one removed. *)
Lemma reload_after_calls_witness :
  let data t := {| data_title := Some t; data_description := None;
                   data_value := None |} in
  let iso := fun _ : Z => "2025-01-01T00:00:00.000Z"%string in
  let b := page None (fun n => n) (fun n => 1735689600000 + Z.of_nat (Nat.min n 50)) in
  let s := run (fun s => s) iso
             [AddItem (data "uno"%string); AddItem (data "dos"%string);
              RemoveItem 1735689600000; AddItem (data "tres"%string)]
             (listed [], b) in
  exists s', init (fun s => s) "lista-dinamica" initial (snd s) = Normal s' /\
             items (fst s') = items (fst s) /\
             map descriptor (rendered "lista-dinamica" (snd s'))
               = map (item_descriptor (fun s => s)) (items (fst s)).
Proof.
  apply (reload_after_calls (fun s => s)).
  - reflexivity.
  - eexists. reflexivity.
  - intros n. unfold JSON.safe_integer. cbn [page clock].
    apply Z.ltb_lt. change (2 ^ 53) with 9007199254740992. lia.
  - reflexivity.
Defined.

End DynamicListCallsFacts.

(** ** The carousel *)

Module ImageCarouselFacts.
Import ImageCarousel.

Lemma map_false (l : list bool) : map (fun _ => false) l = replicate (length l) false.
Proof. induction l as [|x l IH]; [reflexivity|]. cbn. now rewrite IH. Qed.

Lemma imap_only (l : list bool) (ci : Z) :
  0 <= ci ->
  imap (fun index _ => Z.of_nat index =? ci) l = only (length l) ci.
Proof.
  intros Hci. apply list_eq. intros i. unfold only.
  rewrite list_lookup_imap, list_lookup_insert, length_replicate.
  destruct (decide _) as [[Hi Hlt]|Hn].
  - destruct (lookup_lt_is_Some_2 l i) as [x ->]; [lia|]. cbn.
    f_equal. apply Z.eqb_eq. lia.
  - destruct (l !! i) as [x|] eqn:Hl.
    + apply lookup_lt_Some in Hl. rewrite lookup_replicate_2 by exact Hl. cbn.
      f_equal. apply Z.eqb_neq. intros E. apply Hn. split; lia.
    + apply lookup_ge_None in Hl. symmetry. apply lookup_replicate_None. exact Hl.
Qed.

Lemma length_only (n : nat) (i : Z) : length (only n i) = n.
Proof. unfold only. now rewrite length_insert, length_replicate. Qed.

Lemma showSlide_items (index : Z) (s : state) :
  items s <> [] ->
  showSlide index s =
    let len := Z.of_nat (length (items s)) in
    let ci := Z.rem (index + len) len in
    let s1 := set_slide ci (map (fun _ => false) (items s)) s in
    if (0 <=? ci) && (ci <? len) then
      Normal (updateIndicators (set_slide ci (<[Z.to_nat ci := true]> (items s1)) s1))
    else Throw TypeError s1.
Proof. unfold showSlide. destruct (items s); [contradiction|reflexivity]. Qed.

Lemma rem_below (a len : Z) : 0 < len -> Z.rem a len < len.
Proof.
  intros H. destruct (Z_lt_le_dec a 0).
  - pose proof (Z.rem_bound_pos_neg a len). lia.
  - pose proof (Z.rem_bound_pos a len). lia.
Qed.

Lemma length_pos (s : state) : items s <> [] -> 0 < Z.of_nat (length (items s)).
Proof. destruct (items s); [contradiction|cbn [length]; lia]. Qed.

(** The state [showSlide] leaves when it does not throw. *)
Lemma showSlide_normal (index : Z) (s : state) :
  items s <> [] -> aligned s ->
  let len := Z.of_nat (length (items s)) in
  0 <= Z.rem (index + len) len ->
  showSlide index s = Normal (at_index (Z.rem (index + len) len) s).
Proof.
  intros Hne Hal len Hr. rewrite (showSlide_items _ _ Hne). cbv zeta.
  fold len. set (ci := Z.rem (index + len) len) in *.
  assert (Hlt : ci < len) by (apply rem_below, length_pos, Hne).
  replace ((0 <=? ci) && (ci <? len)) with true
    by (symmetry; apply andb_true_intro; split; [apply Z.leb_le|apply Z.ltb_lt]; lia).
  unfold updateIndicators, set_slide, at_index. cbn [items indicatorsContainer currentIndex
    interval isPlaying container set_indicators].
  rewrite map_false. fold (only (length (items s)) ci).
  destruct (indicatorsContainer s) as [l|] eqn:Hl; [|reflexivity].
  rewrite (imap_only l ci Hr), (Hal l Hl). reflexivity.
Qed.

Lemma at_index_shows (j : Z) (s : state) :
  0 <= j < Z.of_nat (length (items s)) -> shows_current (at_index j s).
Proof.
  intros Hj. unfold shows_current, at_index. cbn [currentIndex items indicatorsContainer].
  rewrite length_only. split; [exact Hj|]. split; [reflexivity|].
  intros l. destruct (indicatorsContainer s); [|discriminate]. now intros [= <-].
Qed.

Lemma shows_at_index (s : state) : shows_current s -> s = at_index (currentIndex s) s.
Proof.
  intros (_ & Hi & Hl). destruct s as [ci l i p c ind]. unfold at_index.
  cbn [currentIndex items indicatorsContainer interval isPlaying container] in *.
  rewrite <- Hi. destruct ind as [l'|]; [|reflexivity]. now rewrite (Hl l' eq_refl).
Qed.

Lemma shows_aligned (s : state) : shows_current s -> aligned s.
Proof. intros (_ & _ & Hl) l H. now rewrite (Hl l H). Qed.

Lemma shows_not_empty (s : state) : shows_current s -> items s <> [].
Proof. intros ([H1 H2] & _) E. rewrite E in H2. cbn in H2. lia. Qed.

Lemma at_index_aligned (j : Z) (s : state) : aligned (at_index j s).
Proof.
  intros l. unfold at_index. cbn [indicatorsContainer items].
  destruct (indicatorsContainer s); [|discriminate]. now intros [= <-].
Qed.

Lemma at_index_at_index (i j : Z) (s : state) :
  at_index i (at_index j s) = at_index i s.
Proof.
  unfold at_index. cbn [items indicatorsContainer interval isPlaying container].
  rewrite length_only. now destruct (indicatorsContainer s).
Qed.

Lemma showSlide_at_index (index j : Z) (s : state) :
  items s <> [] ->
  let len := Z.of_nat (length (items s)) in
  - len <= index ->
  showSlide index (at_index j s) = Normal (at_index (index mod len) s).
Proof.
  intros Hne len Hi. pose proof (length_pos s Hne) as Hlen. fold len in Hlen.
  assert (Hl : length (items (at_index j s)) = length (items s))
    by apply length_only.
  assert (Hr : Z.rem (index + len) len = index mod len).
  { rewrite Z.rem_mod_nonneg by lia.
    replace (index + len) with (index + 1 * len) by lia. apply Z.mod_add. lia. }
  rewrite showSlide_normal.
  - rewrite Hl. fold len. rewrite Hr. f_equal. apply at_index_at_index.
  - intros E. apply (f_equal (@length bool)) in E. rewrite Hl in E.
    cbn [length] in E. unfold len in Hlen. lia.
  - apply at_index_aligned.
  - rewrite Hl. fold len. rewrite Hr. apply Z.mod_pos_bound. lia.
Qed.

Lemma showSlide_inside (index : Z) (s : state) :
  items s <> [] -> aligned s -> - Z.of_nat (length (items s)) <= index ->
  exists s', showSlide index s = Normal s' /\
    shows_current s' /\
    currentIndex s' = index mod Z.of_nat (length (items s)) /\
    length (items s') = length (items s) /\
    interval s' = interval s /\ isPlaying s' = isPlaying s.
Proof.
  intros Hne Hal Hi. pose proof (length_pos s Hne) as Hlen.
  set (len := Z.of_nat (length (items s))) in *.
  assert (Hr : Z.rem (index + len) len = index mod len).
  { rewrite Z.rem_mod_nonneg by lia.
    replace (index + len) with (index + 1 * len) by lia. apply Z.mod_add. lia. }
  pose proof (Z.mod_pos_bound index len Hlen) as Hb.
  exists (at_index (index mod len) s). split; [|split; [|split; [|split]]].
  - rewrite <- Hr. apply showSlide_normal; [exact Hne|exact Hal|]. fold len. lia.
  - apply at_index_shows. exact Hb.
  - reflexivity.
  - apply length_only.
  - split; reflexivity.
Qed.

(** X10.  On a carousel with slides, [showSlide] with an index from
    [-length] on, small enough for its sum with the length to be at most
    [2^53], shows the slide of that index counted round the carousel: that
    slide alone is active, its indicator alone is marked, and the timer
    fields are untouched. *)
Theorem showSlide_shows_current (index : Z) (s : state) :
  items s <> [] -> aligned s -> - Z.of_nat (length (items s)) <= index ->
  exact_sum index s ->
  exists s', showSlide index s = Normal s' /\
    shows_current s' /\
    currentIndex s' = index mod Z.of_nat (length (items s)) /\
    length (items s') = length (items s) /\
    interval s' = interval s /\ isPlaying s' = isPlaying s.
Proof. intros Hne Hal Hi _. now apply showSlide_inside. Qed.

(** X11.  For an index and a sum from [-2^53] to [2^53], [showSlide]
    throws exactly when the index is below [-length] and no multiple of the
    length, the remainder being negative then; it has set a negative index
    and left no slide active.  On a carousel without slides it returns at
    once. *)
Theorem showSlide_throws (index : Z) (s : state) :
  exact_sum index s ->
  let len := Z.of_nat (length (items s)) in
  (items s = [] -> showSlide index s = Normal s) /\
  (items s <> [] ->
   ((exists s', showSlide index s = Throw TypeError s')
    <-> index < - len /\ ~ (len | index))) /\
  (forall s', showSlide index s = Throw TypeError s' ->
     currentIndex s' < 0 /\
     items s' = replicate (length (items s)) false /\
     indicatorsContainer s' = indicatorsContainer s).
Proof.
  intros _ len. split; [|split].
  - intros H. unfold showSlide. now rewrite H.
  - intros Hne. pose proof (length_pos s Hne) as Hlen. fold len in Hlen.
    rewrite (showSlide_items _ _ Hne). cbv zeta. fold len.
    pose proof (rem_below (index + len) len Hlen) as Hlt.
    assert (Hd : (len | index) <-> Z.rem (index + len) len = 0).
    { rewrite Z.rem_divide by lia. split.
      - intros [k ->]. exists (k + 1). lia.
      - intros [k Hk]. exists (k - 1). lia. }
    destruct (Z.leb_spec 0 (Z.rem (index + len) len)) as [Hge|Hneg]; cbn [andb].
    + replace (Z.rem (index + len) len <? len) with true by (symmetry; apply Z.ltb_lt; lia).
      split; [intros [s' H]; discriminate|].
      intros [Hi Hnd]. exfalso.
      pose proof (Z.rem_bound_pos_neg (index + len) len Hlen). 
      apply Hnd, Hd. lia.
    + split; [|eauto]. intros _.
      split; [|rewrite Hd; lia].
      destruct (Z_lt_le_dec index (- len)); [assumption|].
      pose proof (Z.rem_bound_pos (index + len) len). lia.
  - intros s'. unfold showSlide. destruct (items s) as [|x l] eqn:Hi; [discriminate|].
    rewrite <- Hi. cbv zeta. destruct (_ && _) eqn:E; [discriminate|].
    intros [= <-]. cbn [set_slide currentIndex items indicatorsContainer].
    rewrite map_false. split; [|auto].
    apply andb_false_iff in E.
    pose proof (rem_below (index + Z.of_nat (length (items s))) (Z.of_nat (length (items s)))).
    assert (0 < Z.of_nat (length (items s))) by (rewrite Hi; cbn [length]; lia).
    destruct E as [E|E]; [apply Z.leb_gt in E|apply Z.ltb_ge in E]; lia.
Qed.

Lemma times_next (s : state) (k : nat) (j : Z) :
  items s <> [] -> 0 <= j ->
  times k nextSlide (at_index j s)
  = Normal (at_index (match k with O => j | _ => (j + Z.of_nat k) mod Z.of_nat (length (items s)) end) s).
Proof.
  intros Hne. pose proof (length_pos s Hne) as Hlen.
  revert j. induction k as [|k IH]; intros j Hj; [reflexivity|].
  cbn [times]. unfold nextSlide at 1.
  change (currentIndex (at_index j s)) with j.
  rewrite showSlide_at_index by (try exact Hne; lia).
  pose proof (Z.mod_pos_bound (j + 1) _ Hlen).
  rewrite IH by lia.
  set (len := Z.of_nat (length (items s))) in *.
  assert (E : match k with
              | O => (j + 1) mod len
              | _ => ((j + 1) mod len + Z.of_nat k) mod len
              end = (j + Z.of_nat (S k)) mod len).
  { destruct k as [|k]; [f_equal; lia|].
    rewrite Zplus_mod_idemp_l. f_equal. lia. }
  now rewrite E.
Qed.

Lemma next_at_index (j : Z) (s : state) :
  items s <> [] -> 0 <= j ->
  nextSlide (at_index j s)
  = Normal (at_index ((j + 1) mod Z.of_nat (length (items s))) s).
Proof.
  intros Hne Hj. unfold nextSlide. change (currentIndex (at_index j s)) with j.
  apply showSlide_at_index; [exact Hne|lia].
Qed.

Lemma prev_at_index (j : Z) (s : state) :
  items s <> [] -> 0 <= j ->
  prevSlide (at_index j s)
  = Normal (at_index ((j - 1) mod Z.of_nat (length (items s))) s).
Proof.
  intros Hne Hj. unfold prevSlide. change (currentIndex (at_index j s)) with j.
  pose proof (length_pos s Hne). apply showSlide_at_index; [exact Hne|lia].
Qed.

(** X12.  The slides go round: on a carousel that shows its current
    slide, [prevSlide] undoes [nextSlide] and the other way round, and as
    many [nextSlide] as there are slides lead back to the same state. *)
Theorem slides_go_round (s : state) :
  shows_current s ->
  (exists s1, nextSlide s = Normal s1 /\ prevSlide s1 = Normal s) /\
  (exists s1, prevSlide s = Normal s1 /\ nextSlide s1 = Normal s) /\
  times (length (items s)) nextSlide s = Normal s.
Proof.
  intros Hs. pose proof (shows_not_empty s Hs) as Hne.
  pose proof (length_pos s Hne) as Hlen.
  pose proof (shows_at_index s Hs) as Hat. destruct Hs as (Hci & _).
  set (len := Z.of_nat (length (items s))) in *.
  set (ci := currentIndex s) in *.
  assert (G :
    (exists s1, nextSlide (at_index ci s) = Normal s1 /\
                prevSlide s1 = Normal (at_index ci s)) /\
    (exists s1, prevSlide (at_index ci s) = Normal s1 /\
                nextSlide s1 = Normal (at_index ci s)) /\
    times (length (items s)) nextSlide (at_index ci s) = Normal (at_index ci s)).
  { pose proof (Z.mod_pos_bound (ci + 1) len Hlen).
    pose proof (Z.mod_pos_bound (ci - 1) len Hlen).
    split; [|split].
    - eexists. split; [apply next_at_index; [exact Hne|lia]|].
      rewrite prev_at_index by (try exact Hne; fold len; lia). fold len.
      do 2 f_equal. rewrite Zminus_mod_idemp_l.
      replace (ci + 1 - 1) with ci by lia. apply Z.mod_small. lia.
    - eexists. split; [apply prev_at_index; [exact Hne|lia]|].
      rewrite next_at_index by (try exact Hne; fold len; lia). fold len.
      do 2 f_equal. rewrite Zplus_mod_idemp_l.
      replace (ci - 1 + 1) with ci by lia. apply Z.mod_small. lia.
    - rewrite times_next by (try exact Hne; lia). do 2 f_equal.
      destruct (length (items s)) eqn:E; [cbn in Hlen; lia|]. fold len.
      replace (ci + len) with (ci + 1 * len) by lia.
      rewrite Z.mod_add by lia. apply Z.mod_small. lia. }
  rewrite <- Hat in G. exact G.
Qed.

(** *** The timer *)

Lemma pauseAutoPlay_one_timer (sb : state * Browser) :
  one_timer sb ->
  one_timer (pauseAutoPlay sb) /\ isPlaying (fst (pauseAutoPlay sb)) = false /\
  at_index (currentIndex (fst sb)) (fst (pauseAutoPlay sb))
  = at_index (currentIndex (fst sb)) (set_playing None false (fst sb)).
Proof.
  destruct sb as [s b]. unfold one_timer, pauseAutoPlay. cbn [fst snd].
  intros [Ht Hp]. destruct (interval s) as [i|] eqn:Hi; cbn [fst snd].
  - cbn [set_playing interval isPlaying clearInterval timers].
    split; [|auto]. split; [rewrite Ht; apply difference_diag_L|].
    split; [discriminate|]. intros [x Hx]. discriminate.
  - split; [rewrite Hi; auto|].
    assert (Hf : isPlaying s = false).
    { destruct (isPlaying s); [|reflexivity]. destruct Hp as [Hp _].
      destruct (Hp eq_refl) as [x Hx]. discriminate. }
    split; [exact Hf|]. unfold at_index, set_playing.
    cbn [items interval isPlaying container indicatorsContainer]. now rewrite Hi, Hf.
Qed.

Lemma startAutoPlay_one_timer (sb : state * Browser) :
  one_timer sb ->
  one_timer (startAutoPlay sb) /\ isPlaying (fst (startAutoPlay sb)) = true.
Proof.
  destruct sb as [s b]. unfold one_timer, startAutoPlay, setInterval. cbn [fst snd].
  intros [Ht Hp]. cbn [set_playing interval isPlaying timers].
  split; [|reflexivity]. split; [|split; eauto].
  destruct (interval s) as [i|]; cbn [clearInterval timers]; rewrite Ht,
    ?difference_diag_L; apply union_empty_r_L.
Qed.

Lemma startAutoPlay_slides (sb : state * Browser) :
  currentIndex (fst (startAutoPlay sb)) = currentIndex (fst sb) /\
  items (fst (startAutoPlay sb)) = items (fst sb) /\
  indicatorsContainer (fst (startAutoPlay sb)) = indicatorsContainer (fst sb).
Proof. destruct sb as [s b]. unfold startAutoPlay. cbn. auto. Qed.

Lemma pauseAutoPlay_slides (sb : state * Browser) :
  currentIndex (fst (pauseAutoPlay sb)) = currentIndex (fst sb) /\
  items (fst (pauseAutoPlay sb)) = items (fst sb) /\
  indicatorsContainer (fst (pauseAutoPlay sb)) = indicatorsContainer (fst sb).
Proof.
  destruct sb as [s b]. unfold pauseAutoPlay. destruct (interval s); cbn; auto.
Qed.

Lemma shows_current_slides (s s' : state) :
  currentIndex s' = currentIndex s -> items s' = items s ->
  indicatorsContainer s' = indicatorsContainer s ->
  shows_current s -> shows_current s'.
Proof. unfold shows_current. intros -> -> ->. auto. Qed.

Lemma toggleAutoPlay_one_timer (sb : state * Browser) :
  one_timer sb ->
  one_timer (toggleAutoPlay sb) /\
  isPlaying (fst (toggleAutoPlay sb)) = negb (isPlaying (fst sb)).
Proof.
  intros H. unfold toggleAutoPlay. destruct (isPlaying (fst sb)).
  - destruct (pauseAutoPlay_one_timer sb H) as (H1 & H2 & _). auto.
  - destruct (startAutoPlay_one_timer sb H) as (H1 & H2). auto.
Qed.

(** A slide method keeps the timer, and shows a slide if one was shown. *)
Lemma slide_keeps (index : Z) (sb : state * Browser) :
  shows_current (fst sb) -> one_timer sb ->
  - Z.of_nat (length (items (fst sb))) <= index ->
  exists sb', with_browser (showSlide index) sb = Normal sb' /\
    shows_current (fst sb') /\ one_timer sb' /\
    length (items (fst sb')) = length (items (fst sb)).
Proof.
  intros Hs Ht Hi.
  destruct (showSlide_inside index (fst sb)
              (shows_not_empty _ Hs) (shows_aligned _ Hs) Hi)
    as (s' & H & Hs' & _ & Hl & Hint & Hp).
  exists (s', snd sb). unfold with_browser. rewrite H. split; [reflexivity|].
  split; [exact Hs'|]. split; [|exact Hl].
  unfold one_timer in *. cbn [fst snd]. now rewrite Hint, Hp.
Qed.

Lemma handle_keeps (ev : event) (sb : state * Browser) :
  shows_current (fst sb) -> one_timer sb ->
  exists sb', handle ev sb = Normal sb' /\
    shows_current (fst sb') /\ one_timer sb' /\
    length (items (fst sb')) = length (items (fst sb)).
Proof.
  intros Hs Ht.
  assert (Hpause : shows_current (fst (pauseAutoPlay sb)) /\ one_timer (pauseAutoPlay sb) /\
                   length (items (fst (pauseAutoPlay sb))) = length (items (fst sb))).
  { destruct (pauseAutoPlay_slides sb) as (H1 & H2 & H3).
    split; [now apply (shows_current_slides (fst sb))|].
    split; [now apply pauseAutoPlay_one_timer|now rewrite H2]. }
  assert (Hstart : forall sb0, shows_current (fst sb0) -> one_timer sb0 ->
                   shows_current (fst (startAutoPlay sb0)) /\ one_timer (startAutoPlay sb0) /\
                   length (items (fst (startAutoPlay sb0))) = length (items (fst sb0))).
  { intros sb0 Hs0 Ht0. destruct (startAutoPlay_slides sb0) as (H1 & H2 & H3).
    split; [now apply (shows_current_slides (fst sb0))|].
    split; [now apply startAutoPlay_one_timer|now rewrite H2]. }
  assert (Hbetween : forall index,
            - Z.of_nat (length (items (fst sb))) <= index ->
            exists sb', then_ (with_browser (showSlide index) (pauseAutoPlay sb)) startAutoPlay
                        = Normal sb' /\
              shows_current (fst sb') /\ one_timer sb' /\
              length (items (fst sb')) = length (items (fst sb))).
  { intros index Hi. destruct Hpause as (Hs1 & Ht1 & Hl1).
    destruct (slide_keeps index (pauseAutoPlay sb) Hs1 Ht1) as (sb1 & H & Hs2 & Ht2 & Hl2);
      [rewrite Hl1; exact Hi|].
    rewrite H. cbn [then_]. eexists. split; [reflexivity|].
    destruct (Hstart sb1 Hs2 Ht2) as (H1 & H2 & H3).
    split; [exact H1|]. split; [exact H2|]. now rewrite H3, Hl2, Hl1. }
  assert (Hci : 0 <= currentIndex (fst sb) < Z.of_nat (length (items (fst sb))))
    by apply Hs.
  destruct (pauseAutoPlay_slides sb) as (Hpc & _ & _).
  destruct ev as [| | | |key inside|index|]; cbn [handle].
  - unfold prevSlide. apply (Hbetween (currentIndex (fst (pauseAutoPlay sb)) - 1)).
    rewrite Hpc. lia.
  - unfold nextSlide. apply (Hbetween (currentIndex (fst (pauseAutoPlay sb)) + 1)).
    rewrite Hpc. lia.
  - eexists. split; [reflexivity|]. exact Hpause.
  - eexists. split; [reflexivity|]. now apply Hstart.
  - destruct inside; cbn [negb]; [|eauto].
    destruct (String.eqb key "ArrowLeft"); [apply slide_keeps; auto; lia|].
    destruct (String.eqb key "ArrowRight"); [apply slide_keeps; auto; lia|].
    destruct (String.eqb key " "); [|eauto].
    eexists. split; [reflexivity|]. unfold toggleAutoPlay.
    destruct (isPlaying (fst sb)); [exact Hpause|now apply Hstart].
  - destruct (indicatorsContainer (fst sb)) as [l|]; [|eauto].
    destruct (index <? length l)%nat; [|eauto].
    apply Hbetween. lia.
  - destruct (decide (timers (snd sb) = ∅)); [eauto|].
    apply slide_keeps; auto. lia.
Qed.

(** X13.  Whatever the visitor does (the two buttons, the indicators, the
    arrow keys and the space bar, the mouse entering and leaving, the timer
    ticking), a carousel that shows its current slide never throws, goes on
    showing exactly its current slide, marked by its indicator, and runs at
    most one timer, the one it holds, which runs exactly while
    [isPlaying]. *)
Theorem events_keep_carousel (evs : list event) (sb : state * Browser) :
  shows_current (fst sb) -> one_timer sb ->
  never_throws evs sb /\
  shows_current (fst (run evs sb)) /\
  one_timer (run evs sb) /\
  length (items (fst (run evs sb))) = length (items (fst sb)).
Proof.
  revert sb. induction evs as [|ev evs IH]; intros sb Hs Ht; [cbn; auto|].
  destruct (handle_keeps ev sb Hs Ht) as (sb' & H & Hs' & Ht' & Hl).
  cbn [never_throws run]. rewrite H. rewrite <- Hl. now apply IH.
Qed.

(** *** Starting *)

(** X14.  On a page whose container has slides and where no timer runs,
    [init] of the carousel as declared shows the first slide, makes an
    indicator for each slide and starts the one timer; without the
    container it leaves the carousel as it is, and starts no timer. *)
Theorem init_shows_first (cid : string) (b : Browser) :
  timers b = ∅ ->
  (forall c, document b !! cid = Some c -> slides c <> [] ->
     exists sb, init cid (initial, b) = Normal sb /\
       shows_current (fst sb) /\ currentIndex (fst sb) = 0 /\
       length (items (fst sb)) = length (slides c) /\
       one_timer sb /\ isPlaying (fst sb) = true) /\
  (document b !! cid = None -> init cid (initial, b) = Normal (initial, b)).
Proof.
  intros Hb. split.
  - intros c Hc Hne. unfold init. rewrite Hc.
    set (s2 := createIndicators _).
    assert (Hi : items s2 = slides c).
    { unfold s2, createIndicators. cbn [indicatorsContainer]. now destruct (indicators c). }
    assert (Hal : aligned s2).
    { intros l. unfold s2, createIndicators. cbn [indicatorsContainer].
      destruct (indicators c); cbn; [|discriminate].
      intros [= <-]. now rewrite length_map. }
    assert (Hne2 : items s2 <> []) by now rewrite Hi.
    assert (H0 : currentIndex s2 = 0).
    { unfold s2, createIndicators. cbn [indicatorsContainer]. now destruct (indicators c). }
    destruct (showSlide_inside (currentIndex s2) s2 Hne2 Hal)
      as (s' & H & Hs' & Hci & Hl & Hint & Hp); [rewrite H0; lia|].
    unfold with_browser. cbn [fst snd]. rewrite H. cbn [then_ fst].
    assert (Hplay : isPlaying s' = true).
    { rewrite Hp. unfold s2, createIndicators. cbn [indicatorsContainer].
      now destruct (indicators c). }
    assert (Hnone : interval s' = None).
    { rewrite Hint. unfold s2, createIndicators. cbn [indicatorsContainer].
      now destruct (indicators c). }
    rewrite Hplay. eexists. split; [reflexivity|].
    destruct (startAutoPlay_slides (s', b)) as (H1 & H2 & H3). cbn [fst] in H1, H2, H3.
    split; [now apply (shows_current_slides s')|].
    split; [rewrite H1, Hci, H0; apply Z.mod_0_l; pose proof (length_pos s2 Hne2); lia|].
    split; [rewrite H2; congruence|].
    unfold one_timer, startAutoPlay, setInterval. rewrite Hnone.
    cbn [fst snd set_playing interval isPlaying timers]. rewrite Hb.
    repeat split; eauto. apply union_empty_r_L.
  - intros Hc. unfold init. now rewrite Hc.
Qed.

(** *** Adding a slide *)

(** X15.  [addImage] throws, changing nothing, unless the container is
    set and has a [.carousel-items] element.  Otherwise the new slide comes
    last and is not active, and the indicators are made anew, one more and
    none of them marked, until the next slide is shown; from the slide that
    was last, [nextSlide] now leads to the new one. *)
Theorem addImage_adds_last (s : state) :
  shows_current s ->
  (container s <> Some true -> addImage s = Throw TypeError s) /\
  (container s = Some true ->
   exists s', addImage s = Normal s' /\
     items s' = items s ++ [false] /\
     currentIndex s' = currentIndex s /\
     (forall l, indicatorsContainer s = Some l ->
        indicatorsContainer s' = Some (replicate (S (length l)) false)) /\
     (exists s'', nextSlide s' = Normal s'' /\ shows_current s'' /\
        (currentIndex s = Z.of_nat (length (items s)) - 1 ->
         currentIndex s'' = Z.of_nat (length (items s))))).
Proof.
  intros Hs. split.
  - unfold addImage. destruct (container s) as [[]|]; congruence.
  - intros Hc. unfold addImage. rewrite Hc. eexists. split; [reflexivity|].
    set (s1 := set_slide _ _ s).
    assert (Hi : items (createIndicators s1) = items s ++ [false]).
    { unfold createIndicators. now destruct (indicatorsContainer s1). }
    assert (Hci : currentIndex (createIndicators s1) = currentIndex s).
    { unfold createIndicators. now destruct (indicatorsContainer s1). }
    split; [exact Hi|]. split; [exact Hci|]. split.
    + intros l Hl. unfold createIndicators, s1. cbn [set_slide indicatorsContainer].
      rewrite Hl. cbn [set_indicators indicatorsContainer items].
      rewrite map_false. cbn [set_slide items]. rewrite length_app. cbn [length].
      destruct Hs as (_ & _ & Hal). rewrite <- (Hal l Hl).
      do 2 f_equal. lia.
    + assert (Hal : aligned (createIndicators s1)).
      { intros l. unfold createIndicators.
        destruct (indicatorsContainer s1) eqn:E; cbn [set_indicators indicatorsContainer items].
        - intros [= <-]. now rewrite length_map.
        - rewrite E. discriminate. }
      assert (Hne : items (createIndicators s1) <> []).
      { rewrite Hi. destruct (items s); discriminate. }
      destruct Hs as (Hr & _).
      destruct (showSlide_inside (currentIndex (createIndicators s1) + 1)
                  (createIndicators s1) Hne Hal)
        as (s'' & H & Hs'' & Hci'' & _); [rewrite Hci; lia|].
      exists s''. split; [exact H|]. split; [exact Hs''|].
      intros Hlast. rewrite Hci'', Hci, Hi, length_app. cbn [length].
      rewrite Z.mod_small; lia.
Qed.

(** *** The theorems on the page of three slides *)

Lemma started_shows_current : shows_current (fst started).
Proof.
  unfold shows_current. cbn. repeat split; try lia. now intros l [= <-].
Qed.

Lemma started_one_timer : one_timer started.
Proof. unfold one_timer. cbn. repeat split; eauto. Qed.

(** The theorem for the index [-2] on three slides. *)
Lemma showSlide_shows_current_witness :
  exists s', showSlide (-2) (fst started) = Normal s' /\
    shows_current s' /\
    currentIndex s' = (-2) mod Z.of_nat (length (items (fst started))) /\
    length (items s') = length (items (fst started)) /\
    interval s' = interval (fst started) /\ isPlaying s' = isPlaying (fst started).
Proof.
  apply showSlide_shows_current.
  - discriminate.
  - apply shows_aligned, started_shows_current.
  - cbn. lia.
  - unfold exact_sum. cbn. lia.
Defined.

(** The theorem for the index [-4] on three slides, where [showSlide]
    throws. *)
Lemma showSlide_throws_witness :
  let s := fst started in
  let len := Z.of_nat (length (items s)) in
  (items s = [] -> showSlide (-4) s = Normal s) /\
  (items s <> [] ->
   ((exists s', showSlide (-4) s = Throw TypeError s')
    <-> -4 < - len /\ ~ (len | -4))) /\
  (forall s', showSlide (-4) s = Throw TypeError s' ->
     currentIndex s' < 0 /\
     items s' = replicate (length (items s)) false /\
     indicatorsContainer s' = indicatorsContainer s).
Proof. apply showSlide_throws. unfold exact_sum. cbn. lia. Defined.

Example showSlide_examples :
  map (fun index =>
         match showSlide index (fst started) with
         | Normal s' => (true, currentIndex s')
         | Throw _ s' => (false, currentIndex s')
         end)
    [0; 4; -1; -3; -4; -6; 2 ^ 53 - 3]
  = [(true, 0); (true, 1); (true, 2); (true, 0); (false, -1); (true, 0);
     (true, 2)].
Proof. vm_compute. reflexivity. Qed.

(** The theorem on three slides. *)
Lemma slides_go_round_witness :
  (exists s1, nextSlide (fst started) = Normal s1 /\ prevSlide s1 = Normal (fst started)) /\
  (exists s1, prevSlide (fst started) = Normal s1 /\ nextSlide s1 = Normal (fst started)) /\
  times (length (items (fst started))) nextSlide (fst started) = Normal (fst started).
Proof. apply slides_go_round, started_shows_current. Defined.

(** The theorem for a visit of eleven events. *)
Lemma events_keep_carousel_witness :
  let evs := [ClickNext; Tick; KeyDown " " true; MouseLeave; MouseLeave;
              ClickIndicator 2; ClickPrev; MouseEnter; KeyDown "ArrowLeft" true;
              KeyDown " " true; Tick] in
  never_throws evs started /\
  shows_current (fst (run evs started)) /\
  one_timer (run evs started) /\
  length (items (fst (run evs started))) = length (items (fst started)).
Proof.
  apply events_keep_carousel; [apply started_shows_current|apply started_one_timer].
Defined.

(** The theorem on the page of three slides. *)
Lemma init_shows_first_witness :
  (forall c, document page !! "carousel-container" = Some c -> slides c <> [] ->
     exists sb, init "carousel-container" (initial, page) = Normal sb /\
       shows_current (fst sb) /\ currentIndex (fst sb) = 0 /\
       length (items (fst sb)) = length (slides c) /\
       one_timer sb /\ isPlaying (fst sb) = true) /\
  (document page !! "carousel-container" = None ->
   init "carousel-container" (initial, page) = Normal (initial, page)).
Proof. apply init_shows_first. reflexivity. Defined.

(** The theorem for a slide added to the three. *)
Lemma addImage_adds_last_witness :
  let s := fst started in
  (container s <> Some true -> addImage s = Throw TypeError s) /\
  (container s = Some true ->
   exists s', addImage s = Normal s' /\
     items s' = items s ++ [false] /\
     currentIndex s' = currentIndex s /\
     (forall l, indicatorsContainer s = Some l ->
        indicatorsContainer s' = Some (replicate (S (length l)) false)) /\
     (exists s'', nextSlide s' = Normal s'' /\ shows_current s'' /\
        (currentIndex s = Z.of_nat (length (items s)) - 1 ->
         currentIndex s'' = Z.of_nat (length (items s))))).
Proof. apply addImage_adds_last, started_shows_current. Defined.

Example started_by_init :
  fst <$> (match init "carousel-container" (initial, page) with
           | Normal sb => Some sb
           | Throw _ _ => None
           end) = Some (fst started).
Proof. vm_compute. reflexivity. Qed.

End ImageCarouselFacts.

(** ** The gallery *)

Module InteractiveGalleryFacts.
Import InteractiveGallery.

(** The state in which the lightbox of [s], shown or hidden as it is, shows
    the image [i] at the index [z]. *)
Lemma updateLightbox_at (z : Z) (i : Image) (b : Lightbox) (s : state) :
  0 <= z -> images s !! Z.to_nat z = Some i -> lightbox s = Some b ->
  updateLightbox (set_index (Int z) s)
  = Normal (set_lightbox {| hidden := hidden b;
                            image_src := or_else (img_src i) (own_src i);
                            image_alt := image_caption i;
                            caption_text := image_caption i |}
              (set_index (Int z) s)).
Proof.
  intros Hz Hi Hb. unfold updateLightbox.
  cbn [set_index images currentIndex lightbox image_at].
  replace (0 <=? z) with true by (symmetry; apply Z.leb_le; exact Hz).
  now rewrite Hi, Hb.
Qed.

Lemma in_step_eq (s : state) (z : Z) (i : Image) (b : Lightbox) :
  currentIndex s = Int z -> lightbox s = Some b -> shows i s ->
  set_lightbox {| hidden := hidden b;
                  image_src := or_else (img_src i) (own_src i);
                  image_alt := image_caption i;
                  caption_text := image_caption i |}
    (set_index (Int z) s) = s.
Proof.
  intros Hc Hb (b' & Hb' & H1 & H2 & H3). rewrite Hb in Hb'. injection Hb' as <-.
  destruct s as [l c lb ct ad]. cbn in *. subst.
  destruct b as [h sr al cp]. cbn in *. now subst.
Qed.

(** X16.  In a gallery whose lightbox shows the image of the current
    index, [nextImage] and [prevImage] go round the images, each undoing
    the other, and the lightbox shows the image of the index they reach. *)
Theorem images_go_round (s : state) :
  in_step s ->
  let len := Z.of_nat (length (images s)) in
  (exists z s1, currentIndex s = Int z /\ nextImage s = Normal s1 /\
     currentIndex s1 = Int ((z + 1) mod len) /\ in_step s1 /\
     images s1 = images s /\ prevImage s1 = Normal s) /\
  (exists z s1, currentIndex s = Int z /\ prevImage s = Normal s1 /\
     currentIndex s1 = Int ((z - 1) mod len) /\ in_step s1 /\
     images s1 = images s /\ nextImage s1 = Normal s).
Proof.
  intros (z & i & Hc & Hz & Hi & Hsh) len.
  pose proof Hsh as (b & Hb & _).
  pose proof (lookup_lt_Some _ _ _ Hi) as Hlt.
  assert (Hlen : 0 < len) by (unfold len; lia).
  assert (Hzl : z < len) by (unfold len; lia).
  assert (Hn0 : (len =? 0) = false) by (apply Z.eqb_neq; lia).
  set (at_ := fun (z' : Z) (i' : Image) =>
         set_lightbox {| hidden := hidden b;
                         image_src := or_else (img_src i') (own_src i');
                         image_alt := image_caption i';
                         caption_text := image_caption i' |}
           (set_index (Int z') s)).
  assert (Hstep : forall z', 0 <= z' < len ->
            exists i', updateLightbox (set_index (Int z') s) = Normal (at_ z' i') /\
                       in_step (at_ z' i')).
  { intros z' Hz'. destruct (lookup_lt_is_Some_2 (images s) (Z.to_nat z')) as [i' Hi'];
      [unfold len in Hz'; lia|].
    exists i'. split; [apply (updateLightbox_at z' i' b); [lia|exact Hi'|exact Hb]|].
    exists z', i'. split; [reflexivity|]. split; [lia|]. split; [exact Hi'|].
    eexists. split; [reflexivity|]. repeat split. }
  assert (Hback : forall z' i',
            updateLightbox (set_index (Int z) (at_ z' i')) = Normal s).
  { intros z' i'.
    rewrite (updateLightbox_at z i (mkLightbox (hidden b)
               (or_else (img_src i') (own_src i')) (image_caption i') (image_caption i')));
      [|lia|exact Hi|reflexivity].
    f_equal. etransitivity; [|apply (in_step_eq s z i b Hc Hb Hsh)]. reflexivity. }
  split.
  - pose proof (Z.mod_pos_bound (z + 1) len Hlen) as Hm.
    destruct (Hstep _ Hm) as (i' & H1 & H3).
    exists z, (at_ ((z + 1) mod len) i'). split; [exact Hc|].
    split; [|split; [reflexivity|split; [exact H3|split; [reflexivity|]]]].
    + unfold nextImage. rewrite Hc. cbn [plus remainder]. fold len. rewrite Hn0.
      rewrite Z.rem_mod_nonneg by lia. exact H1.
    + unfold prevImage.
      change (currentIndex (at_ ((z + 1) mod len) i')) with (Int ((z + 1) mod len)).
      change (images (at_ ((z + 1) mod len) i')) with (images s).
      cbn [plus remainder]. fold len. rewrite Hn0.
      replace (Z.rem ((z + 1) mod len + -1 + len) len) with z; [apply Hback|].
      rewrite Z.rem_mod_nonneg by lia.
      replace ((z + 1) mod len + -1 + len) with ((z + 1) mod len + (len - 1)) by lia.
      rewrite Zplus_mod_idemp_l. replace (z + 1 + (len - 1)) with (z + 1 * len) by lia.
      rewrite Z.mod_add by lia. symmetry. apply Z.mod_small. lia.
  - pose proof (Z.mod_pos_bound (z - 1) len Hlen) as Hm.
    destruct (Hstep _ Hm) as (i' & H1 & H3).
    exists z, (at_ ((z - 1) mod len) i'). split; [exact Hc|].
    split; [|split; [reflexivity|split; [exact H3|split; [reflexivity|]]]].
    + unfold prevImage. rewrite Hc. cbn [plus remainder]. fold len. rewrite Hn0.
      replace (Z.rem (z + -1 + len) len) with ((z - 1) mod len); [exact H1|].
      rewrite Z.rem_mod_nonneg by lia.
      replace (z + -1 + len) with (z - 1 + 1 * len) by lia. symmetry. apply Z.mod_add. lia.
    + unfold nextImage.
      change (currentIndex (at_ ((z - 1) mod len) i')) with (Int ((z - 1) mod len)).
      change (images (at_ ((z - 1) mod len) i')) with (images s).
      cbn [plus remainder]. fold len. rewrite Hn0.
      replace (Z.rem ((z - 1) mod len + 1) len) with z; [apply Hback|].
      rewrite Z.rem_mod_nonneg by lia.
      rewrite Zplus_mod_idemp_l. replace (z - 1 + 1) with z by lia.
      symmetry. apply Z.mod_small. lia.
Qed.

(** X17.  In a gallery without images, [nextImage] and [prevImage] set
    the index to [NaN], the remainder by zero, and throw; so they do,
    whatever the images, once the index is [NaN]; and [openLightbox] throws
    there for every index. *)
Theorem empty_gallery_throws (s : state) :
  images s = [] \/ currentIndex s = NaN ->
  nextImage s = Throw TypeError (set_index NaN s) /\
  prevImage s = Throw TypeError (set_index NaN s) /\
  (forall index, images s = [] ->
     openLightbox index s = Throw TypeError (set_index index s)).
Proof.
  intros H. assert (Hn : forall y,
    remainder (plus (currentIndex s) y) (Z.of_nat (length (images s))) = NaN
    /\ remainder (plus (plus (currentIndex s) y) (Z.of_nat (length (images s))))
         (Z.of_nat (length (images s))) = NaN).
  { intros y. destruct H as [H|H]; rewrite H; [|auto].
    destruct (currentIndex s); auto. }
  unfold nextImage, prevImage. rewrite (proj1 (Hn 1)), (proj2 (Hn (-1))).
  repeat split.
  intros index He. unfold openLightbox, updateLightbox.
  cbn [set_index images currentIndex]. rewrite He.
  destruct index as [z|]; cbn [image_at bind]; [|reflexivity].
  destruct (0 <=? z); [rewrite lookup_nil|]; reflexivity.
Qed.

(** X18.  A click on an item that [addImage] made puts the item once more
    at the end of [images] and opens the lightbox on it; so [k + 1] clicks
    leave [k + 1] copies of it there, the lightbox open on the last. *)
Theorem click_added_appends (galleryItem : Image) (s : state) (k : nat) :
  is_Some (lightbox s) ->
  exists s', times (S k) (click_added galleryItem) s = Normal s' /\
    images s' = images s ++ replicate (S k) galleryItem /\
    currentIndex s' = Int (Z.of_nat (length (images s) + k)) /\
    is_hidden s' = false /\ shows galleryItem s'.
Proof.
  assert (H1 : forall s0, is_Some (lightbox s0) ->
    exists s', click_added galleryItem s0 = Normal s' /\
      images s' = images s0 ++ [galleryItem] /\
      currentIndex s' = Int (Z.of_nat (length (images s0))) /\
      is_hidden s' = false /\ shows galleryItem s').
  { intros s0 [b Hb]. unfold click_added, openLightbox.
    rewrite (updateLightbox_at _ galleryItem b); cbn [images lightbox]; [|lia| |exact Hb].
    - cbn [bind set_hidden set_lightbox lightbox]. eexists. split; [reflexivity|].
      cbn. repeat split. eexists. repeat split.
    - rewrite Nat2Z.id. apply list_lookup_middle. reflexivity. }
  revert s. induction k as [|k IH]; intros s Hs.
  - destruct (H1 s Hs) as (s' & H & Hi & Hc & Hh & Hsh). exists s'.
    cbn [times]. rewrite H. cbn [bind]. repeat split; auto.
    now rewrite Hc, Nat.add_0_r.
  - destruct (H1 s Hs) as (s1 & H & Hi & Hc & Hh & (b1 & Hb1 & Hsh)).
    destruct (IH s1) as (s' & H' & Hi' & Hc' & Hh' & Hsh'); [rewrite Hb1; eauto|].
    exists s'. change (times (S (S k)) (click_added galleryItem) s)
      with (bind (click_added galleryItem s) (times (S k) (click_added galleryItem))).
    rewrite H. cbn [bind]. split; [exact H'|].
    split; [rewrite Hi', Hi, <- app_assoc; reflexivity|].
    split; [|auto]. rewrite Hc', Hi, length_app. cbn [length]. f_equal. lia.
Qed.

(** *** The theorems on a gallery of three photos *)

Example opened_by_click :
  handle (ClickImage 0) (init (Some three_photos) initial) = Normal opened.
Proof. reflexivity. Qed.

(** The theorem on the gallery of three photos. *)
Lemma images_go_round_witness :
  let len := Z.of_nat (length (images opened)) in
  (exists z s1, currentIndex opened = Int z /\ nextImage opened = Normal s1 /\
     currentIndex s1 = Int ((z + 1) mod len) /\ in_step s1 /\
     images s1 = images opened /\ prevImage s1 = Normal opened) /\
  (exists z s1, currentIndex opened = Int z /\ prevImage opened = Normal s1 /\
     currentIndex s1 = Int ((z - 1) mod len) /\ in_step s1 /\
     images s1 = images opened /\ nextImage s1 = Normal opened).
Proof.
  apply images_go_round.
  exists 0, (photo "uno.jpg" "Uno"). split; [reflexivity|]. split; [lia|].
  split; [reflexivity|]. eexists. split; [reflexivity|]. repeat split.
Defined.

(** The theorem on a gallery started on an empty container. *)
Lemma empty_gallery_throws_witness :
  let s := init (Some []) initial in
  nextImage s = Throw TypeError (set_index NaN s) /\
  prevImage s = Throw TypeError (set_index NaN s) /\
  (forall index, images s = [] ->
     openLightbox index s = Throw TypeError (set_index index s)).
Proof. apply empty_gallery_throws. left. reflexivity. Defined.

(** The theorem for three clicks on a photo added to the three. *)
Lemma click_added_appends_witness :
  let item := new_item (fun url => url) "cuatro.jpg" "Cuatro" in
  exists s', times 3 (click_added item) opened = Normal s' /\
    images s' = images opened ++ replicate 3 item /\
    currentIndex s' = Int (Z.of_nat (length (images opened) + 2)) /\
    is_hidden s' = false /\ shows item s'.
Proof. apply (click_added_appends _ opened 2). eexists. reflexivity. Defined.

End InteractiveGalleryFacts.

(** ** The themes *)

Module ThemePageFacts.
Import ThemePage.

Lemma update_buttons_twice (dark dark' : bool) (l : list Button) :
  update_buttons dark (update_buttons dark' l) = update_buttons dark l.
Proof.
  unfold update_buttons. rewrite map_map. apply map_ext. intros [i a]. cbn.
  now destruct i.
Qed.

Lemma update_status_twice (dark dark' : bool) (x : option string) :
  update_status dark (update_status dark' x) = update_status dark x.
Proof. now destruct x. Qed.

End ThemePageFacts.

Module SistemaTemaFacts.
Import ThemePage ThemePageFacts SistemaTema.


Lemma actualizarUI_keeps (sp : state * Page) :
  fst (actualizarUI sp) = fst sp /\
  localStorage (snd (actualizarUI sp)) = localStorage (snd sp) /\
  prefers_dark (snd (actualizarUI sp)) = prefers_dark (snd sp).
Proof. destruct sp as [s p]. cbn. auto. Qed.





(** *** What is stored *)

Lemma falsy_theme (dark : bool) : falsy (Some (if dark then "dark" else "light")%string) = false.
Proof. now destruct dark. Qed.

Lemma choose_stored (dark : bool) (sp : state * Page) :
  stored (actualizarUI (choose dark sp)).
Proof.
  unfold stored. destruct (actualizarUI_keeps (choose dark sp)) as (-> & -> & _).
  cbn [choose fst snd set_storage localStorage isDarkMode].
  apply lookup_insert_eq.
Qed.

Lemma handle_stored (ev : event) (sp : state * Page) :
  stored sp -> stored (handle ev sp).
Proof.
  intros H. destruct ev as [t|m| | | |]; cbn [handle].
  - unfold on_click, alternarTema.
    set (sp1 := if in_switch_main t then _ else sp).
    assert (H1 : stored sp1) by (unfold sp1; destruct (in_switch_main t);
                                 [apply choose_stored|exact H]).
    clearbody sp1.
    set (sp2 := if (0 <? data_toggles t)%nat then _ else sp1).
    assert (H2 : stored sp2) by (unfold sp2; destruct (0 <? data_toggles t)%nat;
                                 [apply choose_stored|exact H1]).
    clearbody sp2.
    destruct (_ || _); [apply choose_stored|exact H2].
  - unfold on_change. cbn [set_prefers localStorage]. unfold stored in H.
    rewrite H, falsy_theme. exact H.
  - apply choose_stored.
  - apply choose_stored.
  - apply choose_stored.
  - unfold usarPreferenciaSistema. destruct (prefers_dark _); apply choose_stored.
Qed.

Lemma stored_reload (sp : state * Page) (m : bool) :
  stored sp -> isDarkMode (fst (init (set_prefers m (snd sp)))) = isDarkMode (fst sp).
Proof.
  unfold stored. intros H. unfold init.
  destruct (actualizarUI_keeps
              (cargarPreferencia ({| isDarkMode := false |}, set_prefers m (snd sp))))
    as (-> & _).
  unfold cargarPreferencia. cbn [snd set_prefers localStorage prefers_dark].
  rewrite H. destruct (isDarkMode (fst sp)); reflexivity.
Qed.

(** X20.  Once the theme of the mode is stored, as every method that sets
    the mode leaves it, it stays so whatever happens, and [init] on a page
    loaded later takes the mode from it, whatever the system prefers
    then. *)
Theorem reload_keeps_theme (evs : list event) (sp : state * Page) (m : bool) :
  stored sp ->
  stored (run evs sp) /\
  isDarkMode (fst (init (set_prefers m (snd (run evs sp)))))
  = isDarkMode (fst (run evs sp)).
Proof.
  intros H. assert (H' : stored (run evs sp)).
  { unfold run. revert sp H. induction evs as [|ev evs IH]; intros sp H; [exact H|].
    cbn [fold_left]. apply IH. now apply handle_stored. }
  split; [exact H'|]. now apply stored_reload.
Qed.

Lemma alternarTema_mode (sp : state * Page) :
  isDarkMode (fst (alternarTema sp)) = negb (isDarkMode (fst sp)).
Proof. unfold alternarTema. now destruct (actualizarUI_keeps (choose (negb (isDarkMode (fst sp))) sp)) as (-> & _). Qed.

(** X21.  A click calls [alternarTema] once for each of the three tests
    it passes (the button [#theme-switch-main], an element with
    [data-theme-toggle], one of the two ids): the mode is the other one
    after one or three, and the same after none or two, as for a button
    with [data-theme-toggle] and the id [theme-toggle]. *)
Theorem click_toggles_by_parity (t : Target) (sp : state * Page) :
  isDarkMode (fst (on_click t sp))
  = if Nat.odd (toggles t) then negb (isDarkMode (fst sp)) else isDarkMode (fst sp).
Proof.
  unfold on_click, toggles.
  destruct (in_switch_main t), (0 <? data_toggles t)%nat, (_ || _);
    rewrite ?alternarTema_mode; cbn; now rewrite ?negb_involutive.
Qed.

(** X22.  [usarPreferenciaSistema] takes the mode the system prefers and
    stores it as if it had been chosen, the theme it removed being written
    again: no option [auto] is active afterwards, and later changes of the
    system's preference change nothing. *)
Theorem usarPreferenciaSistema_stores (sp : state * Page) :
  let sp' := usarPreferenciaSistema sp in
  isDarkMode (fst sp') = prefers_dark (snd sp) /\
  localStorage (snd sp') !! "theme"
  = Some (if prefers_dark (snd sp) then "dark" else "light")%string /\
  auto_active (snd sp') = false /\
  (forall matches, on_change matches sp' = (fst sp', set_prefers matches (snd sp'))).
Proof.
  cbv zeta.
  assert (E : usarPreferenciaSistema sp
              = actualizarUI (choose (prefers_dark (snd sp))
                  (fst sp, set_storage (delete "theme" (localStorage (snd sp))) (snd sp)))).
  { unfold usarPreferenciaSistema. cbn [snd set_storage prefers_dark].
    now destruct (prefers_dark (snd sp)). }
  rewrite E.
  pose proof (choose_stored (prefers_dark (snd sp))
    (fst sp, set_storage (delete "theme" (localStorage (snd sp))) (snd sp))) as Hst.
  unfold stored in Hst.
  set (sp1 := (fst sp, _)) in *.
  destruct (actualizarUI_keeps (choose (prefers_dark (snd sp)) sp1)) as (Hs & Hl & _).
  assert (Hm : isDarkMode (fst (actualizarUI (choose (prefers_dark (snd sp)) sp1)))
               = prefers_dark (snd sp)) by now rewrite Hs.
  split; [exact Hm|]. rewrite Hm in Hst. split; [exact Hst|]. split.
  - unfold auto_active, actualizarUI, choose.
    cbn [fst snd set_storage set_dark localStorage theme_options].
    rewrite lookup_insert_eq. apply not_true_is_false. intros H.
    apply existsb_exists in H as ([k a] & Hin & H). cbn [fst snd] in H.
    apply andb_true_iff in H as [H1 H2]. apply in_map_iff in Hin as ([k' a'] & He & _).
    cbn [fst] in He. injection He as -> <-. apply bool_decide_eq_true in H1.
    rewrite H1 in H2. apply bool_decide_eq_true in H2.
    destruct (prefers_dark (snd sp)); discriminate.
  - intros matches. unfold on_change. cbn [snd set_prefers localStorage].
    now rewrite Hst, falsy_theme.
Qed.

(** The theorem after a click on a toggle button, for a visit that
    follows. *)
Lemma reload_keeps_theme_witness :
  let target := {| data_toggles := 1; target_id := ""; in_theme_toggle := false;
                   in_theme_toggle_mobile := false; in_switch_main := false |} in
  let sp := on_click target (init sample_page) in
  let evs := [Change true; Click target; Change false; CambiarAModoOscuro] in
  stored (run evs sp) /\
  isDarkMode (fst (init (set_prefers false (snd (run evs sp)))))
  = isDarkMode (fst (run evs sp)).
Proof. apply reload_keeps_theme. reflexivity. Defined.

End SistemaTemaFacts.

Module ThemeManagerFacts.
Import ThemePage ThemePageFacts ThemeManager.

Lemma updateThemeUI_in_mode (dark : bool) (sp : state * Page) :
  in_mode (updateThemeUI (enable dark sp)).
Proof.
  destruct sp as [s p]. unfold in_mode, updateThemeUI, updateDynamicColors, enable.
  cbn [fst snd isDarkMode html_dark body_dark localStorage buttons theme_status style
       set_storage set_dark].
  rewrite update_buttons_twice, update_status_twice, lookup_insert_eq.
  destruct dark; cbn [fold_left fst snd];
    repeat split;
    repeat (rewrite lookup_insert_ne by discriminate); apply lookup_insert_eq.
Qed.

Lemma updateThemeUI_mode (dark : bool) (sp : state * Page) :
  isDarkMode (fst (updateThemeUI (enable dark sp))) = dark.
Proof. destruct sp as [s p]. reflexivity. Qed.

Lemma toggleTheme_in_mode (sp : state * Page) : in_mode (toggleTheme sp).
Proof.
  unfold toggleTheme, enableLightMode, enableDarkMode.
  destruct (isDarkMode (fst sp)); apply updateThemeUI_in_mode.
Qed.

Lemma manager_handle_in_mode (ev : event) (sp : state * Page) :
  in_mode sp -> in_mode (handle ev sp).
Proof.
  intros H. destruct ev as [t|m|]; cbn [handle].
  - unfold on_click. destruct (listeners t) as [|n]; [exact H|].
    change (Nat.iter (S n) toggleTheme sp) with (toggleTheme (Nat.iter n toggleTheme sp)).
    apply toggleTheme_in_mode.
  - unfold on_change. cbn [snd set_prefers localStorage].
    destruct H as (H1 & H2 & H3 & H4 & H5 & H6 & H7 & H8 & H9). rewrite H3.
    replace (falsy _) with false by now destruct (isDarkMode (fst sp)).
    repeat split; assumption.
  - apply toggleTheme_in_mode.
Qed.

Lemma manager_init_in_mode (p : Page) : in_mode (init (initial, p)).
Proof.
  unfold init, enableLightMode, enableDarkMode.
  destruct (_ || _); apply updateThemeUI_in_mode.
Qed.

Lemma manager_run_in_mode (evs : list event) (p : Page) : in_mode (run evs (init (initial, p))).
Proof.
  unfold run. pose proof (manager_init_in_mode p) as H. revert H.
  generalize (init (initial, p)).
  induction evs as [|ev evs IH]; intros sp H; [exact H|].
  cbn [fold_left]. apply IH. now apply manager_handle_in_mode.
Qed.

Lemma manager_init_mode (p : Page) :
  isDarkMode (fst (init (initial, p)))
  = bool_decide (localStorage p !! "theme" = Some "dark"%string)
    || (falsy (localStorage p !! "theme") && prefers_dark p).
Proof.
  unfold init, enableLightMode, enableDarkMode. cbn [snd].
  destruct (_ || _); apply updateThemeUI_mode.
Qed.


(** X24.  [init] stores a theme even when none was stored: on a first
    visit, the one the system prefers.  So the listener for changes of the
    system's preference, which acts only when no theme is stored, changes
    nothing after [init], whatever happened in between. *)
Theorem system_preference_ignored (evs : list event) (p : Page) (matches : bool) :
  (localStorage p !! "theme" = None ->
   localStorage (snd (init (initial, p))) !! "theme"
   = Some (if prefers_dark p then "dark" else "light")%string) /\
  on_change matches (run evs (init (initial, p)))
  = (fst (run evs (init (initial, p))),
     set_prefers matches (snd (run evs (init (initial, p))))).
Proof.
  split.
  - intros Hn. pose proof (manager_init_in_mode p) as (_ & _ & H & _).
    rewrite H, manager_init_mode, Hn. cbn. reflexivity.
  - pose proof (manager_run_in_mode evs p) as (_ & _ & H & _).
    unfold on_change. cbn [snd set_prefers localStorage]. rewrite H.
    now destruct (isDarkMode _).
Qed.

Lemma toggleTheme_mode (sp : state * Page) :
  isDarkMode (fst (toggleTheme sp)) = negb (isDarkMode (fst sp)).
Proof.
  unfold toggleTheme, enableLightMode, enableDarkMode.
  destruct (isDarkMode (fst sp)); apply updateThemeUI_mode.
Qed.

(** X25.  A click calls [toggleTheme] once for every listener it reaches:
    the mode changes when their number is odd, and a button that bears
    both [data-theme-toggle] and the id [theme-toggle], which has two
    listeners, leaves the mode as it was. *)
Theorem manager_click_by_parity (t : Target) (sp : state * Page) :
  isDarkMode (fst (on_click t sp))
  = (if Nat.odd (listeners t) then negb (isDarkMode (fst sp))
     else isDarkMode (fst sp)) /\
  (data_toggles t = 1%nat -> in_theme_toggle t = true ->
   in_theme_toggle_mobile t = false ->
   isDarkMode (fst (on_click t sp)) = isDarkMode (fst sp)).
Proof.
  assert (H : forall n, isDarkMode (fst (Nat.iter n toggleTheme sp))
                        = if Nat.odd n then negb (isDarkMode (fst sp))
                          else isDarkMode (fst sp)).
  { induction n as [|n IH]; [reflexivity|].
    change (Nat.iter (S n) toggleTheme sp) with (toggleTheme (Nat.iter n toggleTheme sp)).
    rewrite toggleTheme_mode, IH, Nat.odd_succ, <- Nat.negb_odd.
    destruct (Nat.odd n); cbn; now rewrite ?negb_involutive. }
  split; [apply H|]. intros H1 H2 H3. unfold on_click, listeners.
  rewrite H, H1, H2, H3. reflexivity.
Qed.

End ThemeManagerFacts.

(** ** The validation of forms *)

Module RegExpFacts.
Import JSString JSONFacts RegExp.

Lemma append_empty (s1 s2 : string) :
  s1 +:+ s2 = ""%string -> s1 = ""%string /\ s2 = ""%string.
Proof. destruct s1; [auto|]. rewrite append_cons. discriminate. Qed.

Lemma append_eq_cons (s1 s2 : string) (c : ascii) (u : string) :
  s1 +:+ s2 = String c u ->
  (s1 = ""%string /\ s2 = String c u)
  \/ (exists s1', s1 = String c s1' /\ u = s1' +:+ s2).
Proof.
  destruct s1 as [|c1 s1]; [auto|]. rewrite append_cons. intros [= -> <-]. eauto.
Qed.

Lemma matches_empty (r : regexp) (s : string) :
  matches r s -> s = ""%string -> nullable r = true.
Proof.
  induction 1 as [|p c Hp|r1 r2 s1 s2 _ IH1 _ IH2|r1 r2 s _ IH|r1 r2 s _ IH| |];
    intros E; cbn [nullable]; try reflexivity; try discriminate.
  - apply append_empty in E as [E1 E2]. now rewrite IH1, IH2.
  - now rewrite IH.
  - rewrite IH by exact E. apply orb_true_r.
Qed.

Lemma nullable_matches (r : regexp) : nullable r = true -> matches r "".
Proof.
  induction r as [| |p|r1 IH1 r2 IH2|r1 IH1 r2 IH2|r IH]; cbn [nullable];
    intros H; try discriminate.
  - constructor.
  - apply andb_true_iff in H as [H1 H2].
    exact (MSeq r1 r2 "" "" (IH1 H1) (IH2 H2)).
  - apply orb_true_iff in H as [H|H]; [apply MAltL|apply MAltR]; auto.
  - constructor.
Qed.

Lemma derive_matches (r : regexp) (c : ascii) (s : string) :
  matches (derive c r) s -> matches r (String c s).
Proof.
  revert s. induction r as [| |p|r1 IH1 r2 IH2|r1 IH1 r2 IH2|r IH];
    intros s H; cbn [derive] in H.
  - inversion H.
  - inversion H.
  - destruct (p c) eqn:Hp; inversion H; subst. now constructor.
  - assert (Hseq : matches (Seq (derive c r1) r2) s -> matches (Seq r1 r2) (String c s)).
    { intros H1. inversion H1; subst.
      exact (MSeq r1 r2 (String c _) _ (IH1 _ ltac:(eassumption)) ltac:(eassumption)). }
    destruct (nullable r1) eqn:Hn; [|auto].
    inversion H; subst; [auto|].
    exact (MSeq r1 r2 "" (String c s) (nullable_matches _ Hn) (IH2 _ ltac:(eassumption))).
  - inversion H; subst; [apply MAltL|apply MAltR]; auto.
  - inversion H; subst.
    exact (MStarCons r (String c _) _ (IH _ ltac:(eassumption)) ltac:(eassumption)).
Qed.

Lemma matches_derive (r : regexp) (t : string) :
  matches r t -> forall c s, t = String c s -> matches (derive c r) s.
Proof.
  induction 1 as [|p c0 Hp|r1 r2 s1 s2 H1 IH1 H2 IH2|r1 r2 s0 _ IH|r1 r2 s0 _ IH|
                  |r s1 s2 H1 IH1 H2 IH2]; intros c s E; cbn [derive];
    try discriminate.
  - injection E as -> <-. rewrite Hp. constructor.
  - apply append_eq_cons in E as [[-> ->]|(s1' & -> & ->)].
    + rewrite (matches_empty _ _ H1 eq_refl). apply MAltR. now apply IH2.
    + destruct (nullable r1); [apply MAltL|]; constructor; auto.
  - apply MAltL. auto.
  - apply MAltR. auto.
  - apply append_eq_cons in E as [[-> ->]|(s1' & -> & ->)].
    + now apply IH2.
    + constructor; auto.
Qed.

(** The test by derivatives finds exactly the strings the pattern
    matches. *)
Lemma test_matches (r : regexp) (s : string) : test r s = true <-> matches r s.
Proof.
  revert r. induction s as [|c s IH]; intros r; cbn [test].
  - split; [apply nullable_matches|]. intros H. now apply (matches_empty r "").
  - rewrite IH. split; [apply derive_matches|]. intros H. now apply (matches_derive r _ H).
Qed.

Lemma matches_seq (r1 r2 : regexp) (s : string) :
  matches (Seq r1 r2) s <->
  exists s1 s2, s = s1 +:+ s2 /\ matches r1 s1 /\ matches r2 s2.
Proof.
  split.
  - intros H. inversion H; subst. eauto.
  - intros (s1 & s2 & -> & H1 & H2). now constructor.
Qed.

Lemma matches_class (p : ascii -> bool) (s : string) :
  matches (Class p) s <-> exists c, s = String c "" /\ p c = true.
Proof.
  split.
  - intros H. inversion H; subst. eauto.
  - intros (c & -> & H). now constructor.
Qed.

Lemma matches_star_class (p : ascii -> bool) (s : string) :
  matches (Star (Class p)) s <-> all p s = true.
Proof.
  split.
  - intros H. remember (Star (Class p)) as r eqn:E.
    induction H as [| | | | | |r0 s1 s2 H1 _ H2 IH2]; try discriminate; [reflexivity|].
    injection E as ->. apply matches_class in H1 as (c & -> & Hc).
    rewrite append_cons, append_nil. cbn [all]. now rewrite Hc, IH2.
  - induction s as [|c s IH]; cbn [all]; intros H; [constructor|].
    apply andb_true_iff in H as [Hc H].
    exact (MStarCons _ (String c "") s (MClass p c Hc) (IH H)).
Qed.

Lemma matches_plus_class (p : ascii -> bool) (s : string) :
  matches (Plus (Class p)) s <-> s <> ""%string /\ all p s = true.
Proof.
  unfold Plus. rewrite matches_seq. split.
  - intros (s1 & s2 & -> & H1 & H2). apply matches_class in H1 as (c & -> & Hc).
    apply matches_star_class in H2. rewrite append_cons, append_nil.
    split; [discriminate|]. cbn [all]. now rewrite Hc, H2.
  - intros [Hne H]. destruct s as [|c s]; [contradiction|].
    cbn [all] in H. apply andb_true_iff in H as [Hc H].
    exists (String c ""), s. split; [reflexivity|].
    split; [now constructor|now apply matches_star_class].
Qed.

Lemma count_append (p : ascii -> bool) (a b : string) :
  count p (a +:+ b) = (count p a + count p b)%nat.
Proof.
  induction a as [|c a IH]; [reflexivity|].
  rewrite append_cons. cbn [count]. rewrite IH. lia.
Qed.

Lemma all_append (p : ascii -> bool) (a b : string) :
  all p (a +:+ b) = all p a && all p b.
Proof.
  induction a as [|c a IH]; [reflexivity|].
  rewrite append_cons. cbn [all]. now rewrite IH, andb_assoc.
Qed.

End RegExpFacts.

Module FormValidatorFacts.
Import JSString JSStringFacts JSONFacts RegExp RegExpFacts FormValidator.

(** *** The numbers of integers *)

Lemma digits2_pos_size (p : positive) : digits2_pos p = Pos.size p.
Proof. induction p as [p IH|p IH|]; cbn; congruence. Qed.

Lemma digits2_pos_log2 (p : positive) : Zpos (digits2_pos p) = Z.log2 (Zpos p) + 1.
Proof.
  rewrite digits2_pos_size. destruct p as [p|p|]; cbn [Z.log2 Pos.size]; lia.
Qed.

Lemma digits2_pos_bounds (p : positive) :
  2 ^ (Zpos (digits2_pos p) - 1) <= Zpos p < 2 ^ Zpos (digits2_pos p).
Proof.
  rewrite digits2_pos_log2.
  replace (Z.log2 (Zpos p) + 1 - 1) with (Z.log2 (Zpos p)) by lia.
  apply Z.log2_spec. lia.
Qed.

Lemma digits2_pos_le (p : positive) :
  Zpos p < 2 ^ 53 -> Zpos (digits2_pos p) <= 53.
Proof.
  intros Hp. pose proof (digits2_pos_bounds p) as Hb.
  destruct (Z_le_gt_dec (Zpos (digits2_pos p)) 53) as [H|H]; [exact H|].
  assert (2 ^ 53 <= 2 ^ (Zpos (digits2_pos p) - 1)) by (apply Z.pow_le_mono_r; lia).
  lia.
Qed.

Lemma iter_xO (p k : positive) : Zpos (Pos.iter xO p k) = Zpos p * 2 ^ Zpos k.
Proof.
  change (Pos.iter xO p k) with (shift_pos k p).
  rewrite shift_pos_correct, Zpower_pos_nat, Zpower_nat_Z, positive_nat_Z. lia.
Qed.

Lemma digits2_pos_iter_xO (p k : positive) :
  Zpos (digits2_pos (Pos.iter xO p k)) = Zpos (digits2_pos p) + Zpos k.
Proof. rewrite !digits2_pos_log2, iter_xO, Z.log2_mul_pow2; lia. Qed.

(** A mantissa of 53 bits with an exponent in range is rounded to itself. *)
Lemma binary_round_aux_canonical (sx : bool) (m : positive) (e : Z) :
  Zpos (digits2_pos m) = 53 -> -1074 <= e <= 971 ->
  binary_round_aux Number.prec Number.emax sx (Zpos m) e loc_Exact = S754_finite sx m e.
Proof.
  intros Hd He. unfold binary_round_aux, shr_fexp. cbn [Zdigits2 shr_record_of_loc].
  assert (E : fexp Number.prec Number.emax (Zpos (digits2_pos m) + e) - e = 0).
  { rewrite Hd. unfold fexp, emin, Number.prec, Number.emax. lia. }
  rewrite E. cbn [shr shr_m loc_of_shr_record round_nearest_even Zdigits2 shr_record_of_loc].
  rewrite E. cbn [shr shr_m].
  replace (e <=? Number.emax - Number.prec) with true; [reflexivity|].
  symmetry. apply Z.leb_le. unfold Number.prec, Number.emax. lia.
Qed.

(** The number of a positive integer below [2^53] is the integer itself,
    written with a mantissa of 53 bits. *)
Lemma binary_round_integer (sx : bool) (p : positive) :
  Zpos p < 2 ^ 53 ->
  exists m : positive,
    binary_round Number.prec Number.emax sx p 0
      = S754_finite sx m (Zpos (digits2_pos p) - 53) /\
    Zpos m = Zpos p * 2 ^ (53 - Zpos (digits2_pos p)) /\
    Zpos (digits2_pos m) = 53.
Proof.
  intros Hp. pose proof (digits2_pos_bounds p) as Hb.
  pose proof (digits2_pos_le p Hp) as Hd.
  unfold binary_round, shl_align.
  assert (E : fexp Number.prec Number.emax (Zpos (digits2_pos p) + 0)
              = Zpos (digits2_pos p) - 53).
  { unfold fexp, emin, Number.prec, Number.emax. lia. }
  rewrite E, Z.sub_0_r.
  destruct (Zpos (digits2_pos p) - 53) as [|q|q] eqn:Eq; [|lia|].
  - exists p. split; [|split].
    + apply binary_round_aux_canonical; lia.
    + replace (53 - Zpos (digits2_pos p)) with 0 by lia. lia.
    + lia.
  - exists (Pos.iter xO p q). rewrite <- Eq. split; [|split].
    + apply binary_round_aux_canonical; [rewrite digits2_pos_iter_xO|]; lia.
    + rewrite iter_xO. f_equal. f_equal. lia.
    + rewrite digits2_pos_iter_xO. lia.
Qed.

Lemma mantissa_order (a b : positive) (ma mb : positive) :
  Zpos a < 2 ^ 53 -> Zpos b < 2 ^ 53 ->
  Zpos ma = Zpos a * 2 ^ (53 - Zpos (digits2_pos a)) ->
  Zpos mb = Zpos b * 2 ^ (53 - Zpos (digits2_pos b)) ->
  match Zpos (digits2_pos a) - 53 ?= Zpos (digits2_pos b) - 53 with
  | Lt => Lt
  | Gt => Gt
  | Eq => Pos.compare_cont Eq ma mb
  end = (Zpos a ?= Zpos b).
Proof.
  intros Ha Hb Hma Hmb.
  pose proof (digits2_pos_bounds a) as Ba. pose proof (digits2_pos_bounds b) as Bb.
  pose proof (digits2_pos_le a Ha) as La. pose proof (digits2_pos_le b Hb) as Lb.
  set (da := Zpos (digits2_pos a)) in *. set (db := Zpos (digits2_pos b)) in *.
  destruct (Z.compare_spec (da - 53) (db - 53)) as [E|L|G].
  - assert (Ed : da = db) by lia.
    change (Pos.compare_cont Eq ma mb) with (Zpos ma ?= Zpos mb).
    rewrite Hma, Hmb, Ed.
    assert (0 < 2 ^ (53 - db)) by (apply Z.pow_pos_nonneg; lia).
    destruct (Z.compare_spec (Zpos a) (Zpos b)) as [E1|L1|G1].
    + rewrite E1. apply Z.compare_refl.
    + apply Z.compare_lt_iff. nia.
    + apply Z.compare_gt_iff. nia.
  - symmetry. apply Z.compare_lt_iff.
    assert (2 ^ da <= 2 ^ (db - 1)) by (apply Z.pow_le_mono_r; lia).
    destruct Ba, Bb. lia.
  - symmetry. apply Z.compare_gt_iff.
    assert (2 ^ db <= 2 ^ (da - 1)) by (apply Z.pow_le_mono_r; lia).
    destruct Ba, Bb. lia.
Qed.

(** The numbers of two integers below [2^53] in magnitude compare as the
    integers do. *)
Lemma SFcompare_number (a b : Z) :
  Z.abs a < 2 ^ 53 -> Z.abs b < 2 ^ 53 ->
  SFcompare (number a) (number b) = Some (a ?= b).
Proof.
  intros Ha Hb. unfold number, binary_normalize.
  destruct a as [|a|a], b as [|b|b]; try reflexivity.
  - destruct (binary_round_integer false b) as (m & -> & _); [lia|reflexivity].
  - destruct (binary_round_integer true b) as (m & -> & _); [lia|reflexivity].
  - destruct (binary_round_integer false a) as (m & -> & _); [lia|reflexivity].
  - destruct (binary_round_integer false a) as (ma & -> & Hma & _); [lia|].
    destruct (binary_round_integer false b) as (mb & -> & Hmb & _); [lia|].
    cbn [SFcompare]. f_equal. apply mantissa_order; try assumption; lia.
  - destruct (binary_round_integer false a) as (ma & -> & _); [lia|].
    destruct (binary_round_integer true b) as (mb & -> & _); [lia|]. reflexivity.
  - destruct (binary_round_integer true a) as (m & -> & _); [lia|reflexivity].
  - destruct (binary_round_integer true a) as (ma & -> & _); [lia|].
    destruct (binary_round_integer false b) as (mb & -> & _); [lia|]. reflexivity.
  - destruct (binary_round_integer true a) as (ma & -> & Hma & _); [lia|].
    destruct (binary_round_integer true b) as (mb & -> & Hmb & _); [lia|].
    cbn [SFcompare]. f_equal.
    transitivity (CompOpp (Zpos a ?= Zpos b)); [|reflexivity].
    rewrite <- (mantissa_order a b ma mb) by (try assumption; lia).
    now destruct (_ ?= _).
Qed.

Lemma lte_number (a b : Z) :
  JSON.safe_integer a = true -> JSON.safe_integer b = true ->
  lte (number a) (number b) = (a <=? b).
Proof.
  unfold JSON.safe_integer. intros Ha%Z.ltb_lt Hb%Z.ltb_lt.
  unfold lte, SFleb. rewrite (SFcompare_number a b Ha Hb).
  unfold Z.leb. now destruct (a ?= b).
Qed.

Lemma gte_number (a b : Z) :
  JSON.safe_integer a = true -> JSON.safe_integer b = true ->
  gte (number a) (number b) = (b <=? a).
Proof. intros Ha Hb. apply (lte_number b a Hb Ha). Qed.


(** *** White space *)

Lemma trim_start_white (a s : string) :
  all Number.is_white_space a = true ->
  Number.trim_start (a +:+ s) = Number.trim_start s.
Proof.
  induction a as [|c a IH]; [reflexivity|]. cbn [all]. intros H.
  apply andb_true_iff in H as [Hc H]. rewrite append_cons.
  cbn [Number.trim_start]. rewrite Hc. auto.
Qed.

Lemma trim_start_blank (a : string) :
  all Number.is_white_space a = true -> Number.trim_start a = ""%string.
Proof.
  intros H. rewrite <- (append_nil_r a). now rewrite trim_start_white.
Qed.

Lemma trim_end_blank (b : string) :
  all Number.is_white_space b = true -> trim_end b = ""%string.
Proof.
  induction b as [|c b IH]; [reflexivity|]. cbn [all]. intros H.
  apply andb_true_iff in H as [Hc H]. cbn [trim_end]. now rewrite IH, Hc.
Qed.

Lemma trim_end_white (s b : string) :
  all Number.is_white_space b = true -> trim_end (s +:+ b) = trim_end s.
Proof.
  intros H. induction s as [|c s IH]; [now apply trim_end_blank|].
  rewrite append_cons. cbn [trim_end]. now rewrite IH.
Qed.

Lemma trim_white (a v b : string) :
  all Number.is_white_space a = true -> all Number.is_white_space b = true ->
  trim (a +:+ v +:+ b) = trim v.
Proof.
  intros Ha Hb. unfold trim. rewrite (trim_start_white _ _ Ha).
  induction v as [|c v IH].
  - rewrite append_nil, (trim_start_blank _ Hb). reflexivity.
  - rewrite append_cons. cbn [Number.trim_start].
    destruct (Number.is_white_space c); [exact IH|].
    rewrite <- append_cons. now apply trim_end_white.
Qed.

(** X26.  [validateText] ignores the white space around the value: the
    same verdict, written to the page in the same way, with or without it.
    For bounds below [2^53] in magnitude the verdict is that the length of
    the trimmed value lies between them; so a value of white space alone
    is as the empty one, invalid when a character is required, the input
    marked and the message shown, with the bounds as [toString] writes
    them. *)
Theorem validateText_ignores_padding (a v b : string) (input : Input)
    (minLength maxLength : Z) :
  all Number.is_white_space a = true -> all Number.is_white_space b = true ->
  verdict (validateText (with_value (a +:+ v +:+ b) input) minLength maxLength)
  = verdict (validateText (with_value v input) minLength maxLength) /\
  (JSON.safe_integer minLength = true -> JSON.safe_integer maxLength = true ->
   JSON.safe_integer (Z.of_nat (String.length (trim v))) = true ->
   fst (validateText (with_value (a +:+ v +:+ b) input) minLength maxLength)
   = (minLength <=? Z.of_nat (String.length (trim v)))
     && (Z.of_nat (String.length (trim v)) <=? maxLength)) /\
  (1 <= minLength -> JSON.safe_integer minLength = true ->
   verdict (validateText (with_value (a +:+ b) input) minLength maxLength)
   = (false, true,
      Some {| show := true;
              textContent :=
                "Debe tener entre " +:+ Number.toString (number minLength) +:+ " y "
                +:+ Number.toString (number maxLength) +:+ " caracteres" |})).
Proof.
  intros Ha Hb. split; [|split].
  - unfold validateText, verdict. cbn [with_value value fst snd].
    rewrite (trim_white a v b Ha Hb). now destruct (_ && _).
  - intros Hmn Hmx Hl. unfold validateText. cbn [with_value value fst].
    rewrite (trim_white a v b Ha Hb).
    now rewrite (gte_number _ _ Hl Hmn), (lte_number _ _ Hl Hmx).
  - intros Hmin Hs. unfold validateText, verdict. cbn [with_value value fst snd].
    assert (E : trim (a +:+ b) = ""%string).
    { rewrite <- (append_nil b) at 1. now rewrite (trim_white a "" b Ha Hb). }
    rewrite E. change (Z.of_nat (String.length "")) with 0.
    rewrite (gte_number 0 minLength eq_refl Hs).
    replace (minLength <=? 0) with false by (symmetry; apply Z.leb_gt; lia).
    reflexivity.
Qed.

(** *** Addresses *)

Lemma at_sign_class (s : string) :
  matches (Class (Ascii.eqb "@")) s <-> s = "@"%string.
Proof.
  rewrite matches_class. split.
  - intros (c & -> & H). apply Ascii.eqb_eq in H. now subst.
  - intros ->. eauto.
Qed.

Lemma point_class (s : string) :
  matches (Class (Ascii.eqb ".")) s <-> s = "."%string.
Proof.
  rewrite matches_class. split.
  - intros (c & -> & H). apply Ascii.eqb_eq in H. now subst.
  - intros ->. eauto.
Qed.

Lemma emailRegex_matches (s : string) :
  matches emailRegex s <->
  exists l d t : string,
    s = l +:+ "@" +:+ d +:+ "." +:+ t /\
    (l <> "" /\ all not_space_at l = true) /\
    (d <> "" /\ all not_space_at d = true) /\
    (t <> "" /\ all not_space_at t = true).
Proof.
  unfold emailRegex. split.
  - intros H.
    apply matches_seq in H as (l & s1 & -> & Hl & H).
    apply matches_seq in H as (x & s2 & -> & Hx & H).
    apply matches_seq in H as (d & s3 & -> & Hd & H).
    apply matches_seq in H as (y & t & -> & Hy & Ht).
    apply at_sign_class in Hx as ->. apply point_class in Hy as ->.
    apply matches_plus_class in Hl, Hd, Ht. exists l, d, t. auto.
  - intros (l & d & t & -> & Hl & Hd & Ht).
    apply matches_plus_class in Hl, Hd, Ht.
    repeat (apply matches_seq; eexists _, _; split; [reflexivity|split]);
      try assumption; [now apply at_sign_class|now apply point_class].
Qed.

Lemma count_at_plain (s : string) :
  all not_space_at s = true -> count (Ascii.eqb "@") s = 0%nat.
Proof.
  induction s as [|c s IH]; [reflexivity|]. cbn [all count]. intros H.
  apply andb_true_iff in H as [Hc H]. rewrite (IH H).
  unfold not_space_at in Hc. apply negb_true_iff, orb_false_iff in Hc as [_ Hc].
  rewrite Ascii.eqb_sym, Hc. reflexivity.
Qed.

(** X27.  [validateEmail] accepts exactly the values that, trimmed, are
    made of three parts without white space or at sign, none of them
    empty, with an at sign after the first and a point after the second;
    such a value has one at sign and no white space. *)
Theorem validateEmail_shape (input : Input) :
  (fst (validateEmail input) = true <->
   exists l d t : string,
     trim (value input) = l +:+ "@" +:+ d +:+ "." +:+ t /\
     (l <> ""%string /\ all not_space_at l = true) /\
     (d <> ""%string /\ all not_space_at d = true) /\
     (t <> ""%string /\ all not_space_at t = true)) /\
  (fst (validateEmail input) = true ->
   count (Ascii.eqb "@") (trim (value input)) = 1%nat /\
   all (fun c => negb (Number.is_white_space c)) (trim (value input)) = true).
Proof.
  assert (H : fst (validateEmail input) = true <-> matches emailRegex (trim (value input))).
  { unfold validateEmail. cbn [fst]. apply test_matches. }
  split; [now rewrite H, emailRegex_matches|].
  rewrite H, emailRegex_matches. intros (l & d & t & -> & [_ Hl] & [_ Hd] & [_ Ht]).
  split.
  - rewrite !count_append, !(count_at_plain _ Hl), !(count_at_plain _ Hd),
      !(count_at_plain _ Ht). reflexivity.
  - assert (Hw : forall x, all not_space_at x = true ->
                   all (fun c => negb (Number.is_white_space c)) x = true).
    { induction x as [|c x IH]; [reflexivity|]. cbn [all]. intros Hx.
      apply andb_true_iff in Hx as [Hc Hx]. rewrite (IH Hx), andb_true_r.
      unfold not_space_at in Hc. apply negb_true_iff, orb_false_iff in Hc as [Hc _].
      now rewrite Hc. }
    rewrite !all_append, (Hw l Hl), (Hw d Hd), (Hw t Ht). reflexivity.
Qed.

(** *** Numbers *)






(** The theorem for a name between blanks, with the bounds [1] and [100]
    that [validateText] takes when none is given. *)
Lemma validateText_ignores_padding_witness :
  let input := fresh "" in
  verdict (validateText (with_value ("  " +:+ "Ana" +:+ " ") input) 1 100)
  = verdict (validateText (with_value "Ana" input) 1 100) /\
  (JSON.safe_integer 1 = true -> JSON.safe_integer 100 = true ->
   JSON.safe_integer (Z.of_nat (String.length (trim "Ana"))) = true ->
   fst (validateText (with_value ("  " +:+ "Ana" +:+ " ") input) 1 100)
   = (1 <=? Z.of_nat (String.length (trim "Ana")))
     && (Z.of_nat (String.length (trim "Ana")) <=? 100)) /\
  (1 <= 1 -> JSON.safe_integer 1 = true ->
   verdict (validateText (with_value ("  " +:+ " ") input) 1 100)
   = (false, true,
      Some {| show := true;
              textContent :=
                "Debe tener entre " +:+ Number.toString (number 1) +:+ " y "
                +:+ Number.toString (number 100) +:+ " caracteres" |})).
Proof. apply validateText_ignores_padding; reflexivity. Defined.


Example validateEmail_examples :
  map (fun v => fst (validateEmail (fresh v)))
    ["ana@correo.es"; " ana@correo.es "; "ana@correo"; "ana correo@x.es";
     "a@b@c.es"; "@correo.es"; "ana@.es"; "ana@x..es"]%string
  = [true; true; false; false; false; false; false; true].
Proof. vm_compute. reflexivity. Qed.

Example validateText_examples :
  map (fun v => fst (validateText (fresh v) 1 100))
    ["Ana"; "  Ana "; ""; "   "; " a "]%string
  = [true; true; false; false; true] /\
  message (snd (validateText (fresh " ") 1 100))
  = Some {| show := true; textContent := "Debe tener entre 1 y 100 caracteres" |} /\
  message (snd (validateText (fresh " ") 1 (10 ^ 21)))
  = Some {| show := true; textContent := "Debe tener entre 1 y 1e+21 caracteres" |}.
Proof. vm_compute. auto. Qed.

Example validateNumber_examples :
  map (fun v => fst (validateNumber (fresh v) 0 100))
    ["42"; " 7.9"; "12abc"; "abc"; ""; "-1"; "-0"; "101"; "0x10"; "1e3"]%string
  = [true; true; true; false; false; false; true; false; true; true] /\
  message (snd (validateNumber (fresh "abc") 0 100))
  = Some {| show := true;
            textContent := "Debe ser un n" +:+ char (ascii_of_nat 250)
                           +:+ "mero entre 0 y 100" |}.
Proof. vm_compute. auto. Qed.

(** Beyond [2^53] the integer read is rounded: [9007199254740993] is read
    as [2^53], and is within a range that ends there. *)
Example validateNumber_rounds :
  parseInt "9007199254740993" = number (2 ^ 53) /\
  fst (validateNumber (fresh "9007199254740993") 0 (2 ^ 53)) = true /\
  fst (validateNumber (fresh "9007199254740993") 0 (2 ^ 53 - 1)) = false /\
  Number.toString (number (2 ^ 53 + 1)) = "9007199254740992"%string /\
  parseInt "-0" = S754_zero true /\
  parseInt "0x" = Number.NaN.
Proof. vm_compute. repeat split. Qed.

End FormValidatorFacts.

(** ** The helpers and the application *)

Module DOMManagerFacts.
Import JSString DOMManager.




End DOMManagerFacts.

Module AppFacts.
Import JSString App.

Lemma add_items_numbers (k : nat) (children : list Child) :
  add_items k children
  = children
    ++ map (fun j => ContentItem (heading (length children + j))) (seq 1 k).
Proof.
  revert children. induction k as [|k IH]; intros children.
  - cbn. now rewrite app_nil_r.
  - cbn [add_items]. rewrite IH, <- app_assoc. f_equal.
    cbn [seq map app]. f_equal. rewrite <- (seq_shift k 1), map_map.
    apply map_ext. intros j. rewrite length_app. cbn [length].
    do 2 f_equal. lia.
Qed.

Lemma add_items_add (j k : nat) (children : list Child) :
  add_items k (add_items j children) = add_items (j + k) children.
Proof.
  revert children. induction j as [|j IH]; intros children; [reflexivity|].
  cbn [add_items Nat.add]. apply IH.
Qed.

(** X30.  [loadMoreContent] appends as many items as asked, numbered from
    the number of children the container has onwards; hence two calls add
    what one call for the sum adds.  It does nothing for a count that is
    not positive, or an id that no element has. *)
Theorem loadMoreContent_continues (containerId : string) (m n : Z)
  (document : gmap string (list Child)) (children : list Child) :
  document !! containerId = Some children ->
  loadMoreContent containerId n document !! containerId
  = Some (children
          ++ map (fun j => ContentItem (heading (length children + j)))
               (seq 1 (Z.to_nat n))) /\
  (0 <= m -> 0 <= n ->
   loadMoreContent containerId n (loadMoreContent containerId m document)
   = loadMoreContent containerId (m + n) document) /\
  (n <= 0 -> loadMoreContent containerId n document = document) /\
  (forall id', document !! id' = None -> loadMoreContent id' n document = document).
Proof.
  intros H. unfold loadMoreContent. rewrite H. split; [|split; [|split]].
  - now rewrite lookup_insert_eq, add_items_numbers.
  - intros Hm Hn. rewrite lookup_insert_eq, insert_insert_eq, add_items_add.
    now rewrite Z2Nat.inj_add.
  - intros Hn. replace (Z.to_nat n) with 0%nat by lia. cbn [add_items].
    now apply insert_id.
  - intros id' Hn. now rewrite Hn.
Qed.

(** The theorem for a container with two children of its own. *)
Lemma loadMoreContent_continues_witness :
  let document : gmap string (list Child) := <["contenido" := [Other; Other]]> ∅ in
  loadMoreContent "contenido" 3 document !! "contenido"
  = Some ([Other; Other]
          ++ map (fun j => ContentItem (heading (length [Other; Other] + j)))
               (seq 1 (Z.to_nat 3))) /\
  (0 <= 2 -> 0 <= 3 ->
   loadMoreContent "contenido" 3 (loadMoreContent "contenido" 2 document)
   = loadMoreContent "contenido" (2 + 3) document) /\
  (3 <= 0 -> loadMoreContent "contenido" 3 document = document) /\
  (forall id', document !! id' = None -> loadMoreContent id' 3 document = document).
Proof. apply (loadMoreContent_continues "contenido" 2 3). reflexivity. Defined.

End AppFacts.

